(** * wechat-article-exporter: the helpers of [utils/index.ts]

    A shallow embedding of [proxyImage], [downloadArticleHTML],
    [packHTMLAssets] and [getArticleList] together with the properties
    stated about them.

    The functions are glue over the browser and over libraries:
    [$fetch], [DOMParser], [JSON.parse], [JSZip], [mime], [Date] and
    [Math.random].  Those are not part of the repository; they are
    gathered in one record of oracles, [Env], and every theorem holds for
    every environment.  What the functions themselves do (the control
    flow, the DOM clean-up, the loops over images, background URLs and
    style sheets, the regular expression, the archive updates, the
    decoding of the publish list) is modelled in full.

    The fifth function of the file, [formatTimeStamp], is one call of
    [dayjs] with a fixed format: all it does is done by that library and
    by the time zone of the host, so there is nothing of its own to
    embed.

    A call runs in the monad [M]: it takes the world (console, requests
    sent, clock readings made) and gives a result, a value or a thrown
    exception, with the world it leaves.  The archive is passed in and
    returned as a value.

    The definitions come first: JavaScript values, the DOM, regular
    expressions, the archive, the environment, the three functions, the
    notions the statements use, and the concrete environments of the
    examples.  The properties follow, and at the end the theorems are
    applied to the examples. *)

From Stdlib Require Import ZArith QArith String Ascii List DecimalString.
From stdpp Require Import gmap strings list.

#[local] Set Warnings "-register-all".
Open Scope string_scope.
Open Scope Z_scope.

(** ** Strings

    JavaScript strings are modelled by byte strings holding their UTF-8
    encoding.  Every character the code inspects is ASCII, so searching
    and splitting see the same boundaries as on UTF-16 code units. *)

(** The source has string literals that contain double quotes; they are
    written here with apostrophes and passed through [js]. *)
Definition quote_char (c : ascii) : ascii :=
  if Ascii.eqb c "'"%char then "034"%char else c.

Fixpoint js (s : string) : string :=
  match s with
  | EmptyString => EmptyString
  | String c r => String (quote_char c) (js r)
  end.

Definition is_empty (s : string) : bool :=
  match s with EmptyString => true | _ => false end.

(** [encodeURIComponent]: every byte of the UTF-8 encoding except the
    unreserved characters [A-Z a-z 0-9 - _ . ! ~ * ' ( )] becomes [%XX]. *)
Definition unreserved (c : ascii) : bool :=
  let n := nat_of_ascii c in
  ((65 <=? n) && (n <=? 90) || (97 <=? n) && (n <=? 122)
   || (48 <=? n) && (n <=? 57)
   || bool_decide (c ∈ ["-"; "_"; "."; "!"; "~"; "*"; "'"; "("; ")"]%char))%nat%bool.

Definition hex_digit (n : nat) : ascii :=
  if (n <? 10)%nat then ascii_of_nat (48 + n) else ascii_of_nat (55 + n).

Fixpoint encodeURIComponent (s : string) : string :=
  match s with
  | EmptyString => EmptyString
  | String c r =>
      if unreserved c then String c (encodeURIComponent r)
      else
        let n := nat_of_ascii c in
        String "%" (String (hex_digit (n / 16)) (String (hex_digit (n mod 16))
          (encodeURIComponent r)))
  end.

(** ** [proxyImage]

    [encodeURIComponent] raises on a text with a lone surrogate; the texts
    here hold the UTF-8 encoding of a well-formed text, on which it does
    not. *)

Definition proxyImage (url : string) : string :=
  "https://service.champ.design/api/proxy?url=" +:+ encodeURIComponent url.

(** ** Exceptions and results *)

Inductive exn : Type :=
| Error (message : string)      (* [new Error(message)] *)
| TypeError                     (* raised by the engine; its text is engine specific *)
| SyntaxError                   (* raised by [JSON.parse] *)
| FetchError (reason : string). (* rejection of [$fetch] *)

Inductive result (A : Type) : Type :=
| Ok (a : A)
| Throw (e : exn).
Arguments Ok {A} a.
Arguments Throw {A} e.

#[global] Instance result_ret : MRet result := fun _ a => Ok a.
#[global] Instance result_bind : MBind result := fun _ _ f r =>
  match r with
  | Ok a => f a
  | Throw e => Throw e
  end.

(** ** JavaScript values

    The values [JSON.parse] can return, and [undefined] for a property
    that is not there.  A finite number is the rational it denotes. *)

Inductive jsval : Type :=
| JUndefined
| JNull
| JBool (b : bool)
| JNum (x : Q)
| JInfinity (negative : bool)
| JStr (s : string)
| JArr (elems : list jsval)
| JObj (props : list (string * jsval)).

Fixpoint assoc {A : Type} (k : string) (l : list (string * A)) : option A :=
  match l with
  | [] => None
  | (k', v) :: r => if String.eqb k k' then Some v else assoc k r
  end.

(** [!!v] *)
Definition ToBoolean (v : jsval) : bool :=
  match v with
  | JUndefined | JNull => false
  | JBool b => b
  | JNum x => negb (Qnum x =? 0)
  | JInfinity _ => true
  | JStr s => negb (is_empty s)
  | JArr _ | JObj _ => true
  end.

(** [v.name], for a [name] that no prototype defines and that is neither
    [length] nor an index (the three names the code reads are such):
    reading from [undefined] or [null] raises a [TypeError], an object
    gives its own property, every other value gives [undefined]. *)
Definition Get (v : jsval) (name : string) : result jsval :=
  match v with
  | JUndefined | JNull => Throw TypeError
  | JObj props => Ok (default JUndefined (assoc name props))
  | _ => Ok JUndefined
  end.

(** [Array.prototype.filter] with a callback that may throw. *)
Fixpoint Array_filter (cb : jsval -> result bool) (l : list jsval)
  : result (list jsval) :=
  match l with
  | [] => Ok []
  | x :: r =>
      keep ← cb x;
      rest ← Array_filter cb r;
      Ok (if keep : bool then x :: rest else rest)
  end.

(** [v.filter(cb)]: only an array has a callable [filter]; a value parsed
    from JSON holds no function, so every other receiver raises. *)
Definition call_filter (v : jsval) (cb : jsval -> result bool)
  : result (list jsval) :=
  match v with
  | JArr l => Array_filter cb l
  | _ => Throw TypeError
  end.

(** One level of flattening, as [flatMap] does with a callback result. *)
Definition flatten1 (v : jsval) : list jsval :=
  match v with
  | JArr l => l
  | _ => [v]
  end.

(** [Array.prototype.flatMap] with a callback that may throw. *)
Fixpoint Array_flatMap (cb : jsval -> result jsval) (l : list jsval)
  : result (list jsval) :=
  match l with
  | [] => Ok []
  | x :: r =>
      v ← cb x;
      rest ← Array_flatMap cb r;
      Ok (flatten1 v ++ rest)%list
  end.

(** ** The DOM

    A document is its tree of nodes together with its mode: in quirks mode
    ID selectors compare ASCII case-insensitively.  Tag and attribute names
    are the lower-case names the HTML parser produces. *)

Inductive node : Type :=
| Element (tag : string) (attrs : list (string * string)) (children : list node)
| Text (data : string)
| Comment (data : string).

Record document : Type := mkDocument {
  quirks : bool;
  documentElement : node
}.

(** *** Attributes *)

Definition getAttribute (name : string) (n : node) : option string :=
  match n with
  | Element _ attrs _ => assoc name attrs
  | _ => None
  end.

(** [setAttribute]: the value is replaced in place, or a new attribute is
    appended. *)
Fixpoint set_attr (name value : string) (attrs : list (string * string))
  : list (string * string) :=
  match attrs with
  | [] => [(name, value)]
  | (k, v) :: r =>
      if String.eqb name k then (k, value) :: r
      else (k, v) :: set_attr name value r
  end.

Fixpoint remove_attr (name : string) (attrs : list (string * string))
  : list (string * string) :=
  match attrs with
  | [] => []
  | (k, v) :: r =>
      if String.eqb name k then r else (k, v) :: remove_attr name r
  end.

Definition setAttribute (name value : string) (n : node) : node :=
  match n with
  | Element t attrs c => Element t (set_attr name value attrs) c
  | _ => n
  end.

Definition removeAttribute (name : string) (n : node) : node :=
  match n with
  | Element t attrs c => Element t (remove_attr name attrs) c
  | _ => n
  end.

Definition childNodes (n : node) : list node :=
  match n with
  | Element _ _ c => c
  | _ => []
  end.

(** *** Selectors *)

Definition lower_char (c : ascii) : ascii :=
  let n := nat_of_ascii c in
  if ((65 <=? n)%nat && (n <=? 90)%nat)%bool then ascii_of_nat (n + 32) else c.

Fixpoint lower (s : string) : string :=
  match s with
  | EmptyString => EmptyString
  | String c r => String (lower_char c) (lower r)
  end.

Definition has_tag (t : string) (n : node) : bool :=
  match n with
  | Element t' _ _ => String.eqb t t'
  | _ => false
  end.

(** [#id]: exact in a no-quirks document, ASCII case-insensitive in a
    quirks one. *)
Definition has_id (quirks_mode : bool) (id : string) (n : node) : bool :=
  match getAttribute "id" n with
  | Some v => if quirks_mode then String.eqb (lower id) (lower v)
              else String.eqb id v
  | None => false
  end.

(** [img[src]] *)
Definition is_img_src (n : node) : bool :=
  (has_tag "img" n && bool_decide (is_Some (getAttribute "src" n)))%bool.

(** [link[rel='stylesheet']]; the value of [rel] is compared ASCII
    case-insensitively in an HTML document. *)
Definition is_stylesheet_link (n : node) : bool :=
  (has_tag "link" n &&
   match getAttribute "rel" n with
   | Some v => String.eqb "stylesheet" (lower v)
   | None => false
   end)%bool.

(** The nodes of a tree in tree order: the node, then its descendants. *)
Fixpoint nodes (n : node) : list node :=
  n :: match n with
       | Element _ _ c => flat_map nodes c
       | _ => []
       end.

(** *** Searching in tree order *)

Section Search.

Variable p : node -> bool.

(** The first node in tree order, among [n] and its descendants, that
    satisfies [p]. *)
Fixpoint first_in (n : node) : option node :=
  if p n then Some n
  else match n with
       | Element _ _ c =>
           (fix first_of (l : list node) : option node :=
              match l with
              | [] => None
              | x :: r => match first_in x with
                          | Some y => Some y
                          | None => first_of r
                          end
              end) c
       | _ => None
       end.

Definition first_of (l : list node) : option node :=
  (fix first_of (l : list node) : option node :=
     match l with
     | [] => None
     | x :: r => match first_in x with
                 | Some y => Some y
                 | None => first_of r
                 end
     end) l.

(** Rewrites the first node in tree order that satisfies [p], among the
    nodes of [l] and their descendants, into the nodes [f] gives for it;
    [None] when there is none. *)
Fixpoint rewrite_in (f : node -> list node) (n : node) : option (list node) :=
  if p n then Some (f n)
  else match n with
       | Element t a c =>
           match
             (fix rewrite_of (l : list node) : option (list node) :=
                match l with
                | [] => None
                | x :: r => match rewrite_in f x with
                            | Some x' => Some (x' ++ r)%list
                            | None => option_map (cons x) (rewrite_of r)
                            end
                end) c
           with
           | Some c' => Some [Element t a c']
           | None => None
           end
       | _ => None
       end.

Definition rewrite_of (f : node -> list node) (l : list node)
  : option (list node) :=
  (fix rewrite_of (l : list node) : option (list node) :=
     match l with
     | [] => None
     | x :: r => match rewrite_in f x with
                 | Some x' => Some (x' ++ r)%list
                 | None => option_map (cons x) (rewrite_of r)
                 end
     end) l.

(** Removes every node satisfying [p] from [l] and from the descendants of
    the nodes that stay. *)
Fixpoint prune (n : node) : node :=
  match n with
  | Element t a c =>
      Element t a
        ((fix prune_of (l : list node) : list node :=
            match l with
            | [] => []
            | x :: r => if p x then prune_of r else prune x :: prune_of r
            end) c)
  | _ => n
  end.

Definition prune_of (l : list node) : list node :=
  (fix prune_of (l : list node) : list node :=
     match l with
     | [] => []
     | x :: r => if p x then prune_of r else prune x :: prune_of r
     end) l.

(** The positions, in tree order, of the descendants of [n] that satisfy
    [p]; a position is the list of child indices leading to the node. *)
Fixpoint positions (n : node) : list (list nat) :=
  match n with
  | Element _ _ c =>
      (fix positions_of (i : nat) (l : list node) : list (list nat) :=
         match l with
         | [] => []
         | x :: r =>
             ((if p x then [[i]] else []) ++ map (cons i) (positions x)
              ++ positions_of (S i) r)%list
         end) 0%nat c
  | _ => []
  end.

End Search.

(** The node at a position, and a change made there. *)
Fixpoint node_at (pos : list nat) (n : node) : option node :=
  match pos with
  | [] => Some n
  | i :: q => childNodes n !! i ≫= node_at q
  end.

Fixpoint alter_at (f : node -> node) (pos : list nat) (n : node) : node :=
  match pos with
  | [] => f n
  | i :: q =>
      match n with
      | Element t a c => Element t a (alter (alter_at f q) i c)
      | _ => n
      end
  end.

(** *** The methods the code calls *)

(** [document.querySelector(sel)] *)
Definition document_querySelector (sel : node -> bool) (d : document)
  : option node :=
  first_in sel (documentElement d).

(** [el.querySelector(sel)]: descendants only. *)
Definition querySelector (sel : node -> bool) (el : node) : option node :=
  first_of sel (childNodes el).

(** [el.querySelector(sel)?.removeAttribute(name)], as a new [el]. *)
Definition removeAttribute_first (sel : node -> bool) (name : string)
    (el : node) : node :=
  match el with
  | Element t a c =>
      match rewrite_of sel (fun n => [removeAttribute name n]) c with
      | Some c' => Element t a c'
      | None => el
      end
  | _ => el
  end.

(** [el.querySelector(sel)?.remove()], as a new [el]. *)
Definition remove_first (sel : node -> bool) (el : node) : node :=
  match el with
  | Element t a c =>
      match rewrite_of sel (fun _ => []) c with
      | Some c' => Element t a c'
      | None => el
      end
  | _ => el
  end.

(** [el.querySelectorAll(sel).forEach(e => e.remove())], as a new [el]. *)
Definition remove_all (sel : node -> bool) (el : node) : node :=
  prune sel el.

(** The document once the element found by [document.querySelector(sel)]
    has become [el']: the element is part of the document, so what is done
    to it is seen through the document too. *)
Definition document_with (sel : node -> bool) (el' : node) (d : document)
  : document :=
  match rewrite_in sel (fun _ => [el']) (documentElement d) with
  | Some [r] => mkDocument (quirks d) r
  | _ => d
  end.

(** [document.querySelectorAll('head link[rel=stylesheet]')]: the links, in
    tree order, that have a [head] element among their ancestors. *)
Fixpoint head_links (under_head : bool) (n : node) : list node :=
  match n with
  | Element t _ c =>
      let inside := (under_head || String.eqb "head" t)%bool in
      (fix links_of (l : list node) : list node :=
         match l with
         | [] => []
         | x :: r =>
             ((if (inside && is_stylesheet_link x)%bool then [x] else [])
              ++ head_links inside x ++ links_of r)%list
         end) c
  | _ => []
  end.

(** Induction on a tree, with the property known of the children. *)
Section NodeInduction.

Variable P : node -> Prop.
Hypothesis element : forall t a c, Forall P c -> P (Element t a c).
Hypothesis text : forall d, P (Text d).
Hypothesis comment : forall d, P (Comment d).

Fixpoint node_induction (n : node) : P n :=
  match n with
  | Element t a c =>
      element t a c
        ((fix all (l : list node) : Forall P l :=
            match l with
            | [] => List.Forall_nil P
            | x :: r => List.Forall_cons P x r (node_induction x) (all r)
            end) c)
  | Text d => text d
  | Comment d => comment d
  end.

End NodeInduction.

(** A fetched binary resource. *)
Record Blob : Type := mkBlob {
  blob_type : string;   (* the MIME type, [imgData.type] *)
  blob_data : string
}.

(** ** Regular expressions

    A backtracking matcher in continuation-passing style for the
    constructs the source uses.  Alternatives are tried left to right, [?]
    is greedy, [+?] is lazy, and a group records the text it consumed. *)

Inductive regex : Type :=
| Lit (s : string)            (* the characters of [s] *)
| NoneOf (c : ascii)          (* [[^c]] *)
| Seq (r1 r2 : regex)
| Alt (r1 r2 : regex)         (* [r1|r2] *)
| Opt (r : regex)             (* [(?:r)?] *)
| PlusLazy (r : regex)        (* [(?:r)+?] *)
| Group (r : regex).          (* [(r)] *)

Fixpoint strip_prefix (t s : string) : option string :=
  match t, s with
  | EmptyString, _ => Some s
  | String a t', String b s' => if Ascii.eqb a b then strip_prefix t' s' else None
  | String _ _, EmptyString => None
  end.

(** What was consumed between [s] and its suffix [s']. *)
Definition consumed (s s' : string) : string :=
  substring 0 (String.length s - String.length s') s.

Section Matcher.

Context {R : Type}.

(** [(?:r)+?], given the matcher [step] of [r]: one more [r], then the
    continuation, and another round when the continuation fails.  A round
    that consumes nothing is given up, so the length of the text bounds
    the number of rounds. *)
Fixpoint lazy_plus (step : string -> list string ->
                           (string -> list string -> option R) -> option R)
    (k : string -> list string -> option R)
    (fuel : nat) (s : string) (caps : list string) : option R :=
  match fuel with
  | O => None
  | S fuel' =>
      step s caps (fun s' caps' =>
        if (String.length s' <? String.length s)%nat then
          match k s' caps' with
          | Some x => Some x
          | None => lazy_plus step k fuel' s' caps'
          end
        else None)
  end.

Fixpoint run (r : regex) (s : string) (caps : list string)
    (k : string -> list string -> option R) : option R :=
  match r with
  | Lit t =>
      match strip_prefix t s with
      | Some s' => k s' caps
      | None => None
      end
  | NoneOf c =>
      match s with
      | String a s' => if Ascii.eqb a c then None else k s' caps
      | EmptyString => None
      end
  | Seq r1 r2 => run r1 s caps (fun s' caps' => run r2 s' caps' k)
  | Alt r1 r2 =>
      match run r1 s caps k with
      | Some x => Some x
      | None => run r2 s caps k
      end
  | Opt r1 =>
      match run r1 s caps k with
      | Some x => Some x
      | None => k s caps
      end
  | PlusLazy r1 => lazy_plus (run r1) k (S (String.length s)) s caps
  | Group r1 =>
      run r1 s caps (fun s' caps' => k s' (caps' ++ [consumed s s'])%list)
  end.

End Matcher.

(** A match at the start of [s]: the captures and the rest of [s]. *)
Definition exec_here (r : regex) (s : string) : option (list string * string) :=
  run r s [] (fun s' caps => Some (caps, s')).

(** The input cut at the matches of a global expression: the characters no
    match covers, and the matches with their captures.  The search resumes
    where a match ended.  [skip] counts the characters still covered by the
    last match; the expression is assumed to match no empty string. *)
Inductive piece : Type :=
| Plain (c : ascii)
| Matched (text : string) (caps : list string).

Fixpoint pieces (r : regex) (s : string) (skip : nat) : list piece :=
  match s with
  | EmptyString => []
  | String c s' =>
      match skip with
      | S n => pieces r s' n
      | O =>
          match exec_here r s with
          | Some (caps, rest) =>
              Matched (consumed s rest) caps
                :: pieces r s' (String.length s - String.length rest - 1)
          | None => Plain c :: pieces r s' 0
          end
      end
  end.

(** [s.replaceAll(r, cb)] for a global [r]: all matches are found first,
    then the callback is called on each, from left to right, and its
    results replace the matches.  The callback works on a state [St]. *)
Fixpoint replace_pieces {St : Type}
    (cb : string -> list string -> St -> string * St)
    (l : list piece) (st : St) : string * St :=
  match l with
  | [] => (EmptyString, st)
  | Plain c :: r =>
      let '(out, st') := replace_pieces cb r st in (String c out, st')
  | Matched text caps :: r =>
      let '(new, st1) := cb text caps st in
      let '(out, st2) := replace_pieces cb r st1 in
      (new +:+ out, st2)
  end.

Definition replaceAll {St : Type} (r : regex)
    (cb : string -> list string -> St -> string * St)
    (s : string) (st : St) : string * St :=
  replace_pieces cb (pieces r s 0) st.

(** [/((?:background|background-image): url\((?:&quot;)?)((?:https?|\/\/)[^)]+?)((?:&quot;)?\))/gs],
    group by group. *)
Definition declaration_start : regex :=
  Seq (Alt (Lit "background") (Lit "background-image"))
      (Seq (Lit ": url(") (Opt (Lit "&quot;"))).

Definition remote_url : regex :=
  Seq (Alt (Seq (Lit "http") (Opt (Lit "s"))) (Lit "//"))
      (PlusLazy (NoneOf ")")).

Definition declaration_end : regex :=
  Seq (Opt (Lit "&quot;")) (Lit ")").

Definition background_url : regex :=
  Seq (Group declaration_start) (Seq (Group remote_url) (Group declaration_end)).

(** The three groups of a match of [background_url]. *)
Definition groups (caps : list string) : string * string * string :=
  (default EmptyString (caps !! 0%nat),
   default EmptyString (caps !! 1%nat),
   default EmptyString (caps !! 2%nat)).

(** An expression without groups. *)
Fixpoint groupless (r : regex) : bool :=
  match r with
  | Lit _ | NoneOf _ => true
  | Seq r1 r2 | Alt r1 r2 => groupless r1 && groupless r2
  | Opt r1 | PlusLazy r1 => groupless r1
  | Group _ => false
  end.

(** The text the pieces cover. *)
Fixpoint text_of (l : list piece) : string :=
  match l with
  | [] => EmptyString
  | Plain c :: r => String c (text_of r)
  | Matched text _ :: r => text +:+ text_of r
  end.

(** ** [Set] and [Map]

    A [Set] keeps its elements in insertion order, which is the order
    [for ... of] visits them in; a [Map] is only looked up. *)

Definition Set_add (x : string) (l : list string) : list string :=
  if bool_decide (x ∈ l) then l else (l ++ [x])%list.

(** ** The archive

    [JSZip] keeps its entries in an object indexed by their full name; a
    folder is the entry of its name followed by a slash.  [file] replaces
    an entry of the same name.  (It also creates the entries of the parent
    folders that are missing: [assets/] is there before any file is added
    under it.) *)

Inductive content : Type :=
| BlobData (b : Blob)
| TextData (s : string).

Inductive entry : Type :=
| Folder
| File (data : content).

Abbreviation JSZip := (gmap string entry).

Definition zip_folder (name : string) (zip : JSZip) : JSZip :=
  match zip !! (name +:+ "/") with
  | Some _ => zip
  | None => <[name +:+ "/" := Folder]> zip
  end.

Definition zip_file (name : string) (data : content) (zip : JSZip) : JSZip :=
  <[name := File data]> zip.

(** ** Data exchanged with the outside *)

(** Modelled from the spec: the declarations of [~/types/types] are not in
    the sources.  The listing endpoint answers
    [{base_resp: {ret, err_msg}, publish_page: <JSON string>}]. *)
Record BaseResp : Type := mkBaseResp {
  ret : Z;
  err_msg : string
}.

Record AppMsgPublishResponse : Type := mkResponse {
  base_resp : BaseResp;
  publish_page : string
}.

(** The [query] object of the listing request. *)
Record Query : Type := mkQuery {
  q_id : string;
  q_token : string;
  q_page : Z;
  q_size : Z;
  q_keyword : string
}.

Inductive request : Type :=
| GET (url : string)
| GET_query (url : string) (q : Query).

Inductive fetched (A : Type) : Type :=
| Fetched (a : A)
| Rejected (reason : string).
Arguments Fetched {A} a.
Arguments Rejected {A} reason.

(** ** The environment

    Everything the functions call that is not theirs.  A fetch is
    determined by its request; the clock and the random generator are
    sequences indexed by the number of readings made so far. *)

Record Env : Type := mkEnv {
  fetch_text : string -> fetched string;          (* [$fetch<string>(url)] *)
  fetch_blob : string -> fetched Blob;            (* [$fetch<Blob>(url)] *)
  fetch_appmsgpublish : string -> Query -> fetched AppMsgPublishResponse;
  parseFromString : string -> document;           (* [DOMParser], 'text/html' *)
  outerHTML : node -> string;                     (* HTML serialisation *)
  reflect_url : string -> string;                 (* [el.src], [el.href] of a present attribute *)
  JSON_parse : jsval -> option jsval;             (* [None]: a SyntaxError *)
  mime_getExtension : string -> option string;    (* [None]: null *)
  Date_getTime : nat -> Z;                        (* k-th reading of the clock, ms *)
  Math_random_toString : nat -> string            (* k-th random number, printed *)
}.

(** ** The world: what a call leaves behind besides its result *)

Inductive console_entry : Type :=
| console_info (args : list string)
| console_warn (args : list string)
| console_error (e : exn).

Record World : Type := mkWorld {
  console : list console_entry;   (* most recent first *)
  network : list request;         (* most recent first *)
  readings : nat                  (* clock and random readings made *)
}.

Definition M (A : Type) : Type := World -> result A * World.

#[global] Instance M_ret : MRet M := fun _ a w => (Ok a, w).
#[global] Instance M_bind : MBind M := fun _ _ f m w =>
  match m w with
  | (Ok a, w') => f a w'
  | (Throw e, w') => (Throw e, w')
  end.

Definition throw {A : Type} (e : exn) : M A := fun w => (Throw e, w).

Definition lift {A : Type} (r : result A) : M A := fun w => (r, w).

(** [try { body } catch (e) { handler }] *)
Definition try_catch {A : Type} (body : M A) (handler : exn -> M A) : M A :=
  fun w =>
    match body w with
    | (Ok a, w') => (Ok a, w')
    | (Throw e, w') => handler e w'
    end.

Definition logged (c : console_entry) (w : World) : World :=
  mkWorld (c :: console w) (network w) (readings w).

Definition requested (r : request) (w : World) : World :=
  mkWorld (console w) (r :: network w) (readings w).

Definition log (c : console_entry) : M unit := fun w => (Ok tt, logged c w).

Definition sent (r : request) : M unit := fun w => (Ok tt, requested r w).

Definition of_fetched {A : Type} (f : fetched A) : M A :=
  match f with
  | Fetched a => mret a
  | Rejected reason => throw (FetchError reason)
  end.

Section Program.

Variable env : Env.

Definition fetch_string (url : string) : M string :=
  sent (GET url);; of_fetched (fetch_text env url).

Definition fetch_Blob (url : string) : M Blob :=
  sent (GET url);; of_fetched (fetch_blob env url).

Definition fetch_publish (url : string) (q : Query) : M AppMsgPublishResponse :=
  sent (GET_query url q);; of_fetched (fetch_appmsgpublish env url q).

(** [new Date().getTime() + Math.random().toString()]: the time is an
    integer number of milliseconds, printed in decimal, and the printed
    random number is appended to it. *)
Definition uuid (k : nat) : string :=
  NilZero.string_of_int (Z.to_int (Date_getTime env k))
  +:+ Math_random_toString env k.

Definition new_uuid : M string := fun w =>
  (Ok (uuid (readings w)), mkWorld (console w) (network w) (S (readings w))).

(** [`${ext}`] for the result of [mime.getExtension]. *)
Definition ext_text (ext : option string) : string :=
  default "null" ext.

(** [for (const x of l) body], on the state [S] the body works on. *)
Fixpoint for_of {A S : Type} (body : S -> A -> M S) (l : list A) (st : S)
  : M S :=
  match l with
  | [] => mret st
  | x :: r => st' ← body st x; for_of body r st'
  end.

(** ** [downloadArticleHTML] *)

Definition page_content (d : document) : option node :=
  document_querySelector (has_id (quirks d) "page-content") d.

Definition downloadArticleHTML (articleURL : string) (title : option string)
  : M string :=
  fullHTML ← fetch_string ("/api/download?url=" +:+ encodeURIComponent articleURL);
  let document := parseFromString env fullHTML in
  match page_content document with
  | None =>
      match title with
      | Some t => if is_empty t then mret tt else log (console_info [t])
      | None => mret tt
      end;;
      throw (Error "下载失败，请重试")
  | Some _ => mret fullHTML
  end.

(** ** [packHTMLAssets] *)

(** Lines 51 to 59: the style of [#js_content] and the useless elements
    are removed from the content container. *)
Definition clean (quirks_mode : bool) (pageContent : node) : node :=
  let el := removeAttribute_first (has_id quirks_mode "js_content") "style" pageContent in
  let el := remove_first (has_id quirks_mode "js_tags_preview_toast") el in
  let el := remove_first (has_id quirks_mode "content_bottom_area") el in
  let el := remove_first (has_id quirks_mode "js_temp_bottom_area") el in
  remove_all (has_tag "script") el.

(** [el.src] and [el.href]: empty without the attribute, otherwise its
    value resolved against the base URL of the document. *)
Definition reflected (name : string) (el : option node) : string :=
  match el ≫= getAttribute name with
  | Some v => reflect_url env v
  | None => EmptyString
  end.

(** The body of the loop over the images; [img] is the position of the
    image in the content container. *)
Definition download_image (st : node * JSZip) (img : list nat)
  : M (node * JSZip) :=
  let '(pageContent, zip) := st in
  let src := reflected "src" (node_at img pageContent) in
  if is_empty src then
    log (console_warn ["img元素的src为空"]);;
    mret (pageContent, zip)
  else
    try_catch
      (imgData ← fetch_Blob src;
       uuid ← new_uuid;
       let ext := mime_getExtension env (blob_type imgData) in
       let name := "assets/" +:+ uuid +:+ "." +:+ ext_text ext in
       mret (alter_at (setAttribute "src" ("./" +:+ name)) img pageContent,
             zip_file name (BlobData imgData) zip))
      (fun e =>
         log (console_info ["图片下载失败: "; src]);;
         log (console_error e);;
         mret (pageContent, zip)).

(** Lines 66 to 85. *)
Definition download_images (pageContent : node) (zip : JSZip)
  : M (node * JSZip) :=
  let imgs := positions is_img_src pageContent in
  for_of download_image imgs (pageContent, zip).

(** The first pass over the serialised content collects the URLs. *)
Definition collect_url (text : string) (caps : list string)
    (bgImageURLs : list string) : string * list string :=
  let '(p1, url, p3) := groups caps in
  (p1 +:+ url +:+ p3, Set_add url bgImageURLs).

(** The body of the loop over the background URLs. *)
Definition download_background (st : gmap string string * JSZip) (url : string)
  : M (gmap string string * JSZip) :=
  let '(url2pathMap, zip) := st in
  try_catch
    (imgData ← fetch_Blob url;
     uuid ← new_uuid;
     let ext := mime_getExtension env (blob_type imgData) in
     let name := "assets/" +:+ uuid +:+ "." +:+ ext_text ext in
     mret (<[url := name]> url2pathMap, zip_file name (BlobData imgData) zip))
    (fun e =>
       log (console_info ["背景图片下载失败: "; url]);;
       log (console_error e);;
       mret (url2pathMap, zip)).

(** The second pass rewrites the URLs that were fetched. *)
Definition rewrite_url (url2pathMap : gmap string string)
    (text : string) (caps : list string) (w : World) : string * World :=
  let '(p1, url, p3) := groups caps in
  match url2pathMap !! url with
  | Some path => (p1 +:+ "./" +:+ path +:+ p3, w)
  | None =>
      (p1 +:+ url +:+ p3,
       mkWorld (console_warn ["背景图片丢失: "; url] :: console w)
               (network w) (readings w))
  end.

Definition rewrite_backgrounds (url2pathMap : gmap string string)
    (pageContentHTML : string) : M string := fun w =>
  let '(html, w') :=
    replaceAll background_url (rewrite_url url2pathMap) pageContentHTML w in
  (Ok html, w').

(** Lines 90 to 121: the rewritten content and the archive. *)
Definition download_backgrounds (pageContentHTML : string) (zip : JSZip)
  : M (string * JSZip) :=
  let bgImageURLs :=
    (replaceAll background_url collect_url pageContentHTML []).2 in
  '(url2pathMap, zip) ← for_of download_background bgImageURLs (∅, zip);
  pageContentHTML ← rewrite_backgrounds url2pathMap pageContentHTML;
  mret (pageContentHTML, zip).

(** The body of the loop over the style sheets. *)
Definition download_stylesheet (st : string * JSZip) (link : node)
  : M (string * JSZip) :=
  let '(localLinks, zip) := st in
  let url := reflected "href" (Some link) in
  try_catch
    (stylesheet ← fetch_string url;
     uuid ← new_uuid;
     mret (localLinks +:+ js "<link rel='stylesheet' href='./assets/" +:+ uuid
             +:+ js ".css'>",
           zip_file ("assets/" +:+ uuid +:+ ".css") (TextData stylesheet) zip))
    (fun e =>
       log (console_info ["样式表下载失败: "; url]);;
       log (console_error e);;
       mret (localLinks, zip)).

(** Lines 124 to 137. *)
Definition download_stylesheets (d : document) (zip : JSZip)
  : M (string * JSZip) :=
  let links := head_links false (documentElement d) in
  for_of download_stylesheet links (EmptyString, zip).

(** Lines 139 to 160. *)
Definition indexHTML (localLinks pageContentHTML : string) : string :=
  js "<!DOCTYPE html>
<html lang='zh_CN'>
<head>
    <meta charset='utf-8'>
    <meta http-equiv='Content-Type' content='text/html; charset=utf-8'>
    <meta http-equiv='X-UA-Compatible' content='IE=edge'>
    <meta name='viewport' content='width=device-width,initial-scale=1.0,maximum-scale=1.0,user-scalable=0,viewport-fit=cover'>
    " +:+ localLinks +:+ "
    <style>
        #page-content {
            max-width: 667px;
            margin: 0 auto;
        }
        img {
            max-width: 100%;
        }
    </style>
</head>
<body>
" +:+ pageContentHTML +:+ "
</body>
</html>".

Definition packHTMLAssets (html : string) (zip : option JSZip) : M JSZip :=
  let zip := default ∅ zip in
  let document := parseFromString env html in
  match page_content document with
  | None =>
      (* [$pageContent] is null: the call on it at line 51 raises *)
      throw TypeError
  | Some pageContent =>
      let pageContent := clean (quirks document) pageContent in
      let zip := zip_folder "assets" zip in
      '(pageContent, zip) ← download_images pageContent zip;
      let pageContentHTML := outerHTML env pageContent in
      '(pageContentHTML, zip) ← download_backgrounds pageContentHTML zip;
      let document :=
        document_with (has_id (quirks document) "page-content") pageContent
                      document in
      '(localLinks, zip) ← download_stylesheets document zip;
      mret (zip_file "index.html"
              (TextData (indexHTML localLinks pageContentHTML)) zip)
  end.

(** [JSON.parse(v)] *)
Definition parse (v : jsval) : result jsval :=
  match JSON_parse env v with
  | Some r => Ok r
  | None => Throw SyntaxError
  end.

(** ** [getArticleList] *)

(** [item => !!item.publish_info] *)
Definition has_publish_info (item : jsval) : result bool :=
  info ← Get item "publish_info";
  Ok (ToBoolean info).

(** [item => JSON.parse(item.publish_info).appmsgex] *)
Definition appmsgex_of (item : jsval) : result jsval :=
  text ← Get item "publish_info";
  publish_info ← parse text;
  Get publish_info "appmsgex".

(** The branch taken when [ret] is 0. *)
Definition decode_publish_page (text : string) : result (list jsval) :=
  publish_page ← parse (JStr text);
  all ← Get publish_page "publish_list";
  publish_list ← call_filter all has_publish_info;
  if (Z.of_nat (length publish_list) =? 0) then Ok []
  else Array_flatMap appmsgex_of publish_list.

(** The query of the request; [page] defaults to 1 and [keyword] to the
    empty string. *)
Definition listing_query (fakeid token : string)
    (page : option Z) (keyword : option string) : Query :=
  mkQuery fakeid token (default 1 page) 20 (default EmptyString keyword).

Definition getArticleList (fakeid token : string)
    (page : option Z) (keyword : option string) : M (list jsval) :=
  resp ← fetch_publish "/api/appmsgpublish"
           (listing_query fakeid token page keyword);
  if ret (base_resp resp) =? 0 then
    lift (decode_publish_page (publish_page resp))
  else if ret (base_resp resp) =? 200003 then
    throw (Error "session expired")
  else
    throw (Error (err_msg (base_resp resp))).

End Program.

(** ** Notions used in the statements about the archive *)

(** The name of an asset made from the [k]-th reading of the clock and of
    the random generator. *)
Definition asset_name (env : Env) (k : nat) (ext : string) : string :=
  "assets/" +:+ uuid env k +:+ "." +:+ ext.

(** [name] is generated by one of the readings from [a] up to [b]. *)
Definition generated (env : Env) (a b : nat) (name : string) : Prop :=
  exists k ext, (a <= k < b)%nat /\ name = asset_name env k ext.

(** Entries written one after the other. *)
Definition writes (ops : list (string * entry)) (zip : JSZip) : JSZip :=
  foldl (fun z op => <[op.1 := op.2]> z) zip ops.

(** The files of an archive that lie under [assets/]. *)
Definition asset_files (zip : JSZip) : list string :=
  List.filter (fun name => bool_decide (is_Some (strip_prefix "assets/" name)))
    (map fst (List.filter (fun kv => match kv.2 with File _ => true | Folder => false end)
                (map_to_list zip))).

(** The attribute of the node at a position. *)
Definition attr_at (name : string) (pos : list nat) (n : node) : option string :=
  node_at pos n ≫= getAttribute name.

Definition is_fetched {A : Type} (f : fetched A) : bool :=
  match f with Fetched _ => true | Rejected _ => false end.

(** The background URLs among the pieces of a text, one per occurrence. *)
Fixpoint urls_in (l : list piece) : list string :=
  match l with
  | [] => []
  | Plain _ :: r => urls_in r
  | Matched _ caps :: r => (groups caps).1.2 :: urls_in r
  end.

(** The text made of the pieces, each match replaced by what [f] gives for
    its three groups. *)
Fixpoint rewritten (f : string -> string -> string -> string) (l : list piece)
  : string :=
  match l with
  | [] => EmptyString
  | Plain c :: r => String c (rewritten f r)
  | Matched _ caps :: r =>
      let '(p1, url, p3) := groups caps in f p1 url p3 +:+ rewritten f r
  end.

(** The source of the image at a position of the content container, and
    whether the loop over the images gets it. *)
Definition image_source (env : Env) (pageContent : node) (img : list nat)
  : string :=
  reflected env "src" (node_at img pageContent).

Definition fetchable_image (env : Env) (pageContent : node) (img : list nat)
  : bool :=
  (negb (is_empty (image_source env pageContent img)) &&
   is_fetched (fetch_blob env (image_source env pageContent img)))%bool.

(** The extension given to a fetched blob. *)
Definition blob_ext (env : Env) (b : Blob) : string :=
  ext_text (mime_getExtension env (blob_type b)).

(** The entry written for a stored image. *)
Definition image_entry (s : list nat * string * Blob) : string * entry :=
  (s.1.2, File (BlobData s.2)).

#[global] Instance Query_eq_dec : EqDecision Query.
Proof. solve_decision. Defined.

#[global] Instance request_eq_dec : EqDecision request.
Proof. solve_decision. Defined.

(** How many times a request occurs among the requests sent. *)
Definition times (r : request) (l : list request) : nat :=
  length (List.filter (fun x => bool_decide (x = r)) l).

(** The local path of a background URL. *)
Definition local_path (url2pathMap : gmap string string) (url : string) : string :=
  default EmptyString (url2pathMap !! url).

(** A text without its first [n] characters. *)
Fixpoint after (n : nat) (s : string) : string :=
  match n, s with
  | S n', String _ s' => after n' s'
  | _, _ => s
  end.

(** ** Notions used in the statements about the content container *)

(** The nodes below a node, in tree order. *)
Definition descendants (n : node) : list node :=
  flat_map nodes (childNodes n).

(** ** Notions used in the statements about the style sheets *)

(** The address a [link] element stands for. *)
Definition stylesheet_href (env : Env) (link : node) : string :=
  reflected env "href" (Some link).

(** The element that refers to the style sheet stored under [name]. *)
Definition local_link (name : string) : string :=
  js "<link rel='stylesheet' href='./" +:+ name +:+ js "'>".

(** Texts put one after the other. *)
Definition joined (l : list string) : string :=
  fold_right String.append EmptyString l.

(** The entry written for a stored style sheet. *)
Definition stylesheet_entry (s : string * string) : string * entry :=
  (s.1, File (TextData s.2)).

(** ** An account of a call of [packHTMLAssets]

    What a call writes into the archive can be told from the page and the
    environment: the files of the images, then those of the background
    images, then those of the style sheets, each under a name made from
    the reading taken when it is written. *)

(** What a round of a loop gives to the archive: nothing when no request
    is made or when it fails, and otherwise the extension and the content
    of the file it writes (lines 68-84 for an image, 100-110 for a
    background image, 127-136 for a style sheet). *)
Definition image_outcome (env : Env) (pageContent : node) (img : list nat)
  : option (string * content) :=
  let src := image_source env pageContent img in
  if is_empty src then None
  else match fetch_blob env src with
       | Fetched b => Some (blob_ext env b, BlobData b)
       | Rejected _ => None
       end.

Definition background_outcome (env : Env) (url : string)
  : option (string * content) :=
  match fetch_blob env url with
  | Fetched b => Some (blob_ext env b, BlobData b)
  | Rejected _ => None
  end.

Definition stylesheet_outcome (env : Env) (link : node)
  : option (string * content) :=
  match fetch_text env (stylesheet_href env link) with
  | Fetched stylesheet => Some ("css", TextData stylesheet)
  | Rejected _ => None
  end.

(** The files written for the outcomes of the rounds, one after the other,
    the first name being made from the [k]-th reading: a round that writes
    a file takes one reading, at lines 75, 102 and 130, and a round that
    writes none takes none. *)
Fixpoint named_files (env : Env) (k : nat) (l : list (option (string * content)))
  : list (string * entry) :=
  match l with
  | [] => []
  | None :: r => named_files env k r
  | Some (ext, data) :: r =>
      (asset_name env k ext, File data) :: named_files env (S k) r
  end.

(** The content container as the loop over the images leaves it. *)
Definition after_images (env : Env) (pageContent : node) (w : World) : node :=
  match (download_images env pageContent ∅ w).1 with
  | Ok (pageContent', _) => pageContent'
  | Throw _ => pageContent
  end.

(** The URLs the first pass over a serialised content collects. *)
Definition collected (pageContentHTML : string) : list string :=
  (replaceAll background_url collect_url pageContentHTML []).2.

(** The files a call writes for the images of the page. *)
Definition image_files (env : Env) (html : string) (w : World)
  : list (string * entry) :=
  let d := parseFromString env html in
  match page_content d with
  | None => []
  | Some pageContent =>
      let cleaned := clean (quirks d) pageContent in
      named_files env (readings w)
        (map (image_outcome env cleaned) (positions is_img_src cleaned))
  end.

(** The files it writes after them, for the background images and for the
    style sheets. *)
Definition later_files (env : Env) (html : string) (w : World)
  : list (string * entry) :=
  let d := parseFromString env html in
  match page_content d with
  | None => []
  | Some pageContent =>
      let pageContent' := after_images env (clean (quirks d) pageContent) w in
      let links :=
        head_links false
          (documentElement
             (document_with (has_id (quirks d) "page-content") pageContent' d)) in
      named_files env (readings w + length (image_files env html w))
        (map (background_outcome env) (collected (outerHTML env pageContent'))
         ++ map (stylesheet_outcome env) links)
  end.

(** All the files of a call, in the order in which they are written. *)
Definition call_files (env : Env) (html : string) (w : World)
  : list (string * entry) :=
  (image_files env html w ++ later_files env html w)%list.

(** ** Notions used in the statements about background URLs *)

(** Whether a character occurs in a text. *)
Fixpoint has_char (c : ascii) (s : string) : bool :=
  match s with
  | EmptyString => false
  | String a r => Ascii.eqb a c || has_char c r
  end.

(** An address that starts with [http] or with two slashes.  (An address
    may start so and be relative all the same: [httpdocs/bg.png].) *)
Definition http_or_slashes (url : string) : bool :=
  match strip_prefix "http" url, strip_prefix "//" url with
  | None, None => false
  | _, _ => true
  end.

(** A node without what is below it and without its [style]. *)
Definition outline (n : node) : node :=
  match n with
  | Element t a _ =>
      Element t (List.filter (fun kv => negb (String.eqb "style" kv.1)) a) []
  | _ => n
  end.

(** ** Notions used in the statements about encoded URLs *)

(** An upper-case hexadecimal digit. *)
Definition is_hex (c : ascii) : bool :=
  let n := nat_of_ascii c in
  ((48 <=? n) && (n <=? 57) || (65 <=? n) && (n <=? 70))%nat%bool.

(** A text made of unreserved characters and of escapes, a percent sign
    followed by two hexadecimal digits.  Such a text holds none of the
    characters that delimit the parts of a URL or the parameters of its
    query. *)
Fixpoint well_escaped (s : string) : bool :=
  match s with
  | EmptyString => true
  | String c r =>
      if Ascii.eqb c "%" then
        match r with
        | String a (String b r') => is_hex a && is_hex b && well_escaped r'
        | _ => false
        end
      else unreserved c && well_escaped r
  end.

(** ** The words of the specification about the publish list

    The type [PublishPage] declares the entries of [publish_list] as
    objects whose [publish_info] is a string; an entry lacks publish info
    when the field is missing or empty.  [PublishInfo] declares [appmsgex]
    as a list. *)

Definition declared_entry (item : jsval) : Prop :=
  exists props, item = JObj props /\
    (assoc "publish_info" props = None \/
     exists text, assoc "publish_info" props = Some (JStr text)).

Definition lacks_publish_info (item : jsval) : bool :=
  match item with
  | JObj props =>
      match assoc "publish_info" props with
      | None => true
      | Some (JStr text) => is_empty text
      | Some _ => false
      end
  | _ => false
  end.

(** The entries that stay, in order. *)
Definition with_publish_info (items : list jsval) : list jsval :=
  List.filter (fun item => negb (lacks_publish_info item)) items.

(** [l] is the [appmsgex] list in the JSON text that [item] holds as its
    [publish_info]. *)
Definition inner_list (env : Env) (item : jsval) (l : list jsval) : Prop :=
  exists props text fields,
    item = JObj props /\
    assoc "publish_info" props = Some (JStr text) /\
    JSON_parse env (JStr text) = Some (JObj fields) /\
    assoc "appmsgex" fields = Some (JArr l).

(** ** Notions used in the statements about the values of the publish list *)

(** [v] is what the text that [item] holds as its [publish_info] has as
    its [appmsgex]: the value of the member, or [undefined] when the object
    the text stands for has no such member. *)
Definition inner_value (env : Env) (item v : jsval) : Prop :=
  exists props text fields,
    item = JObj props /\
    assoc "publish_info" props = Some (JStr text) /\
    JSON_parse env (JStr text) = Some (JObj fields) /\
    v = default JUndefined (assoc "appmsgex" fields).

(** ** A reference environment

    The examples run in concrete environments.  They read JSON with the
    parser below, which follows the JSON grammar, and serialise the small
    documents they use with [serialize]. *)

Module Reference.

Definition is_ws (c : ascii) : bool :=
  bool_decide (c ∈ [" "; "009"; "010"; "013"]%char).

Fixpoint skip_ws (s : string) : string :=
  match s with
  | String c r => if is_ws c then skip_ws r else s
  | EmptyString => s
  end.

Definition digit (c : ascii) : option Z :=
  let n := nat_of_ascii c in
  if ((48 <=? n) && (n <=? 57))%nat%bool then Some (Z.of_nat n - 48) else None.

Definition hex (c : ascii) : option Z :=
  let n := nat_of_ascii c in
  if ((48 <=? n) && (n <=? 57))%nat%bool then Some (Z.of_nat n - 48)
  else if ((65 <=? n) && (n <=? 70))%nat%bool then Some (Z.of_nat n - 55)
  else if ((97 <=? n) && (n <=? 102))%nat%bool then Some (Z.of_nat n - 87)
  else None.

(** The digits at the start of [s]: their value after [acc], their number,
    and the rest. *)
Fixpoint digits (s : string) (acc : Z) (count : nat) : Z * nat * string :=
  match s with
  | String c r =>
      match digit c with
      | Some d => digits r (10 * acc + d) (S count)
      | None => (acc, count, s)
      end
  | EmptyString => (acc, count, s)
  end.

(** A number: an optional minus sign, an integer part without a leading
    zero, an optional fraction and an optional exponent; it is kept at its
    exact decimal value. *)
Definition number (s : string) : option (jsval * string) :=
  let '(negative, s) :=
    match s with
    | String "-" r => (true, r)
    | _ => (false, s)
    end in
  let '(int, n, s1) := digits s 0 0 in
  if (n =? 0)%nat then None
  else if ((1 <? n)%nat && bool_decide (strip_prefix "0" s ≠ None))%bool then None
  else
    let frac :=
      match s1 with
      | String "." r =>
          let '(m, k, s2) := digits r int 0 in
          if (k =? 0)%nat then None else Some (m, Z.of_nat k, s2)
      | _ => Some (int, 0, s1)
      end in
    match frac with
    | None => None
    | Some (m, k, s2) =>
        let expo :=
          match s2 with
          | String c r =>
              if bool_decide (c ∈ ["e"; "E"]%char) then
                let '(sign, r) :=
                  match r with
                  | String "-" r' => (-1, r')
                  | String "+" r' => (1, r')
                  | _ => (1, r)
                  end in
                let '(e, j, s3) := digits r 0 0 in
                if (j =? 0)%nat then None else Some (sign * e, s3)
              else Some (0, s2)
          | EmptyString => Some (0, s2)
          end in
        match expo with
        | None => None
        | Some (e, s3) =>
            let m := if negative : bool then - m else m in
            let x := if 0 <=? e - k then Qmake (m * 10 ^ (e - k)) 1
                     else Qmake m (Z.to_pos (10 ^ (k - e))) in
            Some (JNum x, s3)
        end
    end.

Definition byte (n : Z) : ascii := ascii_of_nat (Z.to_nat n).

(** The UTF-8 encoding of a code point (of a lone surrogate too). *)
Definition utf8 (cp : Z) : string :=
  if cp <? 128 then String (byte cp) EmptyString
  else if cp <? 2048 then
    String (byte (192 + cp / 64)) (String (byte (128 + cp mod 64)) EmptyString)
  else if cp <? 65536 then
    String (byte (224 + cp / 4096))
      (String (byte (128 + (cp / 64) mod 64))
         (String (byte (128 + cp mod 64)) EmptyString))
  else
    String (byte (240 + cp / 262144))
      (String (byte (128 + (cp / 4096) mod 64))
         (String (byte (128 + (cp / 64) mod 64))
            (String (byte (128 + cp mod 64)) EmptyString))).

(** Four hexadecimal digits. *)
Definition hex4 (s : string) : option (Z * string) :=
  match s with
  | String a (String b (String c (String d r))) =>
      match hex a, hex b, hex c, hex d with
      | Some x, Some y, Some z, Some t => Some (4096 * x + 256 * y + 16 * z + t, r)
      | _, _, _, _ => None
      end
  | _ => None
  end.

(** The characters of a string up to its closing quote. *)
Fixpoint chars (fuel : nat) (s : string) : option (string * string) :=
  match fuel with
  | O => None
  | S fuel' =>
      match s with
      | EmptyString => None
      | String "034" r => Some (EmptyString, r)
      | String "\" (String c r) =>
          let simple (x : ascii) :=
            '(t, rest) ← chars fuel' r; Some (String x t, rest) in
          if Ascii.eqb c "u" then
            '(hi, r1) ← hex4 r;
            let pair :=
              if ((55296 <=? hi) && (hi <=? 56319))%bool then
                match r1 with
                | String "\" (String "u" r2) =>
                    '(lo, r3) ← hex4 r2;
                    if ((56320 <=? lo) && (lo <=? 57343))%bool
                    then Some (65536 + (hi - 55296) * 1024 + (lo - 56320), r3)
                    else None
                | _ => None
                end
              else None in
            let '(cp, r4) := default (hi, r1) pair in
            '(t, rest) ← chars fuel' r4; Some (utf8 cp +:+ t, rest)
          else if Ascii.eqb c "034" then simple "034"%char
          else if Ascii.eqb c "\" then simple "\"%char
          else if Ascii.eqb c "/" then simple "/"%char
          else if Ascii.eqb c "b" then simple "008"%char
          else if Ascii.eqb c "f" then simple "012"%char
          else if Ascii.eqb c "n" then simple "010"%char
          else if Ascii.eqb c "r" then simple "013"%char
          else if Ascii.eqb c "t" then simple "009"%char
          else None
      | String c r =>
          if (nat_of_ascii c <? 32)%nat then None
          else '(t, rest) ← chars fuel' r; Some (String c t, rest)
      end
  end.

Definition text (s : string) : option (string * string) :=
  chars (S (String.length s)) s.

(** A repeated key keeps its place and takes the last value. *)
Fixpoint define (k : string) (v : jsval) (props : list (string * jsval))
  : list (string * jsval) :=
  match props with
  | [] => [(k, v)]
  | (k', v') :: r =>
      if String.eqb k k' then (k', v) :: r else (k', v') :: define k v r
  end.

Fixpoint value (fuel : nat) (s : string) : option (jsval * string) :=
  match fuel with
  | O => None
  | S fuel' =>
      match skip_ws s with
      | String "n" _ => r ← strip_prefix "null" (skip_ws s); Some (JNull, r)
      | String "t" _ => r ← strip_prefix "true" (skip_ws s); Some (JBool true, r)
      | String "f" _ => r ← strip_prefix "false" (skip_ws s); Some (JBool false, r)
      | String "034" r => '(t, rest) ← text r; Some (JStr t, rest)
      | String "[" r =>
          match skip_ws r with
          | String "]" rest => Some (JArr [], rest)
          | _ => '(l, rest) ← elements fuel' r; Some (JArr l, rest)
          end
      | String "{" r =>
          match skip_ws r with
          | String "}" rest => Some (JObj [], rest)
          | _ => '(l, rest) ← members fuel' r []; Some (JObj l, rest)
          end
      | other => number other
      end
  end
with elements (fuel : nat) (s : string) : option (list jsval * string) :=
  match fuel with
  | O => None
  | S fuel' =>
      '(v, r) ← value fuel' s;
      match skip_ws r with
      | String "," r' => '(l, rest) ← elements fuel' r'; Some (v :: l, rest)
      | String "]" rest => Some ([v], rest)
      | _ => None
      end
  end
with members (fuel : nat) (s : string) (acc : list (string * jsval))
  : option (list (string * jsval) * string) :=
  match fuel with
  | O => None
  | S fuel' =>
      match skip_ws s with
      | String "034" r =>
          '(k, r1) ← text r;
          match skip_ws r1 with
          | String ":" r2 =>
              '(v, r3) ← value fuel' r2;
              match skip_ws r3 with
              | String "," r4 => members fuel' r4 (define k v acc)
              | String "}" rest => Some (define k v acc, rest)
              | _ => None
              end
          | _ => None
          end
      | _ => None
      end
  end.

(** A whole JSON text. *)
Definition json (s : string) : option jsval :=
  '(v, r) ← value (2 * String.length s + 2) s;
  if is_empty (skip_ws r) then Some v else None.

(** [JSON.parse] converts its argument to a string first.  A number, a
    boolean and [null] print to a text that reads back as themselves;
    [undefined], an infinity and an object print to no JSON text.  (An
    array prints as the join of its elements; that conversion is left out
    here and arrays are rejected.) *)
Definition JSON_parse (v : jsval) : option jsval :=
  match v with
  | JStr s => json s
  | JNum _ | JBool _ | JNull => Some v
  | JUndefined | JInfinity _ | JObj _ | JArr _ => None
  end.

(** HTML serialisation of the documents of the examples: elements with
    their attributes and children, text, comments; no end tag for the void
    elements. *)
Fixpoint escape (in_attribute : bool) (s : string) : string :=
  match s with
  | EmptyString => EmptyString
  | String c r =>
      (if Ascii.eqb c "&" then "&amp;"
       else if (in_attribute && Ascii.eqb c "034")%bool then "&quot;"
       else if (negb in_attribute && Ascii.eqb c "<")%bool then "&lt;"
       else if (negb in_attribute && Ascii.eqb c ">")%bool then "&gt;"
       else String c EmptyString) +:+ escape in_attribute r
  end.

Definition void (tag : string) : bool :=
  bool_decide (tag ∈ ["area"; "base"; "br"; "col"; "embed"; "hr"; "img";
                      "input"; "link"; "meta"; "source"; "track"; "wbr"]).

Definition serialize_attrs (attrs : list (string * string)) : string :=
  fold_right (fun '(k, v) out =>
                " " +:+ k +:+ js "='" +:+ escape true v +:+ js "'" +:+ out)
             EmptyString attrs.

Fixpoint serialize (n : node) : string :=
  match n with
  | Text data => escape false data
  | Comment data => "<!--" +:+ data +:+ "-->"
  | Element tag attrs c =>
      "<" +:+ tag +:+ serialize_attrs attrs +:+ ">" +:+
      (if void tag then EmptyString
       else fold_right (fun x out => serialize x +:+ out) EmptyString c
            +:+ "</" +:+ tag +:+ ">")
  end.

(** The extensions [mime] gives for the types of the examples. *)
Definition getExtension (type : string) : option string :=
  assoc type [("image/png", "png"); ("image/jpeg", "jpeg");
              ("image/gif", "gif"); ("image/webp", "webp");
              ("image/svg+xml", "svg")].

(** What the parser gives for the empty text (a quirks document). *)
Definition blank : document :=
  mkDocument true (Element "html" [] [Element "head" [] []; Element "body" [] []]).

End Reference.

(** ** Environments of the examples *)

Module Example.

Definition lookup_or {A : Type} (k : string) (l : list (string * A))
  : fetched A :=
  match assoc k l with
  | Some a => Fetched a
  | None => Rejected "404"
  end.

(** An environment that serves the given texts and blobs, answers the
    listing request with [listing], and knows the documents [pages] (any
    other text is taken to be the empty one).  URLs are absolute and
    resolve to themselves. *)
Definition env (texts : list (string * string)) (blobs : list (string * Blob))
    (listing : fetched AppMsgPublishResponse)
    (pages : list (string * document))
    (clock : nat -> Z) (random : nat -> string) : Env :=
  mkEnv (fun url => lookup_or url texts)
        (fun url => lookup_or url blobs)
        (fun _ _ => listing)
        (fun html => default Reference.blank (assoc html pages))
        Reference.serialize
        (fun url => url)
        Reference.JSON_parse
        Reference.getExtension
        clock random.

Definition ticking (k : nat) : Z := 1700000000000 + Z.of_nat k.
Definition half (k : nat) : string := "0.5".

(** Only the listing endpoint matters. *)
Definition listing_env (resp : AppMsgPublishResponse) : Env :=
  env [] [] (Fetched resp) [] ticking half.

Definition start : World := mkWorld [] [] 0.

(** A page of two entries with publish info, one with an empty one and one
    without. *)
Definition two_entries : AppMsgPublishResponse :=
  mkResponse (mkBaseResp 0 "ok")
    (js "{'publish_list':[{'publish_info':'{\'appmsgex\':[{\'aid\':\'1\'},{\'aid\':\'2\'}]}'},{'publish_info':''},{},{'publish_info':'{\'appmsgex\':[{\'aid\':\'3\'}]}'}]}").

Definition expired : AppMsgPublishResponse :=
  mkResponse (mkBaseResp 200003 "invalid session") EmptyString.

Definition mimic : AppMsgPublishResponse :=
  mkResponse (mkBaseResp 200013 "session expired") EmptyString.

Definition throttled : AppMsgPublishResponse :=
  mkResponse (mkBaseResp 200013 "freq control") EmptyString.

Definition garbled : AppMsgPublishResponse :=
  mkResponse (mkBaseResp 0 "ok") "<html>502 Bad Gateway</html>".

Definition shapeless : AppMsgPublishResponse :=
  mkResponse (mkBaseResp 0 "ok") "{}".

(** A page of three entries: the [appmsgex] of the first is a list that
    holds a list, the second has none, that of the third is no list. *)
Definition uneven : AppMsgPublishResponse :=
  mkResponse (mkBaseResp 0 "ok")
    (js "{'publish_list':[{'publish_info':'{\'appmsgex\':[[\'a\'],\'b\']}'},{'publish_info':'{}'},{'publish_info':'{\'appmsgex\':\'c\'}'}]}").

(** An article: a style sheet in the head; in the content container, the
    hidden [#js_content] with two sections that share one background image
    and two images, a script and the bottom area. *)
Definition article_html : string :=
  js "<!DOCTYPE html><html><head><link rel='stylesheet' href='https://res.example/a.css'></head><body><div id='page-content'><div id='js_content' style='visibility: hidden;'><section style='background-image: url(&quot;https://img.example/bg.png&quot;);'><img src='https://img.example/1.png'><img src='https://img.example/2.png'></section><section style='background-image: url(&quot;https://img.example/bg.png&quot;);'></section></div><script>var a = 1;</script><div id='content_bottom_area'></div></div></body></html>".

Definition bg_style : string :=
  js "background-image: url('https://img.example/bg.png');".

Definition article : document :=
  mkDocument false
    (Element "html" []
       [Element "head" []
          [Element "link" [("rel", "stylesheet"); ("href", "https://res.example/a.css")] []];
        Element "body" []
          [Element "div" [("id", "page-content")]
             [Element "div" [("id", "js_content"); ("style", "visibility: hidden;")]
                [Element "section" [("style", bg_style)]
                   [Element "img" [("src", "https://img.example/1.png")] [];
                    Element "img" [("src", "https://img.example/2.png")] []];
                 Element "section" [("style", bg_style)] []];
              Element "script" [] [Text "var a = 1;"];
              Element "div" [("id", "content_bottom_area")] []]]]).

(** What a failed download looks like: a page without the container. *)
Definition error_html : string :=
  "<!DOCTYPE html><html><head></head><body><p>Not Found</p></body></html>".

Definition error_page : document :=
  mkDocument false
    (Element "html" []
       [Element "head" [] [];
        Element "body" [] [Element "p" [] [Text "Not Found"]]]).

(** A gallery: three images, nothing else. *)
Definition gallery_html : string :=
  js "<!DOCTYPE html><html><head></head><body><div id='page-content'><img src='https://img.example/1.png'><img src='https://img.example/2.png'><img src='https://img.example/3.png'></div></body></html>".

Definition gallery_content : node :=
  Element "div" [("id", "page-content")]
    [Element "img" [("src", "https://img.example/1.png")] [];
     Element "img" [("src", "https://img.example/2.png")] [];
     Element "img" [("src", "https://img.example/3.png")] []].

Definition gallery : document :=
  mkDocument false
    (Element "html" []
       [Element "head" [] []; Element "body" [] [gallery_content]]).

(** An article that ends with the bottom area, which holds an image of its
    own. *)
Definition footer_html : string :=
  js "<!DOCTYPE html><html><head></head><body><div id='page-content'><img src='https://img.example/3.png'><div id='content_bottom_area'><img src='https://img.example/1.png'></div></div></body></html>".

Definition footer_content : node :=
  Element "div" [("id", "page-content")]
    [Element "img" [("src", "https://img.example/3.png")] [];
     Element "div" [("id", "content_bottom_area")]
       [Element "img" [("src", "https://img.example/1.png")] []]].

Definition footer : document :=
  mkDocument false
    (Element "html" []
       [Element "head" [] []; Element "body" [] [footer_content]]).

(** A banner: one picture, shown as an image and as the background of two
    sections. *)
Definition banner_html : string :=
  js "<!DOCTYPE html><html><head></head><body><div id='page-content'><img src='https://img.example/bg.png'><section style='background-image: url(&quot;https://img.example/bg.png&quot;);'></section><section style='background-image: url(&quot;https://img.example/bg.png&quot;);'></section></div></body></html>".

Definition banner_content : node :=
  Element "div" [("id", "page-content")]
    [Element "img" [("src", "https://img.example/bg.png")] [];
     Element "section" [("style", bg_style)] [];
     Element "section" [("style", bg_style)] []].

Definition banner : document :=
  mkDocument false
    (Element "html" []
       [Element "head" [] []; Element "body" [] [banner_content]]).

Definition png (data : string) : Blob := mkBlob "image/png" data.

(** The network of the examples: the first and the third image, the
    background image and the style sheet can be fetched, the second image
    cannot. *)
Definition web (clock : nat -> Z) (random : nat -> string) : Env :=
  env [("https://res.example/a.css", "body{margin:0}");
       ("/api/download?url=https%3A%2F%2Fmp.example%2Fs%2F1", article_html);
       ("/api/download?url=https%3A%2F%2Fmp.example%2Fs%2F404", error_html)]
      [("https://img.example/1.png", png "one");
       ("https://img.example/3.png", png "three");
       ("https://img.example/bg.png", png "background")]
      (Rejected "404")
      [(article_html, article); (error_html, error_page);
       (gallery_html, gallery); (banner_html, banner);
       (footer_html, footer)]
      clock random.

(** A clock that stands still: with [half], every generated name is the
    same. *)
Definition frozen (k : nat) : Z := 1700000000000.

(** Whether a call succeeded, and the archive of one that did. *)
Definition succeeded (r : result JSZip * World) : bool :=
  match r.1 with
  | Ok _ => true
  | Throw _ => false
  end.

Definition archive (r : result JSZip * World) : JSZip :=
  match r.1 with
  | Ok zip => zip
  | Throw _ => ∅
  end.

(** The gallery packed after the article, with a running clock. *)
Abbreviation first_call :=
  (packHTMLAssets (web ticking half) article_html None start).

Abbreviation second_call :=
  (packHTMLAssets (web ticking half) gallery_html (Some (archive first_call))
                  first_call.2).

(** The article packed after the gallery, with the clock frozen. *)
Abbreviation first_frozen :=
  (packHTMLAssets (web frozen half) gallery_html None start).

Abbreviation second_frozen :=
  (packHTMLAssets (web frozen half) article_html (Some (archive first_frozen))
                  first_frozen.2).

End Example.

(** * Properties *)

(** ** The DOM *)

Lemma first_in_unfold p n :
  first_in p n = if p n then Some n else first_of p (childNodes n).
Proof. destruct n; simpl; reflexivity. Qed.

Lemma first_of_cons p x r :
  first_of p (x :: r)
  = match first_in p x with Some y => Some y | None => first_of p r end.
Proof. reflexivity. Qed.

(** [querySelector] finds the first node, in tree order, that the selector
    matches. *)
Lemma first_in_nodes p n :
  first_in p n = head (List.filter p (nodes n)).
Proof.
  induction n as [t a c IH| |] using node_induction;
    rewrite first_in_unfold; simpl; destruct (p _); try reflexivity.
  induction IH as [|x r Hx _ IHr]; [reflexivity|].
  rewrite first_of_cons, Hx. simpl. rewrite List.filter_app.
  destruct (List.filter p (nodes x)); simpl; [exact IHr|reflexivity].
Qed.

Lemma first_in_None p n :
  first_in p n = None <-> Forall (fun x => p x = false) (nodes n).
Proof.
  rewrite first_in_nodes. generalize (nodes n). intros l.
  induction l as [|x l IH]; simpl.
  - split; [constructor|reflexivity].
  - destruct (p x) eqn:Hx; simpl.
    + split; [discriminate|]. inversion 1; congruence.
    + rewrite IH. split; [by constructor|by inversion 1].
Qed.


Lemma rewrite_of_cons p f x r :
  rewrite_of p f (x :: r)
  = match rewrite_in p f x with
    | Some x' => Some (x' ++ r)%list
    | None => option_map (cons x) (rewrite_of p f r)
    end.
Proof. reflexivity. Qed.

Lemma rewrite_in_unfold p f n :
  rewrite_in p f n
  = if p n then Some (f n)
    else match n with
         | Element t a c =>
             match rewrite_of p f c with
             | Some c' => Some [Element t a c']
             | None => None
             end
         | _ => None
         end.
Proof. destruct n; reflexivity. Qed.

(** A rewriting step changes something exactly when [querySelector] finds
    an element. *)
Lemma rewrite_in_None p f n :
  rewrite_in p f n = None <-> first_in p n = None.
Proof.
  induction n as [t a c IH| |] using node_induction;
    rewrite rewrite_in_unfold, first_in_unfold; destruct (p _); try done.
  simpl.
  assert (rewrite_of p f c = None <-> first_of p c = None) as Hc.
  { induction IH as [|x r Hx _ IHr]; [done|].
    rewrite rewrite_of_cons, first_of_cons.
    destruct (rewrite_in p f x) eqn:E1, (first_in p x) eqn:E2; try done.
    - destruct Hx as [_ Hx]. by specialize (Hx eq_refl).
    - destruct Hx as [Hx _]. by specialize (Hx eq_refl).
    - destruct (rewrite_of p f r); simpl; [|tauto].
      split; [discriminate|]. intros H. apply IHr in H. discriminate. }
  destruct (rewrite_of p f c); [|tauto].
  split; [discriminate|]. intros H. apply Hc in H. discriminate.
Qed.

Lemma remove_first_nothing sel el :
  querySelector sel el = None -> remove_first sel el = el.
Proof.
  unfold querySelector, remove_first. destruct el as [t a c| |]; try done.
  simpl. intros H.
  assert (rewrite_of sel (fun _ => []) c = None) as ->; [|done].
  induction c as [|x r IH]; [done|].
  rewrite first_of_cons in H. rewrite rewrite_of_cons.
  destruct (first_in sel x) eqn:E; [discriminate|].
  apply (rewrite_in_None sel (fun _ => [])) in E. rewrite E.
  by rewrite IH.
Qed.

(** *** Attributes at positions *)

Lemma assoc_set_attr_eq name value attrs :
  assoc name (set_attr name value attrs) = Some value.
Proof.
  induction attrs as [|[k v] r IH]; simpl.
  - by rewrite String.eqb_refl.
  - destruct (String.eqb name k) eqn:E; simpl; rewrite E; [reflexivity|exact IH].
Qed.

Lemma assoc_set_attr_ne name name' value attrs :
  name <> name' ->
  assoc name (set_attr name' value attrs) = assoc name attrs.
Proof.
  intros Hne. induction attrs as [|[k v] r IH]; simpl.
  - apply String.eqb_neq in Hne. by rewrite Hne.
  - destruct (String.eqb name' k) eqn:E; simpl.
    + apply String.eqb_eq in E. subst k.
      apply String.eqb_neq in Hne. by rewrite Hne.
    + by rewrite IH.
Qed.

Lemma childNodes_setAttribute name value n :
  childNodes (setAttribute name value n) = childNodes n.
Proof. by destruct n. Qed.

(** Setting an attribute at one position leaves the attributes at every
    other position as they were. *)
Lemma attr_at_alter_ne name name' value pos pos' n :
  pos <> pos' ->
  attr_at name pos (alter_at (setAttribute name' value) pos' n)
  = attr_at name pos n.
Proof.
  unfold attr_at. revert pos n.
  induction pos' as [|i' q' IH]; intros [|i q] n Hne; try done.
  - simpl. by rewrite childNodes_setAttribute.
  - destruct n; reflexivity.
  - destruct n as [t a c| |]; try reflexivity. simpl.
    destruct (decide (i = i')) as [->|Hi].
    + rewrite list_lookup_alter_eq.
      destruct (c !! i') as [x|]; simpl; [|reflexivity].
      apply IH. congruence.
    + by rewrite list_lookup_alter_ne.
Qed.

(** Setting an attribute where there is an element sets it. *)
Lemma attr_at_alter_eq name value pos n :
  is_Some (attr_at name pos n) ->
  attr_at name pos (alter_at (setAttribute name value) pos n) = Some value.
Proof.
  unfold attr_at. revert n.
  induction pos as [|i q IH]; intros n [v Hv]; simpl in *.
  - destruct n; try discriminate. simpl. apply assoc_set_attr_eq.
  - destruct n as [t a c| |]; try discriminate. simpl in *.
    rewrite list_lookup_alter_eq.
    destruct (c !! i) as [x|]; simpl in *; [|discriminate].
    apply IH. by exists v.
Qed.

(** Every position leads below the node, through a child. *)
Lemma positions_of_head (p : node -> bool) j l q :
  q ∈ (fix positions_of (i : nat) (l : list node) : list (list nat) :=
         match l with
         | [] => []
         | x :: r => ((if p x then [[i]] else []) ++ map (cons i) (positions p x)
                      ++ positions_of (S i) r)%list
         end) j l ->
  exists k q', q = k :: q' /\ (j <= k)%nat.
Proof.
  revert j. induction l as [|x r IH]; intros j Hq.
  - by apply elem_of_nil in Hq.
  - rewrite !elem_of_app in Hq. destruct Hq as [Hq|[Hq|Hq]].
    + destruct (p x); [|by apply elem_of_nil in Hq].
      apply list_elem_of_singleton in Hq. subst. by exists j, [].
    + apply list_elem_of_fmap in Hq. destruct Hq as (q' & -> & _). by exists j, q'.
    + apply IH in Hq. destruct Hq as (k & q' & -> & Hk).
      exists k, q'. split; [done|lia].
Qed.

Lemma positions_nonempty p n : [] ∉ positions p n.
Proof.
  destruct n; simpl; try apply not_elem_of_nil.
  intros H. apply positions_of_head in H. by destruct H as (k & q' & ? & _).
Qed.

(** The positions a search gives are pairwise different. *)
Lemma positions_NoDup p n : NoDup (positions p n).
Proof.
  induction n as [t a c IH| |] using node_induction; simpl; try constructor.
  generalize 0%nat.
  induction IH as [|x r Hx _ IHr]; intros i; [constructor|].
  apply NoDup_app. split; [|split].
  - destruct (p x); constructor; [apply not_elem_of_nil|constructor].
  - intros q Hq Hq'. destruct (p x); [|by apply elem_of_nil in Hq].
    apply list_elem_of_singleton in Hq. subst.
    rewrite elem_of_app in Hq'. destruct Hq' as [Hq'|Hq'].
    + apply list_elem_of_fmap in Hq'. destruct Hq' as (q' & [= <-] & Hq').
      by apply positions_nonempty in Hq'.
    + apply positions_of_head in Hq'. destruct Hq' as (k & q' & [= <- <-] & Hk). lia.
  - apply NoDup_app. split; [|split].
    + apply NoDup_fmap_2; [|exact Hx]. intros ?? [= ->]. reflexivity.
    + intros q Hq Hq'. apply list_elem_of_fmap in Hq. destruct Hq as (q0 & -> & _).
      apply positions_of_head in Hq'. destruct Hq' as (k & q' & [= <- <-] & Hk). lia.
    + apply IHr.
Qed.

(** ** [downloadArticleHTML] *)

Section Download.

Variable env : Env.
Variables (articleURL : string).

Lemma downloadArticleHTML_fetched title w fullHTML :
  fetch_text env ("/api/download?url=" +:+ encodeURIComponent articleURL)
    = Fetched fullHTML ->
  (downloadArticleHTML env articleURL title w).1
  = match page_content (parseFromString env fullHTML) with
    | None => Throw (Error "下载失败，请重试")
    | Some _ => Ok fullHTML
    end.
Proof.
  intros H. unfold downloadArticleHTML, fetch_string, mbind, M_bind, sent.
  rewrite H. simpl.
  destruct (page_content (parseFromString env fullHTML)); [reflexivity|].
  destruct title as [t|]; [destruct (is_empty t)|]; reflexivity.
Qed.

(** C4. Once the page is fetched, the call fails with the error
    [download failed, retry] exactly when no element of the parsed document
    is selected by [#page-content]; otherwise it returns the fetched text
    as it is. *)
Theorem downloadArticleHTML_checks_container title w fullHTML :
  fetch_text env ("/api/download?url=" +:+ encodeURIComponent articleURL)
    = Fetched fullHTML ->
  let d := parseFromString env fullHTML in
  let missing :=
    Forall (fun n => has_id (quirks d) "page-content" n = false)
           (nodes (documentElement d)) in
  ((downloadArticleHTML env articleURL title w).1
     = Throw (Error "下载失败，请重试") <-> missing) /\
  (~ missing -> (downloadArticleHTML env articleURL title w).1 = Ok fullHTML).
Proof.
  intros H d missing. rewrite (downloadArticleHTML_fetched _ _ _ H).
  subst missing. rewrite <- first_in_None.
  change (first_in _ _) with (page_content d). subst d.
  destruct (page_content (parseFromString env fullHTML)).
  - split; [split; discriminate|reflexivity].
  - split; [split; reflexivity|]. intros Hn. by destruct Hn.
Qed.

(** C9. The title changes nothing but the console: with any two titles,
    given or not, the call has the same result and leaves the same requests
    and clock readings behind. *)
Theorem downloadArticleHTML_title_only_logged title title' w :
  (downloadArticleHTML env articleURL title w).1
    = (downloadArticleHTML env articleURL title' w).1 /\
  network (downloadArticleHTML env articleURL title w).2
    = network (downloadArticleHTML env articleURL title' w).2 /\
  readings (downloadArticleHTML env articleURL title w).2
    = readings (downloadArticleHTML env articleURL title' w).2.
Proof.
  unfold downloadArticleHTML, fetch_string, mbind, M_bind, sent.
  destruct (fetch_text env _) as [html|reason]; simpl; [|done].
  destruct (page_content (parseFromString env html)); [done|].
  destruct title as [t|], title' as [t'|];
    try destruct (is_empty t); try destruct (is_empty t'); done.
Qed.

End Download.

(** ** [packHTMLAssets] *)

Section Pack.

Variable env : Env.

(** C5. When no element of the parsed document is selected by
    [#page-content], the call raises a [TypeError] and does nothing else:
    nothing is requested, nothing is logged and no archive is returned. *)
Theorem packHTMLAssets_without_container html zip w :
  (let d := parseFromString env html in
   Forall (fun n => has_id (quirks d) "page-content" n = false)
          (nodes (documentElement d))) ->
  packHTMLAssets env html zip w = (Throw TypeError, w).
Proof.
  simpl. rewrite <- first_in_None. intros H.
  unfold packHTMLAssets, page_content, document_querySelector. by rewrite H.
Qed.

End Pack.

(** ** The archive *)

Lemma writes_app ops ops' (zip : JSZip) :
  writes (ops ++ ops') zip = writes ops' (writes ops zip).
Proof. apply foldl_app. Qed.

Lemma writes_lookup_other ops (zip : JSZip) name :
  name ∉ map fst ops -> writes ops zip !! name = zip !! name.
Proof.
  revert zip. induction ops as [|[n e] ops IH]; intros zip Hn; [reflexivity|].
  simpl in *. apply not_elem_of_cons in Hn as [Hne Hn].
  rewrite (IH _ Hn). by apply lookup_insert_ne.
Qed.

Lemma writes_lookup ops (zip : JSZip) name e :
  NoDup (map fst ops) -> (name, e) ∈ ops -> writes ops zip !! name = Some e.
Proof.
  revert zip. induction ops as [|[n e'] ops IH]; intros zip Hnd Hin.
  - by apply elem_of_nil in Hin.
  - simpl in *. apply NoDup_cons in Hnd as [Hn Hnd].
    apply elem_of_cons in Hin as [[= -> ->]|Hin].
    + rewrite (writes_lookup_other _ _ _ Hn). apply lookup_insert_eq.
    + by apply IH.
Qed.

Lemma writes_is_Some ops (zip : JSZip) name :
  name ∈ map fst ops -> is_Some (writes ops zip !! name).
Proof.
  revert zip. induction ops as [|[n e] ops IH]; intros zip Hin.
  - by apply elem_of_nil in Hin.
  - simpl in *. destruct (decide (name ∈ map fst ops)) as [H|H]; [by apply IH|].
    apply elem_of_cons in Hin as [->|Hin]; [|done].
    rewrite (writes_lookup_other _ _ _ H), lookup_insert_eq. by eexists.
Qed.

(** ** The loop over the images *)

Section Images.

Variable env : Env.

Lemma image_source_attr pc img :
  image_source env pc img
  = match attr_at "src" img pc with
    | Some v => reflect_url env v
    | None => EmptyString
    end.
Proof. reflexivity. Qed.

Lemma download_image_empty pc (zip : JSZip) img w :
  is_empty (image_source env pc img) = true ->
  download_image env (pc, zip) img w
  = (Ok (pc, zip), logged (console_warn ["img元素的src为空"]) w).
Proof.
  intros H. unfold download_image. fold (image_source env pc img).
  by rewrite H.
Qed.

Lemma download_image_rejected pc img w reason :
  is_empty (image_source env pc img) = false ->
  fetch_blob env (image_source env pc img) = Rejected reason ->
  exists w', readings w' = readings w /\
    forall zip : JSZip,
      download_image env (pc, zip) img w = (Ok (pc, zip), w').
Proof.
  intros H Hf. eexists. split; [|intros zip'].
  2: { unfold download_image. fold (image_source env pc img). rewrite H.
       unfold try_catch, fetch_Blob, mbind, M_bind, sent. rewrite Hf. simpl.
       reflexivity. }
  reflexivity.
Qed.

Lemma download_image_fetched pc img w b :
  is_empty (image_source env pc img) = false ->
  fetch_blob env (image_source env pc img) = Fetched b ->
  let name := asset_name env (readings w) (blob_ext env b) in
  exists w', readings w' = S (readings w) /\
    forall zip : JSZip, download_image env (pc, zip) img w
    = (Ok (alter_at (setAttribute "src" ("./" +:+ name)) img pc,
           <[name := File (BlobData b)]> zip), w').
Proof.
  intros H Hf name. eexists. split; [|intros zip'].
  2: { unfold download_image. fold (image_source env pc img). rewrite H.
       unfold try_catch, fetch_Blob, mbind, M_bind, sent. rewrite Hf. simpl.
       reflexivity. }
  reflexivity.
Qed.

Lemma for_of_cons {A S : Type} (body : S -> A -> M S) x l st w :
  for_of body (x :: l) st w
  = match body st x w with
    | (Ok st', w') => for_of body l st' w'
    | (Throw e, w') => (Throw e, w')
    end.
Proof. reflexivity. Qed.

Lemma image_source_alter pc img value q :
  q <> img ->
  image_source env (alter_at (setAttribute "src" value) img pc) q
  = image_source env pc q.
Proof.
  intros Hne. rewrite !image_source_attr. by rewrite attr_at_alter_ne.
Qed.

Lemma fetchable_image_alter pc img value l :
  img ∉ l ->
  List.filter (fetchable_image env (alter_at (setAttribute "src" value) img pc)) l
  = List.filter (fetchable_image env pc) l.
Proof.
  intros Hnot. apply List.filter_ext_in. intros q Hq.
  unfold fetchable_image. rewrite image_source_alter; [reflexivity|].
  intros ->. by apply Hnot, list_elem_of_In.
Qed.

(** What the loop does: the images it stores, in order, with the names it
    gives them; the attributes it sets; the entries it writes. *)
Lemma download_images_loop l : forall pc w,
  NoDup l ->
  exists pc' w' (stored : list (list nat * string * Blob)),
    map (fun s => s.1.1) stored = List.filter (fetchable_image env pc) l /\
    readings w' = (readings w + length stored)%nat /\
    (forall i img name b, stored !! i = Some (img, name, b) ->
       fetch_blob env (image_source env pc img) = Fetched b /\
       name = asset_name env (readings w + i) (blob_ext env b)) /\
    (forall img name b, (img, name, b) ∈ stored ->
       attr_at "src" img pc' = Some ("./" +:+ name)) /\
    (forall q, q ∉ map (fun s => s.1.1) stored ->
       attr_at "src" q pc' = attr_at "src" q pc) /\
    forall zip : JSZip,
      for_of (download_image env) l (pc, zip) w
      = (Ok (pc', writes (map image_entry stored) zip), w').
Proof.
  induction l as [|img l IH]; intros pc w Hnd.
  { exists pc, w, []. split_and!; try done; simpl; try lia.
    intros ??? H. by apply elem_of_nil in H. }
  apply NoDup_cons in Hnd as [Hnot Hnd]. simpl List.filter.
  unfold fetchable_image at 1.
  destruct (is_empty (image_source env pc img)) eqn:Hempty.
  { destruct (IH pc (logged (console_warn ["img元素的src为空"]) w) Hnd)
      as (pc' & w' & stored & H1 & H2 & H3 & H4 & H5 & H6).
    exists pc', w', stored. split_and!; try done.
    intros zip. rewrite for_of_cons, download_image_empty by done. apply H6. }
  destruct (fetch_blob env (image_source env pc img)) as [b|reason] eqn:Hf.
  2: { destruct (download_image_rejected pc img w reason Hempty Hf) as (w1 & Hr & Hrun).
       destruct (IH pc w1 Hnd) as (pc' & w' & stored & H1 & H2 & H3 & H4 & H5 & H6).
       exists pc', w', stored. rewrite Hr in *. split_and!; try done.
       intros zip. rewrite for_of_cons, Hrun. apply H6. }
  destruct (download_image_fetched pc img w b Hempty Hf) as (w1 & Hr & Hrun).
  set (name := asset_name env (readings w) (blob_ext env b)) in *.
  set (pc1 := alter_at (setAttribute "src" ("./" +:+ name)) img pc) in *.
  destruct (IH pc1 w1 Hnd) as (pc' & w' & stored & H1 & H2 & H3 & H4 & H5 & H6).
  assert (img ∉ map (fun s => s.1.1) stored) as Hfresh.
  { rewrite H1. intros H. apply list_elem_of_In, List.filter_In in H as [H _].
    by apply list_elem_of_In in H. }
  exists pc', w', ((img, name, b) :: stored). split_and!.
  - simpl. rewrite H1. subst pc1. by rewrite fetchable_image_alter.
  - rewrite H2, Hr. simpl. lia.
  - intros [|i] img' name' b' H; simpl in H.
    + injection H as <- <- <-. split; [done|]. by rewrite Nat.add_0_r.
    + pose proof (list_elem_of_lookup_2 _ _ _ H) as Hin.
      apply H3 in H as [Hb ->]. split.
      * subst pc1. rewrite image_source_alter in Hb; [done|].
        intros ->. apply Hfresh, list_elem_of_fmap. by eexists (_, _, _).
      * rewrite Hr. f_equal. lia.
  - intros img' name' b' Hin. apply elem_of_cons in Hin as [[= -> -> ->]|Hin].
    + rewrite (H5 _ Hfresh). subst pc1. apply attr_at_alter_eq.
      rewrite image_source_attr in Hempty.
      destruct (attr_at "src" img pc); [by eexists|discriminate].
    + by eapply H4.
  - intros q Hq. apply not_elem_of_cons in Hq as [Hne Hq].
    rewrite (H5 _ Hq). subst pc1. by apply attr_at_alter_ne.
  - intros zip. rewrite for_of_cons, Hrun. apply H6.
Qed.

End Images.

(** ** The matcher *)

Lemma append_cons a (s t : string) : String a s +:+ t = String a (s +:+ t).
Proof. reflexivity. Qed.

Lemma strip_prefix_Some t s s' : strip_prefix t s = Some s' -> s = t +:+ s'.
Proof.
  revert s. induction t as [|a t IH]; intros s; simpl.
  - by intros [= ->].
  - destruct s as [|b s]; [discriminate|].
    destruct (Ascii.eqb_spec a b) as [->|]; [|discriminate].
    intros H. by rewrite append_cons, (IH _ H).
Qed.

Lemma length_append_string pre s :
  String.length (pre +:+ s) = (String.length pre + String.length s)%nat.
Proof.
  induction pre as [|a pre IH]; [done|]. rewrite append_cons. simpl. by rewrite IH.
Qed.

Lemma substring_prefix pre s : substring 0 (String.length pre) (pre +:+ s) = pre.
Proof.
  induction pre as [|a pre IH]; [by destruct s|].
  rewrite append_cons. simpl. by rewrite IH.
Qed.

(** What is consumed in front of a suffix is the text in front of it. *)
Lemma consumed_app pre s : consumed (pre +:+ s) s = pre.
Proof.
  unfold consumed. rewrite length_append_string.
  replace (String.length pre + String.length s - String.length s)%nat
    with (String.length pre) by lia.
  apply substring_prefix.
Qed.

Lemma append_assoc_string (a b c : string) : (a +:+ b) +:+ c = a +:+ (b +:+ c).
Proof.
  induction a as [|x a IH]; [done|]. rewrite !append_cons. by rewrite IH.
Qed.

(** The continuation of a match is entered with a suffix of the text, and
    with the captures it was given when the expression has no group. *)
Lemma run_continues {R : Type} (r : regex) : forall s caps
    (k : string -> list string -> option R) res,
  run r s caps k = Some res ->
  exists pre s' caps',
    s = pre +:+ s' /\ k s' caps' = Some res /\
    (groupless r = true -> caps' = caps).
Proof.
  induction r as [t|c|r1 IH1 r2 IH2|r1 IH1 r2 IH2|r1 IH1|r1 IH1|r1 IH1];
    intros s caps k res; cbn [run].
  - destruct (strip_prefix t s) as [s'|] eqn:E; [|discriminate].
    intros H. exists t, s', caps. split_and!; [by apply strip_prefix_Some|done|done].
  - destruct s as [|a s']; [discriminate|].
    destruct (Ascii.eqb a c); [discriminate|].
    intros H. by exists (String a EmptyString), s', caps.
  - intros H. apply IH1 in H as (pre1 & s1 & caps1 & -> & H & Hc1).
    apply IH2 in H as (pre2 & s2 & caps2 & -> & H & Hc2).
    exists (pre1 +:+ pre2), s2, caps2. split_and!; [|done|].
    + by rewrite append_assoc_string.
    + intros [G1 G2]%andb_prop. rewrite Hc2, Hc1; done.
  - destruct (run r1 s caps k) as [x|] eqn:E.
    + intros [= <-]. apply IH1 in E as (pre & s' & caps' & -> & H & Hc).
      exists pre, s', caps'. split_and!; [done|done|].
      intros [G1 G2]%andb_prop. by apply Hc.
    + intros H. apply IH2 in H as (pre & s' & caps' & -> & H & Hc).
      exists pre, s', caps'. split_and!; [done|done|].
      intros [G1 G2]%andb_prop. by apply Hc.
  - destruct (run r1 s caps k) as [x|] eqn:E.
    + intros [= <-]. apply IH1 in E as (pre & s' & caps' & -> & H & Hc).
      by exists pre, s', caps'.
    + intros H. by exists EmptyString, s, caps.
  - generalize (S (String.length s)). intros fuel. revert s caps.
    induction fuel as [|fuel IHf]; intros s caps H; [discriminate H|].
    simpl in H. apply IH1 in H as (pre & s' & caps' & -> & H & Hc).
    destruct (String.length s' <? String.length (pre +:+ s'))%nat; [|discriminate].
    destruct (k s' caps') as [x|] eqn:E.
    + injection H as <-. by exists pre, s', caps'.
    + apply IHf in H as (pre2 & s2 & caps2 & -> & H & Hc2).
      exists (pre +:+ pre2), s2, caps2. split_and!; [|done|].
      * by rewrite append_assoc_string.
      * intros G. rewrite Hc2, Hc; done.
  - intros H. apply IH1 in H as (pre & s' & caps' & -> & H & _).
    exists pre, s', (caps' ++ [consumed (pre +:+ s') s'])%list.
    split_and!; [done|done|discriminate].
Qed.

Lemma after_append pre s : after (String.length pre) (pre +:+ s) = s.
Proof. induction pre as [|a pre IH]; [by destruct s|]. by rewrite append_cons. Qed.

(** The pieces of a text cover it, when no match is empty. *)
Lemma pieces_cover r :
  (forall s caps rest, exec_here r s = Some (caps, rest) ->
     exists a pre, s = String a pre +:+ rest) ->
  forall s skip, text_of (pieces r s skip) = after skip s.
Proof.
  intros Hmatch s. induction s as [|c s IH]; intros skip; [by destruct skip|].
  destruct skip as [|n]; simpl.
  2: { apply IH. }
  destruct (exec_here r (String c s)) as [[caps rest]|] eqn:E; simpl.
  - destruct (Hmatch _ _ _ E) as (a & pre & Hs).
    rewrite append_cons in Hs. injection Hs as <- ->.
    rewrite IH. rewrite <- append_cons, consumed_app.
    replace (S (String.length (pre +:+ rest)) - String.length rest - 1)%nat
      with (String.length pre) by (rewrite length_append_string; lia).
    by rewrite after_append.
  - by rewrite IH.
Qed.

Lemma strip_prefix_append a b s :
  strip_prefix a s = None -> strip_prefix (a +:+ b) s = None.
Proof.
  revert s. induction a as [|x a IH]; intros s; [discriminate|].
  rewrite append_cons. simpl. destruct s as [|y s]; [done|].
  destruct (Ascii.eqb x y); [apply IH|done].
Qed.

Lemma run_Alt {R : Type} r1 r2 s caps (k : string -> list string -> option R) res :
  run (Alt r1 r2) s caps k = Some res ->
  run r1 s caps k = Some res \/ run r2 s caps k = Some res.
Proof. cbn [run]. destruct (run r1 s caps k); [by left|by right]. Qed.

Lemma run_Lit {R : Type} t s caps (k : string -> list string -> option R) res :
  run (Lit t) s caps k = Some res ->
  exists s', s = t +:+ s' /\ k s' caps = Some res.
Proof.
  cbn [run]. destruct (strip_prefix t s) as [s'|] eqn:E; [|discriminate].
  intros H. exists s'. split; [by apply strip_prefix_Some|done].
Qed.

(** The first group consumes at least the word it starts with. *)
Lemma declaration_start_continues {R : Type} s caps
    (k : string -> list string -> option R) res :
  run declaration_start s caps k = Some res ->
  exists pre s', s = String "b" pre +:+ s' /\ k s' caps = Some res.
Proof.
  unfold declaration_start.
  change (run (Seq ?a ?b) s caps k)
    with (run a s caps (fun s' caps' => run b s' caps' k)).
  intros H. apply run_Alt in H as [H|H];
    apply run_Lit in H as (s0 & -> & H);
    apply run_continues in H as (pre & s' & caps' & -> & H & Hc);
    rewrite Hc in H by reflexivity.
  - exists ("ackground" +:+ pre), s'. split; [|done].
    by rewrite <- append_assoc_string.
  - exists ("ackground-image" +:+ pre), s'. split; [|done].
    by rewrite <- append_assoc_string.
Qed.

(** A match of the expression for background URLs: its three groups, one
    after the other, are the text it covers, which is not empty. *)
Lemma background_url_match s caps rest :
  exec_here background_url s = Some (caps, rest) ->
  exists p1 url p3 a pre,
    caps = [p1; url; p3] /\
    p1 +:+ url +:+ p3 = String a pre /\
    s = String a pre +:+ rest.
Proof.
  unfold exec_here, background_url. cbn [run]. intros H.
  apply declaration_start_continues in H as (p1 & s1 & -> & H).
  apply run_continues in H as (url & s2 & caps2 & -> & H & Hc2).
  rewrite Hc2 in H by reflexivity. clear Hc2.
  apply run_continues in H as (p3 & s3 & caps3 & -> & H & Hc3).
  rewrite Hc3 in H by reflexivity. clear Hc3.
  injection H as <- <-. rewrite !consumed_app. simpl.
  exists (String "b" p1), url, p3, "b"%char, (p1 +:+ url +:+ p3).
  split_and!; [done|done|].
  by rewrite !append_cons, !append_assoc_string.
Qed.

(** The pieces of a text for background URLs cover the text. *)
Lemma background_pieces_cover html :
  text_of (pieces background_url html 0) = html.
Proof.
  rewrite pieces_cover; [reflexivity|].
  intros s caps rest H.
  destruct (background_url_match _ _ _ H) as (p1 & url & p3 & a & pre & _ & _ & Hs).
  by exists a, pre.
Qed.

(** Every match among them is its three groups, one after the other. *)
Lemma background_pieces_groups html : forall skip text caps,
  Matched text caps ∈ pieces background_url html skip ->
  exists p1 url p3, caps = [p1; url; p3] /\ text = p1 +:+ url +:+ p3.
Proof.
  induction html as [|c s IH]; intros skip text caps Hin; simpl in Hin.
  { by apply elem_of_nil in Hin. }
  destruct skip as [|n]; [|by eapply IH].
  destruct (exec_here background_url (String c s)) as [[caps' rest]|] eqn:E.
  - apply elem_of_cons in Hin as [[= -> ->]|Hin]; [|by eapply IH].
    destruct (background_url_match _ _ _ E) as (p1 & url & p3 & a & pre & -> & Hg & Hs).
    exists p1, url, p3. split; [done|]. rewrite Hs, Hg. apply consumed_app.
  - apply elem_of_cons in Hin as [?|Hin]; [discriminate|by eapply IH].
Qed.

(** Leaving every match as its three groups leaves the text as it is. *)
Lemma rewritten_unchanged html :
  rewritten (fun p1 url p3 => p1 +:+ url +:+ p3) (pieces background_url html 0)
  = html.
Proof.
  rewrite <- (background_pieces_cover html) at 2.
  pose proof (background_pieces_groups html 0) as H.
  induction (pieces background_url html 0) as [|[c|text caps] l IH]; [done| |].
  - cbn [rewritten text_of]. rewrite IH; [done|].
    intros text caps Hin. apply H. by right.
  - cbn [rewritten text_of].
    destruct (H text caps) as (p1 & url & p3 & -> & ->); [by left|].
    simpl. rewrite IH; [done|]. intros ?? Hin. apply (H _ _). by right.
Qed.

(** ** The loop over the background URLs *)

Section Backgrounds.

Variable env : Env.

Lemma generated_weaken a b a' b' name :
  generated env a b name -> (a' <= a)%nat -> (b <= b')%nat ->
  generated env a' b' name.
Proof. intros (k & ext & Hk & ->) Ha Hb. exists k, ext. split; [lia|done]. Qed.

Lemma Set_add_spec x l y : y ∈ Set_add x l <-> y ∈ l \/ y = x.
Proof.
  unfold Set_add. case_bool_decide as H.
  - split; [by left|]. intros [?| ->]; done.
  - rewrite elem_of_app, list_elem_of_singleton. done.
Qed.

Lemma Set_add_NoDup x l : NoDup l -> NoDup (Set_add x l).
Proof.
  intros Hnd. unfold Set_add. case_bool_decide as H; [done|].
  apply NoDup_app. split_and!; [done| |apply NoDup_singleton].
  intros y Hy Hy'. apply list_elem_of_singleton in Hy'. by subst.
Qed.

Lemma replace_pieces_Plain {St : Type} (cb : string -> list string -> St -> string * St)
    c l st :
  replace_pieces cb (Plain c :: l) st
  = (String c (replace_pieces cb l st).1, (replace_pieces cb l st).2).
Proof. simpl. by destruct (replace_pieces cb l st). Qed.

Lemma replace_pieces_Matched {St : Type} (cb : string -> list string -> St -> string * St)
    text caps l st :
  replace_pieces cb (Matched text caps :: l) st
  = ((cb text caps st).1 +:+ (replace_pieces cb l (cb text caps st).2).1,
     (replace_pieces cb l (cb text caps st).2).2).
Proof.
  simpl. destruct (cb text caps st) as [new st1]. simpl.
  by destruct (replace_pieces cb l st1).
Qed.

(** The first pass gathers the URLs of the matches, each once, in the order
    of their first occurrence. *)
Lemma collect_urls l : forall acc,
  (replace_pieces collect_url l acc).2
  = foldl (fun acc url => Set_add url acc) acc (urls_in l).
Proof.
  induction l as [|[c|text caps] l IH]; intros acc; [done| |].
  - rewrite replace_pieces_Plain. apply IH.
  - rewrite replace_pieces_Matched. simpl. apply IH.
Qed.

Lemma collected_spec urls : forall acc,
  NoDup acc ->
  NoDup (foldl (fun acc url => Set_add url acc) acc urls) /\
  forall y, y ∈ foldl (fun acc url => Set_add url acc) acc urls
            <-> y ∈ acc \/ y ∈ urls.
Proof.
  induction urls as [|u urls IH]; intros acc Hnd; simpl.
  - split; [done|]. intros y. rewrite elem_of_nil. tauto.
  - destruct (IH (Set_add u acc) (Set_add_NoDup u acc Hnd)) as [H1 H2].
    split; [done|]. intros y. rewrite H2, Set_add_spec, elem_of_cons. tauto.
Qed.

Lemma download_background_rejected m url w reason :
  fetch_blob env url = Rejected reason ->
  exists w', readings w' = readings w /\
    network w' = GET url :: network w /\
    forall zip : JSZip,
      download_background env (m, zip) url w = (Ok (m, zip), w').
Proof.
  intros Hf. eexists. split_and!; [| |intros zip].
  3: { unfold download_background, try_catch, fetch_Blob, mbind, M_bind, sent.
       rewrite Hf. simpl. reflexivity. }
  all: reflexivity.
Qed.

Lemma download_background_fetched m url w b :
  fetch_blob env url = Fetched b ->
  let name := asset_name env (readings w) (blob_ext env b) in
  exists w', readings w' = S (readings w) /\
    network w' = GET url :: network w /\
    forall zip : JSZip,
      download_background env (m, zip) url w
      = (Ok (<[url := name]> m, <[name := File (BlobData b)]> zip), w').
Proof.
  intros Hf name. eexists. split_and!; [| |intros zip].
  3: { unfold download_background, try_catch, fetch_Blob, mbind, M_bind, sent.
       rewrite Hf. simpl. reflexivity. }
  all: reflexivity.
Qed.

(** What the loop does: one request per URL, in order; the URLs fetched are
    exactly those the map knows afterwards, each with the name its blob
    was stored under. *)
Lemma download_backgrounds_loop l : forall (m : gmap string string) w,
  exists m' w' (ops : list (string * entry)),
    network w' = (rev (map GET l) ++ network w)%list /\
    (readings w <= readings w')%nat /\
    Forall (generated env (readings w) (readings w')) (map fst ops) /\
    (forall url, url ∉ l -> m' !! url = m !! url) /\
    (forall url, url ∈ l -> is_fetched (fetch_blob env url) = false ->
       m' !! url = m !! url) /\
    (forall url, url ∈ l -> is_fetched (fetch_blob env url) = true ->
       exists name, m' !! url = Some name /\ name ∈ map fst ops) /\
    forall zip : JSZip,
      for_of (download_background env) l (m, zip) w
      = (Ok (m', writes ops zip), w').
Proof.
  induction l as [|url l IH]; intros m w.
  { exists m, w, []. split_and!; try done;
      intros ? H; by apply elem_of_nil in H. }
  destruct (fetch_blob env url) as [b|reason] eqn:Hf.
  - destruct (download_background_fetched m url w b Hf) as (w1 & Hr & Hn & Hrun).
    set (name := asset_name env (readings w) (blob_ext env b)) in *.
    destruct (IH (<[url := name]> m) w1)
      as (m' & w' & ops & H1 & H2 & H3 & H4 & H5 & H6 & H7).
    exists m', w', ((name, File (BlobData b)) :: ops). split_and!.
    + rewrite H1, Hn. simpl. by rewrite <- app_assoc.
    + lia.
    + simpl. constructor.
      * exists (readings w), (blob_ext env b). split; [lia|done].
      * eapply Forall_impl; [exact H3|]. intros n Hn'.
        eapply generated_weaken; [exact Hn'|lia|lia].
    + intros u Hu. apply not_elem_of_cons in Hu as [Hne Hu].
      rewrite (H4 _ Hu). by apply lookup_insert_ne.
    + intros u Hu Hnf. apply elem_of_cons in Hu as [->|Hu].
      * rewrite Hf in Hnf. discriminate.
      * destruct (decide (u = url)) as [->|Hne].
        { rewrite Hf in Hnf. discriminate. }
        rewrite (H5 _ Hu Hnf). by apply lookup_insert_ne.
    + intros u Hu Hyes. destruct (decide (u ∈ l)) as [Hin|Hnot].
      * destruct (H6 _ Hin Hyes) as (n & Hm & Hn'). exists n. split; [done|].
        simpl. by right.
      * apply elem_of_cons in Hu as [->|Hu]; [|done].
        exists name. rewrite (H4 _ Hnot), lookup_insert_eq. split; [done|].
        simpl. by left.
    + intros zip. rewrite for_of_cons, Hrun. apply H7.
  - destruct (download_background_rejected m url w reason Hf) as (w1 & Hr & Hn & Hrun).
    destruct (IH m w1) as (m' & w' & ops & H1 & H2 & H3 & H4 & H5 & H6 & H7).
    exists m', w', ops. rewrite Hr in *. split_and!; try done.
    + rewrite H1, Hn. simpl. by rewrite <- app_assoc.
    + intros u Hu. apply not_elem_of_cons in Hu as [Hne Hu]. by apply H4.
    + intros u Hu Hnf. destruct (decide (u ∈ l)) as [Hin|Hnot]; [by apply H5|by apply H4].
    + intros u Hu Hyes. apply elem_of_cons in Hu as [->|Hu]; [|by apply H6].
      rewrite Hf in Hyes. discriminate.
    + intros zip. rewrite for_of_cons, Hrun. apply H7.
Qed.

Lemma rewrite_url_spec (m : gmap string string) text caps w :
  (rewrite_url m text caps w).1
  = (let '(p1, url, p3) := groups caps in
     match m !! url with
     | Some path => p1 +:+ "./" +:+ path +:+ p3
     | None => p1 +:+ url +:+ p3
     end) /\
  network (rewrite_url m text caps w).2 = network w /\
  readings (rewrite_url m text caps w).2 = readings w.
Proof.
  unfold rewrite_url. destruct (groups caps) as [[p1 url] p3].
  by destruct (m !! url).
Qed.

(** The second pass: a match is rewritten when the map knows its URL. *)
Lemma rewrite_urls (m : gmap string string) l : forall w,
  (replace_pieces (rewrite_url m) l w).1
  = rewritten (fun p1 url p3 =>
                 match m !! url with
                 | Some path => p1 +:+ "./" +:+ path +:+ p3
                 | None => p1 +:+ url +:+ p3
                 end) l /\
  network (replace_pieces (rewrite_url m) l w).2 = network w /\
  readings (replace_pieces (rewrite_url m) l w).2 = readings w.
Proof.
  induction l as [|[c|text caps] l IH]; intros w.
  - done.
  - rewrite replace_pieces_Plain. cbn [fst snd rewritten].
    destruct (IH w) as (-> & Hn & Hr). done.
  - rewrite replace_pieces_Matched. cbn [fst snd rewritten].
    destruct (rewrite_url_spec m text caps w) as (-> & Hn & Hr).
    destruct (IH (rewrite_url m text caps w).2) as (-> & Hn' & Hr').
    rewrite Hn', Hr'. split_and!; [|done|done].
    by destruct (groups caps) as [[p1 url] p3].
Qed.

(** The URLs the loop visits. *)
Lemma background_urls html :
  let found := urls_in (pieces background_url html 0) in
  let bgImageURLs := (replaceAll background_url collect_url html []).2 in
  NoDup bgImageURLs /\ forall url, url ∈ bgImageURLs <-> url ∈ found.
Proof.
  simpl. unfold replaceAll. rewrite collect_urls.
  destruct (collected_spec (urls_in (pieces background_url html 0)) [])
    as [H1 H2]; [constructor|].
  split; [done|]. intros url. rewrite H2, elem_of_nil. tauto.
Qed.

Lemma times_rev_GET url l :
  NoDup l -> url ∈ l -> times (GET url) (rev (map GET l)) = 1%nat.
Proof.
  unfold times. rewrite List.filter_rev, List.length_rev. intros Hnd Hin.
  assert (forall k, url ∉ k ->
            List.filter (fun x => bool_decide (x = GET url)) (map GET k) = []) as Hout.
  { induction k as [|y k IH]; intros Hy; [done|].
    apply not_elem_of_cons in Hy as [Hne Hy]. simpl.
    rewrite bool_decide_false by congruence. by apply IH. }
  induction Hnd as [|x l Hx Hnd IH]; [by apply elem_of_nil in Hin|].
  simpl. destruct (decide (url = x)) as [->|Hne].
  - rewrite bool_decide_true by done. simpl. by rewrite Hout.
  - rewrite bool_decide_false by congruence.
    apply elem_of_cons in Hin as [?|Hin]; [done|]. by apply IH.
Qed.

Lemma rewritten_ext f g l :
  (forall p1 url p3, url ∈ urls_in l -> f p1 url p3 = g p1 url p3) ->
  rewritten f l = rewritten g l.
Proof.
  induction l as [|[c|text caps] l IH]; intros H; cbn [rewritten urls_in] in *;
    [done| |].
  - by rewrite IH.
  - destruct (groups caps) as [[p1 url] p3]. cbn [fst snd] in H.
    rewrite (H p1 url p3) by (by left). rewrite IH; [done|].
    intros ??? Hin. apply H. by right.
Qed.

Lemma download_backgrounds_run html w :
  let cut := pieces background_url html 0 in
  let bgImageURLs := (replaceAll background_url collect_url html []).2 in
  exists (m : gmap string string) w' (ops : list (string * entry)),
    network w' = (rev (map GET bgImageURLs) ++ network w)%list /\
    (readings w <= readings w')%nat /\
    Forall (generated env (readings w) (readings w')) (map fst ops) /\
    (forall url, is_fetched (fetch_blob env url) = false -> m !! url = None) /\
    (forall url, url ∈ bgImageURLs -> is_fetched (fetch_blob env url) = true ->
       exists name, m !! url = Some name /\ name ∈ map fst ops) /\
    forall zip : JSZip,
      download_backgrounds env html zip w
      = (Ok (rewritten (fun p1 url p3 =>
                          match m !! url with
                          | Some path => p1 +:+ "./" +:+ path +:+ p3
                          | None => p1 +:+ url +:+ p3
                          end) cut,
             writes ops zip), w').
Proof.
  intros cut bgImageURLs.
  destruct (download_backgrounds_loop bgImageURLs ∅ w)
    as (m & w1 & ops & H1 & H2 & H3 & H4 & H5 & H6 & H7).
  destruct (rewrite_urls m cut w1) as (Hout & Hn & Hr).
  exists m, (replace_pieces (rewrite_url m) cut w1).2, ops.
  rewrite Hn, Hr. split_and!; try done.
  - intros url Hf. destruct (decide (url ∈ bgImageURLs)) as [Hin|Hnot].
    + by rewrite (H5 _ Hin Hf).
    + by rewrite (H4 _ Hnot).
  - intros zip. unfold download_backgrounds. fold bgImageURLs.
    unfold mbind at 1. unfold M_bind. rewrite H7.
    unfold rewrite_backgrounds, replaceAll, mbind, M_bind. fold cut.
    destruct (replace_pieces (rewrite_url m) cut w1) as [out w2] eqn:E.
    simpl in *. by rewrite Hout.
Qed.


End Backgrounds.

(** ** The images that are stored *)

Section StoredImages.

Variable env : Env.

Lemma asset_name_under_assets k ext :
  exists rest, asset_name env k ext = "assets/" +:+ rest.
Proof. by eexists. Qed.

End StoredImages.

(** ** The whole of [packHTMLAssets] *)

Section WholePack.

Variable env : Env.

Lemma download_stylesheet_rejected localLinks link w reason :
  fetch_text env (reflected env "href" (Some link)) = Rejected reason ->
  exists w', readings w' = readings w /\
    forall zip : JSZip,
      download_stylesheet env (localLinks, zip) link w = (Ok (localLinks, zip), w').
Proof.
  intros Hf. eexists. split; [|intros zip].
  2: { unfold download_stylesheet, try_catch, fetch_string, mbind, M_bind, sent.
       rewrite Hf. simpl. reflexivity. }
  reflexivity.
Qed.

Lemma download_stylesheet_fetched localLinks link w stylesheet :
  fetch_text env (reflected env "href" (Some link)) = Fetched stylesheet ->
  exists w' localLinks', readings w' = S (readings w) /\
    forall zip : JSZip,
      download_stylesheet env (localLinks, zip) link w
      = (Ok (localLinks',
             <[asset_name env (readings w) "css" := File (TextData stylesheet)]> zip),
         w').
Proof.
  intros Hf. eexists _, _. split; [|intros zip].
  2: { unfold download_stylesheet, try_catch, fetch_string, mbind, M_bind, sent.
       rewrite Hf. simpl. reflexivity. }
  reflexivity.
Qed.

(** The loop over the style sheets never fails, and writes generated names
    only. *)
Lemma download_stylesheets_loop l : forall localLinks w,
  exists localLinks' w' (ops : list (string * entry)),
    (readings w <= readings w')%nat /\
    Forall (generated env (readings w) (readings w')) (map fst ops) /\
    forall zip : JSZip,
      for_of (download_stylesheet env) l (localLinks, zip) w
      = (Ok (localLinks', writes ops zip), w').
Proof.
  induction l as [|link l IH]; intros localLinks w.
  { exists localLinks, w, []. split_and!; try done. }
  destruct (fetch_text env (reflected env "href" (Some link)))
    as [stylesheet|reason] eqn:Hf.
  - destruct (download_stylesheet_fetched localLinks link w stylesheet Hf)
      as (w1 & links1 & Hr & Hrun).
    destruct (IH links1 w1) as (links' & w' & ops & H1 & H2 & H3).
    exists links', w',
      ((asset_name env (readings w) "css", File (TextData stylesheet)) :: ops).
    split_and!.
    + lia.
    + simpl. constructor.
      * exists (readings w), "css". split; [lia|done].
      * eapply Forall_impl; [exact H2|]. intros n Hn.
        eapply generated_weaken; [exact Hn|lia|lia].
    + intros zip. rewrite for_of_cons, Hrun. apply H3.
  - destruct (download_stylesheet_rejected localLinks link w reason Hf)
      as (w1 & Hr & Hrun).
    destruct (IH localLinks w1) as (links' & w' & ops & H1 & H2 & H3).
    exists links', w', ops. rewrite Hr in *. split_and!; try done.
    intros zip. rewrite for_of_cons, Hrun. apply H3.
Qed.

(** The loop over the images, seen from the archive. *)
Lemma download_images_writes pc w :
  exists pc' w' (ops : list (string * entry)),
    (readings w <= readings w')%nat /\
    Forall (generated env (readings w) (readings w')) (map fst ops) /\
    forall zip : JSZip,
      download_images env pc zip w = (Ok (pc', writes ops zip), w').
Proof.
  destruct (download_images_loop env (positions is_img_src pc) pc w
              (positions_NoDup _ _))
    as (pc' & w' & stored & H1 & H2 & H3 & H4 & H5 & H6).
  exists pc', w', (map image_entry stored). split_and!; [lia| |exact H6].
  apply Forall_forall. intros name Hin.
  apply list_elem_of_fmap in Hin as ([n e] & -> & Hin).
  apply list_elem_of_fmap in Hin as ([[img n'] b] & [= -> ->] & Hin).
  apply list_elem_of_lookup in Hin as [i Hi].
  pose proof (lookup_lt_Some _ _ _ Hi) as Li.
  destruct (H3 _ _ _ _ Hi) as [_ ->].
  exists (readings w + i)%nat, (blob_ext env b). split; [lia|done].
Qed.

(** With the content container present the call succeeds.  It writes the
    folder [assets/] when the archive has none, then what the loop over the
    images writes, then further entries with names generated later, then
    [index.html]; what it writes does not depend on the archive it is
    given. *)
Lemma packHTMLAssets_steps html w pageContent :
  page_content (parseFromString env html) = Some pageContent ->
  let cleaned := clean (quirks (parseFromString env html)) pageContent in
  exists pageContent' w1 (images : list (string * entry))
         (doc : string) w' (later : list (string * entry)),
    (readings w <= readings w1)%nat /\
    (readings w1 <= readings w')%nat /\
    Forall (generated env (readings w) (readings w1)) (map fst images) /\
    Forall (generated env (readings w1) (readings w')) (map fst later) /\
    forall zip : option JSZip,
      let zip0 := zip_folder "assets" (default ∅ zip) in
      download_images env cleaned zip0 w
        = (Ok (pageContent', writes images zip0), w1) /\
      packHTMLAssets env html zip w
        = (Ok (<["index.html" := File (TextData doc)]>
                 (writes later (writes images zip0))), w').
Proof.
  intros Hpc cleaned.
  set (d := parseFromString env html) in *.
  destruct (download_images_writes cleaned w)
    as (pc1 & w1 & ops1 & Hr1 & Hg1 & Hrun1).
  destruct (download_backgrounds_run env (outerHTML env pc1) w1)
    as (m & w2 & ops2 & _ & Hr2 & Hg2 & _ & _ & Hrun2).
  destruct (download_stylesheets_loop
              (head_links false
                 (documentElement
                    (document_with (has_id (quirks d) "page-content") pc1 d)))
              EmptyString w2)
    as (links & w3 & ops3 & Hr3 & Hg3 & Hrun3).
  eexists pc1, w1, ops1, _, w3, (ops2 ++ ops3)%list. split_and!.
  - lia.
  - lia.
  - exact Hg1.
  - rewrite !map_app, !Forall_app. split_and!.
    + eapply Forall_impl; [exact Hg2|]. intros n Hn.
      eapply generated_weaken; [exact Hn|lia|lia].
    + eapply Forall_impl; [exact Hg3|]. intros n Hn.
      eapply generated_weaken; [exact Hn|lia|lia].
  - intros zip zip0. split; [apply Hrun1|].
    unfold packHTMLAssets. fold d. rewrite Hpc. fold cleaned. fold zip0.
    unfold mbind at 1. unfold M_bind. rewrite Hrun1.
    unfold mbind at 1. unfold M_bind. rewrite Hrun2.
    unfold mbind at 1. unfold M_bind. unfold download_stylesheets.
    rewrite Hrun3. simpl. rewrite !writes_app. reflexivity.
Qed.

Lemma packHTMLAssets_run html w pageContent :
  page_content (parseFromString env html) = Some pageContent ->
  exists (doc : string) w' (ops : list (string * entry)),
    (readings w <= readings w')%nat /\
    Forall (generated env (readings w) (readings w')) (map fst ops) /\
    forall zip : option JSZip,
      packHTMLAssets env html zip w
      = (Ok (<["index.html" := File (TextData doc)]>
               (writes ops (zip_folder "assets" (default ∅ zip)))), w').
Proof.
  intros Hpc.
  destruct (packHTMLAssets_steps html w pageContent Hpc)
    as (pc1 & w1 & images & doc & w' & later & Hr1 & Hr2 & Hg1 & Hg2 & Hrun).
  exists doc, w', (images ++ later)%list. split_and!.
  - lia.
  - rewrite map_app, Forall_app. split.
    + eapply Forall_impl; [exact Hg1|]. intros n Hn.
      eapply generated_weaken; [exact Hn|lia|lia].
    + eapply Forall_impl; [exact Hg2|]. intros n Hn.
      eapply generated_weaken; [exact Hn|lia|lia].
  - intros zip. rewrite writes_app. apply Hrun.
Qed.

(** No failure of a fetch makes the call fail: it fails only without the
    content container. *)
Lemma packHTMLAssets_fails_only_without_container html zip w e w' :
  packHTMLAssets env html zip w = (Throw e, w') ->
  page_content (parseFromString env html) = None /\ e = TypeError /\ w' = w.
Proof.
  destruct (page_content (parseFromString env html)) as [pageContent|] eqn:Hpc.
  - destruct (packHTMLAssets_run html w pageContent Hpc) as (doc & w1 & ops & _ & _ & H).
    rewrite H. discriminate.
  - unfold packHTMLAssets. rewrite Hpc. by intros [= <- <-].
Qed.

Lemma zip_folder_lookup (zip : JSZip) folder name e :
  zip !! name = Some e -> zip_folder folder zip !! name = Some e.
Proof.
  intros H. unfold zip_folder.
  destruct (zip !! (folder +:+ "/")) eqn:E; [done|].
  rewrite lookup_insert_ne; [done|]. intros <-. congruence.
Qed.

End WholePack.

(** ** [getArticleList] *)

Section ArticleList.

Variable env : Env.
Variables (fakeid token : string) (page : option Z) (keyword : option string).

Let query := listing_query fakeid token page keyword.
Let sent_to (w : World) : World :=
  requested (GET_query "/api/appmsgpublish" query) w.

Lemma getArticleList_rejected w reason :
  fetch_appmsgpublish env "/api/appmsgpublish" query = Rejected reason ->
  getArticleList env fakeid token page keyword w
  = (Throw (FetchError reason), sent_to w).
Proof.
  intros H. unfold getArticleList, fetch_publish, mbind, M_bind, sent.
  fold query. rewrite H. reflexivity.
Qed.

Lemma getArticleList_fetched w resp :
  fetch_appmsgpublish env "/api/appmsgpublish" query = Fetched resp ->
  getArticleList env fakeid token page keyword w
  = (if ret (base_resp resp) =? 0 then decode_publish_page env (publish_page resp)
     else if ret (base_resp resp) =? 200003 then Throw (Error "session expired")
     else Throw (Error (err_msg (base_resp resp))),
     sent_to w).
Proof.
  intros H. unfold getArticleList, fetch_publish, mbind, M_bind, sent.
  fold query. rewrite H. simpl.
  destruct (ret (base_resp resp) =? 0); [reflexivity|].
  destruct (ret (base_resp resp) =? 200003); reflexivity.
Qed.

End ArticleList.

Section ArticleListClaims.

Variable env : Env.
Variables (fakeid token : string) (page : option Z) (keyword : option string).

Lemma Get_throws v name e : Get v name = Throw e -> e = TypeError.
Proof. destruct v; simpl; congruence. Qed.

Lemma parse_throws v e : parse env v = Throw e -> e = SyntaxError.
Proof. unfold parse. destruct (JSON_parse env v); congruence. Qed.

Lemma Array_filter_throws (P : exn -> Prop) cb l e :
  (forall x e', cb x = Throw e' -> P e') ->
  Array_filter cb l = Throw e -> P e.
Proof.
  intros Hcb. induction l as [|x l IH]; simpl; [congruence|].
  destruct (cb x) as [keep|e'] eqn:Hx; simpl.
  - destruct (Array_filter cb l); simpl; [congruence|].
    intros [= ->]. by apply IH.
  - intros [= ->]. by eapply Hcb.
Qed.

Lemma Array_flatMap_throws (P : exn -> Prop) cb l e :
  (forall x e', cb x = Throw e' -> P e') ->
  Array_flatMap cb l = Throw e -> P e.
Proof.
  intros Hcb. induction l as [|x l IH]; simpl; [congruence|].
  destruct (cb x) as [v|e'] eqn:Hx; simpl.
  - destruct (Array_flatMap cb l); simpl; [congruence|].
    intros [= ->]. by apply IH.
  - intros [= ->]. by eapply Hcb.
Qed.

Lemma decode_publish_page_throws text e :
  decode_publish_page env text = Throw e -> e = SyntaxError \/ e = TypeError.
Proof.
  unfold decode_publish_page.
  destruct (parse env (JStr text)) as [pg|e0] eqn:Hp; simpl.
  2: { intros [= ->]. left. by eapply parse_throws. }
  destruct (Get pg "publish_list") as [all|e0] eqn:Hg; simpl.
  2: { intros [= ->]. right. by eapply Get_throws. }
  destruct (call_filter all has_publish_info) as [kept|e0] eqn:Hf; simpl.
  2: { intros [= ->]. right.
       destruct all; simpl in Hf; try congruence.
       eapply (Array_filter_throws (fun e => e = TypeError)); [|exact Hf].
       intros x e'. unfold has_publish_info.
       destruct (Get x "publish_info") eqn:Hx; simpl; [congruence|].
       intros [= ->]. by eapply Get_throws. }
  destruct (Z.of_nat (length kept) =? 0); [congruence|].
  apply (Array_flatMap_throws (fun e => e = SyntaxError \/ e = TypeError)).
  intros x e'. unfold appmsgex_of.
  destruct (Get x "publish_info") eqn:Hx; simpl.
  2: { intros [= ->]. right. by eapply Get_throws. }
  destruct (parse env a) eqn:Ha; simpl.
  2: { intros [= ->]. left. by eapply parse_throws. }
  intros H. right. by eapply Get_throws.
Qed.

Lemma Array_filter_declared items :
  Forall declared_entry items ->
  Array_filter has_publish_info items = Ok (with_publish_info items).
Proof.
  induction 1 as [|item items (props & -> & Hinfo) _ IH]; [reflexivity|].
  cbn [Array_filter with_publish_info List.filter]. rewrite IH.
  unfold has_publish_info. simpl.
  destruct Hinfo as [-> | [text ->]]; simpl; [reflexivity|].
  by destruct text.
Qed.

Lemma Array_flatMap_inner items lists :
  Forall2 (inner_list env) items lists ->
  Array_flatMap (appmsgex_of env) items = Ok (concat lists).
Proof.
  induction 1 as [|item l items lists (props & text & fields & -> & Ht & Hp & Hl) _ IH];
    [reflexivity|].
  cbn [Array_flatMap]. rewrite IH.
  unfold appmsgex_of, parse. simpl. rewrite Ht. simpl. rewrite Hp. simpl.
  by rewrite Hl.
Qed.

(** C1. When the base-result code is 0, the nested [publish_page] text
    parses to a page object and every kept entry's [publish_info] text
    parses to an object with an [appmsgex] list, the call returns, in
    order, the concatenation of those lists over the entries whose
    [publish_info] is neither missing nor empty; it returns the empty
    sequence when no entry is kept. *)
Theorem getArticleList_page w resp fields items lists :
  fetch_appmsgpublish env "/api/appmsgpublish"
    (listing_query fakeid token page keyword) = Fetched resp ->
  ret (base_resp resp) = 0 ->
  JSON_parse env (JStr (publish_page resp)) = Some (JObj fields) ->
  assoc "publish_list" fields = Some (JArr items) ->
  Forall declared_entry items ->
  Forall2 (inner_list env) (with_publish_info items) lists ->
  (getArticleList env fakeid token page keyword w).1 = Ok (concat lists) /\
  (with_publish_info items = [] ->
   (getArticleList env fakeid token page keyword w).1 = Ok []).
Proof.
  intros Hf Hret Hpg Hlist Hdecl Hinner.
  rewrite (getArticleList_fetched _ _ _ _ _ _ _ Hf), Hret. simpl.
  assert (decode_publish_page env (publish_page resp) = Ok (concat lists)) as ->.
  { unfold decode_publish_page, parse. rewrite Hpg. simpl. rewrite Hlist. simpl.
    rewrite (Array_filter_declared _ Hdecl). simpl.
    destruct (with_publish_info items) eqn:Hkept.
    - inversion Hinner. reflexivity.
    - rewrite <- Hkept in *. simpl.
      replace (Z.of_nat (length (with_publish_info items)) =? 0) with false
        by (rewrite Hkept; reflexivity).
      by apply Array_flatMap_inner. }
  split; [reflexivity|].
  intros Hnone. rewrite Hnone in Hinner. by inversion Hinner.
Qed.

(** C2, as amended. When the base-result code is 200003 the call fails
    with the error whose message is [session expired], whatever the
    server's message; that failure differs from the one of a response with
    another non-zero code exactly when the message of that response is not
    [session expired]. *)
Theorem getArticleList_session_expired w resp :
  fetch_appmsgpublish env "/api/appmsgpublish"
    (listing_query fakeid token page keyword) = Fetched resp ->
  ret (base_resp resp) = 200003 ->
  (getArticleList env fakeid token page keyword w).1
    = Throw (Error "session expired") /\
  forall env' fakeid' token' page' keyword' w' resp',
    fetch_appmsgpublish env' "/api/appmsgpublish"
      (listing_query fakeid' token' page' keyword') = Fetched resp' ->
    ret (base_resp resp') <> 0 ->
    ret (base_resp resp') <> 200003 ->
    ((getArticleList env' fakeid' token' page' keyword' w').1
       <> (getArticleList env fakeid token page keyword w).1
     <-> err_msg (base_resp resp') <> "session expired").
Proof.
  intros Hf Hret.
  rewrite (getArticleList_fetched _ _ _ _ _ _ _ Hf), Hret. simpl.
  split; [reflexivity|].
  intros env' f' t' p' k' w' resp' Hf' H0 H3.
  rewrite (getArticleList_fetched _ _ _ _ _ _ _ Hf'). simpl.
  apply Z.eqb_neq in H0, H3. rewrite H0, H3.
  split; intros H; congruence.
Qed.

(** C3. When the base-result code is neither 0 nor 200003 and the server's
    message is [X], the call fails with the error whose message is [X]. *)
Theorem getArticleList_server_message w resp X :
  fetch_appmsgpublish env "/api/appmsgpublish"
    (listing_query fakeid token page keyword) = Fetched resp ->
  ret (base_resp resp) <> 0 ->
  ret (base_resp resp) <> 200003 ->
  err_msg (base_resp resp) = X ->
  (getArticleList env fakeid token page keyword w).1 = Throw (Error X).
Proof.
  intros Hf H0 H3 <-.
  rewrite (getArticleList_fetched _ _ _ _ _ _ _ Hf). simpl.
  apply Z.eqb_neq in H0, H3. by rewrite H0, H3.
Qed.

(** C8, as amended. A failure of the call is one of these: the rejection
    of the request itself; with code 0, a [SyntaxError] or a [TypeError]
    raised while the payload is decoded; with code 200003, the error
    [session expired]; with any other code, the error carrying the
    server's message. *)
Theorem getArticleList_failures w e w' :
  getArticleList env fakeid token page keyword w = (Throw e, w') ->
  (exists reason,
     fetch_appmsgpublish env "/api/appmsgpublish"
       (listing_query fakeid token page keyword) = Rejected reason /\
     e = FetchError reason) \/
  (exists resp,
     fetch_appmsgpublish env "/api/appmsgpublish"
       (listing_query fakeid token page keyword) = Fetched resp /\
     ((ret (base_resp resp) = 0 /\ (e = SyntaxError \/ e = TypeError)) \/
      (ret (base_resp resp) = 200003 /\ e = Error "session expired") \/
      (ret (base_resp resp) <> 0 /\ ret (base_resp resp) <> 200003 /\
       e = Error (err_msg (base_resp resp))))).
Proof.
  destruct (fetch_appmsgpublish env "/api/appmsgpublish"
              (listing_query fakeid token page keyword)) as [resp|reason] eqn:Hf.
  - rewrite (getArticleList_fetched _ _ _ _ _ _ _ Hf).
    intros [= H _]. right. exists resp. split; [reflexivity|].
    destruct (Z.eqb_spec (ret (base_resp resp)) 0) as [H0|H0].
    { left. split; [done|]. by eapply decode_publish_page_throws. }
    destruct (Z.eqb_spec (ret (base_resp resp)) 200003) as [H3|H3].
    { right; left. split; [done|]. congruence. }
    right; right. repeat split; try done. congruence.
  - rewrite (getArticleList_rejected _ _ _ _ _ _ _ Hf).
    intros [= <- _]. left. by exists reason.
Qed.

End ArticleListClaims.


(** * Further properties of the helpers *)

(** ** Encoded URLs *)

Lemma unreserved_percent c : unreserved c = true -> Ascii.eqb c "%" = false.
Proof.
  intros H. destruct (Ascii.eqb_spec c "%") as [->|]; [|reflexivity].
  vm_compute in H. discriminate H.
Qed.

Lemma is_hex_hex_digit n : (n < 16)%nat -> is_hex (hex_digit n) = true.
Proof.
  intros H. do 16 (destruct n as [|n]; [reflexivity|]). lia.
Qed.

Lemma ascii_code_parts c :
  (nat_of_ascii c / 16 < 16 /\ nat_of_ascii c mod 16 < 16)%nat.
Proof.
  pose proof (nat_ascii_bounded c) as H. split.
  - apply Nat.Div0.div_lt_upper_bound. lia.
  - apply Nat.mod_upper_bound. lia.
Qed.

Lemma encodeURIComponent_well_escaped s :
  well_escaped (encodeURIComponent s) = true.
Proof.
  induction s as [|c r IH]; [reflexivity|].
  cbn [encodeURIComponent]. destruct (unreserved c) eqn:Hc.
  - cbn [well_escaped]. by rewrite (unreserved_percent c Hc), Hc, IH.
  - destruct (ascii_code_parts c) as [H1 H2].
    cbn [well_escaped]. rewrite Ascii.eqb_refl.
    by rewrite !is_hex_hex_digit, IH.
Qed.

(** X1. The address [proxyImage] gives is the address of the proxy
    followed by a text that holds unreserved characters and escapes only:
    whatever the URL of the image, it is the one parameter of the query. *)
Theorem proxyImage_one_parameter url :
  exists value,
    proxyImage url = "https://service.champ.design/api/proxy?url=" +:+ value /\
    well_escaped value = true.
Proof.
  exists (encodeURIComponent url). split; [reflexivity|].
  apply encodeURIComponent_well_escaped.
Qed.

Lemma hex_digit_inj a b :
  (a < 16)%nat -> (b < 16)%nat -> hex_digit a = hex_digit b -> a = b.
Proof.
  intros Ha Hb H. apply (f_equal nat_of_ascii) in H. unfold hex_digit in H.
  destruct (a <? 10)%nat eqn:Ea, (b <? 10)%nat eqn:Eb;
    rewrite !nat_ascii_embedding in H by lia;
    try apply Nat.ltb_lt in Ea; try apply Nat.ltb_lt in Eb;
    try apply Nat.ltb_ge in Ea; try apply Nat.ltb_ge in Eb; lia.
Qed.

Lemma escape_inj c d :
  hex_digit (nat_of_ascii c / 16) = hex_digit (nat_of_ascii d / 16) ->
  hex_digit (nat_of_ascii c mod 16) = hex_digit (nat_of_ascii d mod 16) ->
  c = d.
Proof.
  intros H1 H2.
  destruct (ascii_code_parts c) as [? ?], (ascii_code_parts d) as [? ?].
  apply hex_digit_inj in H1, H2; try done.
  rewrite <- (ascii_nat_embedding c), <- (ascii_nat_embedding d).
  rewrite (Nat.div_mod_eq (nat_of_ascii c) 16),
          (Nat.div_mod_eq (nat_of_ascii d) 16).
  by rewrite H1, H2.
Qed.

Lemma encodeURIComponent_inj s : forall t,
  encodeURIComponent s = encodeURIComponent t -> s = t.
Proof.
  induction s as [|c r IH]; intros [|d t]; cbn [encodeURIComponent].
  - reflexivity.
  - destruct (unreserved d); discriminate.
  - destruct (unreserved c); discriminate.
  - destruct (unreserved c) eqn:Hc, (unreserved d) eqn:Hd.
    + intros [= -> H]. by rewrite (IH _ H).
    + intros [= -> _]. vm_compute in Hc. discriminate Hc.
    + intros [= <- _]. vm_compute in Hd. discriminate Hd.
    + intros [= H1 H2 H]. rewrite (IH _ H). f_equal. by apply escape_inj.
Qed.

Lemma append_inj_l (pre s t : string) : pre +:+ s = pre +:+ t -> s = t.
Proof.
  induction pre as [|a pre IH]; [done|]. rewrite !append_cons.
  intros [= H]. by apply IH.
Qed.

(** X2. Different URLs are proxied under different addresses. *)
Theorem proxyImage_distinct url url' :
  url <> url' -> proxyImage url <> proxyImage url'.
Proof.
  intros Hne H. apply Hne. unfold proxyImage in H.
  by apply append_inj_l, encodeURIComponent_inj in H.
Qed.

(** ** What [downloadArticleHTML] leaves behind *)

Section DownloadEffects.

Variable env : Env.
Variable articleURL : string.

(** X3. Whatever happens, the call sends one request, for the download
    address with the encoded URL of the article as its parameter, and
    never reads the clock.  A rejected request reaches the caller as it is
    and nothing is logged.  When the page arrives, the console gets one
    entry, the title, exactly when the page lacks the content container
    and a title that is not empty was given. *)
Theorem downloadArticleHTML_effects title w :
  let url := "/api/download?url=" +:+ encodeURIComponent articleURL in
  let run := downloadArticleHTML env articleURL title w in
  network run.2 = GET url :: network w /\
  readings run.2 = readings w /\
  match fetch_text env url with
  | Rejected reason =>
      run.1 = Throw (FetchError reason) /\ console run.2 = console w
  | Fetched fullHTML =>
      console run.2
      = match page_content (parseFromString env fullHTML), title with
        | None, Some t =>
            if is_empty t then console w else console_info [t] :: console w
        | _, _ => console w
        end
  end.
Proof.
  unfold downloadArticleHTML, fetch_string, mbind, M_bind, sent. simpl.
  destruct (fetch_text env _) as [html|reason]; simpl; [|done].
  destruct (page_content (parseFromString env html)); [done|].
  destruct title as [t|]; [destruct (is_empty t)|]; done.
Qed.

(** X4. A page that [downloadArticleHTML] returned can be packed: the check
    of the downloader is the one [packHTMLAssets] relies on, so the call on
    the returned text, with any archive and in any world, does not
    fail. *)
Theorem downloaded_page_can_be_packed title w fullHTML zip w1 :
  (downloadArticleHTML env articleURL title w).1 = Ok fullHTML ->
  exists zip' w', packHTMLAssets env fullHTML zip w1 = (Ok zip', w').
Proof.
  unfold downloadArticleHTML, fetch_string, mbind, M_bind, sent. simpl.
  destruct (fetch_text env _) as [html|reason]; simpl; [|discriminate].
  destruct (page_content (parseFromString env html)) as [pc|] eqn:Hpc.
  - intros [= <-].
    destruct (packHTMLAssets_run env html w1 pc Hpc) as (doc & w' & ops & _ & _ & H).
    eexists _, _. apply H.
  - destruct title as [t|]; [destruct (is_empty t)|]; discriminate.
Qed.

End DownloadEffects.

(** ** When [packHTMLAssets] returns *)

Section PackReturns.

Variable env : Env.

(** X5. The call returns an archive exactly when an element of the parsed
    document is selected by [#page-content]: no request that fails, for an
    image, a background or a style sheet, makes the call fail. *)
Theorem packHTMLAssets_returns_iff_container html zip w :
  let d := parseFromString env html in
  (exists zip' w', packHTMLAssets env html zip w = (Ok zip', w'))
  <-> Exists (fun n => has_id (quirks d) "page-content" n = true)
             (nodes (documentElement d)).
Proof.
  simpl. set (d := parseFromString env html).
  destruct (page_content d) as [pc|] eqn:Hpc.
  - split.
    + intros _. unfold page_content, document_querySelector in Hpc.
      rewrite first_in_nodes in Hpc. apply Exists_exists. exists pc.
      apply head_Some_elem_of, list_elem_of_In, List.filter_In in Hpc as [Hin Hp].
      split; [by apply list_elem_of_In|exact Hp].
    + intros _.
      destruct (packHTMLAssets_run env html w pc Hpc) as (doc & w' & ops & _ & _ & H).
      eexists _, _. apply H.
  - split.
    + intros (zip' & w' & H). unfold packHTMLAssets in H. fold d in H.
      rewrite Hpc in H. discriminate H.
    + intros Hex. apply first_in_None in Hpc.
      apply Exists_exists in Hex as (n & Hin & Hn).
      rewrite Forall_forall in Hpc. specialize (Hpc n Hin). congruence.
Qed.

End PackReturns.

(** ** The clean-up of the content container *)

Lemma nodes_unfold n : nodes n = n :: descendants n.
Proof. by destruct n. Qed.

Lemma prune_of_cons p x r :
  prune_of p (x :: r) = if p x then prune_of p r else prune p x :: prune_of p r.
Proof. reflexivity. Qed.

Lemma prune_unfold p n :
  prune p n = match n with
              | Element t a c => Element t a (prune_of p c)
              | _ => n
              end.
Proof. by destruct n. Qed.

Lemma has_tag_prune t p n : has_tag t (prune p n) = has_tag t n.
Proof. by destruct n. Qed.

(** Once the elements with a tag are removed, none is left below. *)
Lemma prune_has_tag t n :
  Forall (fun x => has_tag t x = false) (descendants (prune (has_tag t) n)).
Proof.
  induction n as [tg a c IH| |] using node_induction; try constructor.
  rewrite prune_unfold. unfold descendants. cbn [childNodes].
  induction IH as [|x r Hx _ IHr]; [constructor|].
  rewrite prune_of_cons. destruct (has_tag t x) eqn:E; [exact IHr|].
  cbn [flat_map]. rewrite nodes_unfold. rewrite <- app_comm_cons.
  constructor; [by rewrite has_tag_prune|].
  apply Forall_app. split; [exact Hx|exact IHr].
Qed.

(** Removing what is not there changes nothing. *)
Lemma prune_nothing p n :
  Forall (fun x => p x = false) (descendants n) -> prune p n = n.
Proof.
  induction n as [tg a c IH| |] using node_induction; try done.
  unfold descendants. cbn [childNodes]. intros H. rewrite prune_unfold. f_equal.
  induction IH as [|x r Hx _ IHr]; [done|].
  cbn [flat_map] in H. rewrite nodes_unfold in H.
  apply Forall_app in H as [H1 H2]. apply Forall_cons in H1 as [Hp H1].
  rewrite prune_of_cons, Hp, (Hx H1), (IHr H2). done.
Qed.

Lemma remove_attr_absent name attrs :
  assoc name attrs = None -> remove_attr name attrs = attrs.
Proof.
  induction attrs as [|[k v] r IH]; [done|]. simpl.
  destruct (String.eqb name k); [discriminate|]. intros H. by rewrite IH.
Qed.

Lemma removeAttribute_absent name n :
  getAttribute name n = None -> removeAttribute name n = n.
Proof.
  destruct n as [t a c| |]; try done. simpl. intros H.
  by rewrite remove_attr_absent.
Qed.

(** A rewriting step that puts the element found back changes nothing. *)
Lemma rewrite_in_same p f n x :
  first_in p n = Some x -> f x = [x] -> rewrite_in p f n = Some [n].
Proof.
  revert x. induction n as [tg a c IH| |] using node_induction; intros x;
    rewrite rewrite_in_unfold, first_in_unfold; destruct (p _) eqn:Hp;
    try (intros [= <-]; congruence); try done.
  simpl. intros Hfirst Hf. clear Hp.
  assert (rewrite_of p f c = Some c) as ->; [|done].
  induction IH as [|y r Hy _ IHr]; [done|].
  rewrite first_of_cons in Hfirst. rewrite rewrite_of_cons.
  destruct (first_in p y) as [z|] eqn:Ey.
  - injection Hfirst as ->. by rewrite (Hy x eq_refl Hf).
  - apply (rewrite_in_None p f) in Ey. rewrite Ey. by rewrite (IHr Hfirst).
Qed.

Lemma rewrite_of_same p f c x :
  first_of p c = Some x -> f x = [x] -> rewrite_of p f c = Some c.
Proof.
  induction c as [|y r IH]; [done|].
  rewrite first_of_cons, rewrite_of_cons.
  destruct (first_in p y) as [z|] eqn:Ey.
  - intros [= ->] Hf. by rewrite (rewrite_in_same p f y x Ey Hf).
  - intros H Hf. apply (rewrite_in_None p f) in Ey. rewrite Ey.
    by rewrite (IH H Hf).
Qed.

Lemma first_of_elem p c x :
  first_of p c = Some x -> x ∈ flat_map nodes c /\ p x = true.
Proof.
  induction c as [|y r IH]; [done|]. rewrite first_of_cons. simpl.
  destruct (first_in p y) as [z|] eqn:Ey.
  - intros [= ->]. rewrite first_in_nodes in Ey.
    apply head_Some_elem_of, list_elem_of_In, List.filter_In in Ey as [Hin Hp].
    split; [|done]. apply elem_of_app. left. by apply list_elem_of_In.
  - intros H. destruct (IH H) as [Hin Hp]. split; [|done].
    apply elem_of_app. by right.
Qed.

Lemma first_of_None p c :
  Forall (fun x => p x = false) (flat_map nodes c) -> first_of p c = None.
Proof.
  intros H. destruct (first_of p c) as [x|] eqn:E; [|done].
  apply first_of_elem in E as [Hin Hp].
  rewrite Forall_forall in H. specialize (H x Hin). congruence.
Qed.

Lemma removeAttribute_first_nothing sel name el :
  (forall x, x ∈ descendants el -> sel x = true -> getAttribute name x = None) ->
  removeAttribute_first sel name el = el.
Proof.
  unfold removeAttribute_first, descendants. destruct el as [t a c| |]; try done.
  simpl. intros H.
  destruct (first_of sel c) as [x|] eqn:E.
  - rewrite (rewrite_of_same _ _ _ _ E); [done|].
    destruct (first_of_elem _ _ _ E) as [Hin Hp].
    by rewrite removeAttribute_absent by by apply H.
  - assert (rewrite_of sel (fun n => [removeAttribute name n]) c = None) as ->; [|done].
    clear H. induction c as [|y r IH]; [done|].
    rewrite first_of_cons in E. rewrite rewrite_of_cons.
    destruct (first_in sel y) eqn:Ey; [discriminate|].
    apply (rewrite_in_None sel (fun n => [removeAttribute name n])) in Ey.
    rewrite Ey. by rewrite IH.
Qed.

(** X6. A content container that holds none of the elements the clean-up
    looks for is left as it is: the lookups that find nothing are no
    errors.  (None is selected by [#js_tags_preview_toast],
    [#content_bottom_area] or [#js_temp_bottom_area], none is a script,
    and no element selected by [#js_content] has a [style].) *)
Theorem clean_nothing_to_clean quirks_mode pageContent :
  (forall n, n ∈ descendants pageContent ->
     has_id quirks_mode "js_tags_preview_toast" n = false /\
     has_id quirks_mode "content_bottom_area" n = false /\
     has_id quirks_mode "js_temp_bottom_area" n = false /\
     has_tag "script" n = false /\
     (has_id quirks_mode "js_content" n = true -> getAttribute "style" n = None)) ->
  clean quirks_mode pageContent = pageContent.
Proof.
  intros H. unfold clean.
  rewrite removeAttribute_first_nothing
    by (intros x Hx; destruct (H x Hx) as (_ & _ & _ & _ & Hs); exact Hs).
  assert (forall sel, (forall x, x ∈ descendants pageContent -> sel x = false) ->
            remove_first sel pageContent = pageContent) as Hnone.
  { intros sel Hsel. apply remove_first_nothing, first_of_None, Forall_forall.
    exact Hsel. }
  rewrite (Hnone (has_id quirks_mode "js_tags_preview_toast"))
    by (intros x Hx; by destruct (H x Hx) as (Hs & _)).
  rewrite (Hnone (has_id quirks_mode "content_bottom_area"))
    by (intros x Hx; by destruct (H x Hx) as (_ & Hs & _)).
  rewrite (Hnone (has_id quirks_mode "js_temp_bottom_area"))
    by (intros x Hx; by destruct (H x Hx) as (_ & _ & Hs & _)).
  apply prune_nothing, Forall_forall. intros x Hx.
  by destruct (H x Hx) as (_ & _ & _ & Hs & _).
Qed.

(** ** The clean-up only removes *)

Lemma filter_remove_attr name attrs :
  List.filter (fun kv : string * string => negb (String.eqb name kv.1))
              (remove_attr name attrs)
  = List.filter (fun kv => negb (String.eqb name kv.1)) attrs.
Proof.
  induction attrs as [|[k v] r IH]; [done|]. cbn [remove_attr].
  destruct (String.eqb name k) eqn:E; cbn [List.filter fst]; rewrite E; cbn [negb].
  - reflexivity.
  - by rewrite IH.
Qed.

Lemma outline_removeAttribute n : outline (removeAttribute "style" n) = outline n.
Proof.
  destruct n as [t a c| |]; try done. cbn [removeAttribute outline].
  by rewrite filter_remove_attr.
Qed.

Lemma descendants_removeAttribute name n :
  descendants (removeAttribute name n) = descendants n.
Proof. by destruct n. Qed.

Lemma outline_prune p n : outline (prune p n) = outline n.
Proof. by destruct n. Qed.

(** A rewriting step that gives, for the element found, nodes whose
    outlines are among those of the element and of what is below it,
    leaves outlines that were there, in their order. *)
Lemma rewrite_in_sublist p f n l :
  (forall x, map outline (flat_map nodes (f x)) `sublist_of` map outline (nodes x)) ->
  rewrite_in p f n = Some l ->
  map outline (flat_map nodes l) `sublist_of` map outline (nodes n).
Proof.
  intros Hf. revert l.
  induction n as [t a c IH| |] using node_induction; intros l;
    rewrite rewrite_in_unfold; destruct (p _);
    try (intros [= <-]; apply Hf); try done.
  destruct (rewrite_of p f c) as [c'|] eqn:Hc; [|done]. intros [= <-].
  cbn [flat_map]. rewrite app_nil_r, !nodes_unfold. cbn [map].
  change (outline (Element t a c')) with (outline (Element t a c)).
  apply sublist_skip. unfold descendants. cbn [childNodes].
  revert c' Hc. induction IH as [|x r Hx _ IHr]; intros c' Hc; [done|].
  rewrite rewrite_of_cons in Hc. cbn [flat_map]. rewrite map_app.
  destruct (rewrite_in p f x) as [x'|] eqn:Ex.
  - injection Hc as <-. rewrite flat_map_app, map_app.
    apply sublist_app; [by apply Hx|done].
  - destruct (rewrite_of p f r) as [r'|] eqn:Er; [|done].
    injection Hc as <-. cbn [flat_map]. rewrite map_app.
    apply sublist_app; [done|by apply IHr].
Qed.

Lemma rewrite_of_sublist p f c c' :
  (forall x, map outline (flat_map nodes (f x)) `sublist_of` map outline (nodes x)) ->
  rewrite_of p f c = Some c' ->
  map outline (flat_map nodes c') `sublist_of` map outline (flat_map nodes c).
Proof.
  intros Hf. revert c'. induction c as [|x r IH]; intros c' Hc; [done|].
  rewrite rewrite_of_cons in Hc. cbn [flat_map]. rewrite map_app.
  destruct (rewrite_in p f x) as [x'|] eqn:Ex.
  - injection Hc as <-. rewrite flat_map_app, map_app.
    apply sublist_app; [by eapply rewrite_in_sublist|done].
  - destruct (rewrite_of p f r) as [r'|] eqn:Er; [|done].
    injection Hc as <-. cbn [flat_map]. rewrite map_app.
    apply sublist_app; [done|by apply IH].
Qed.

Lemma remove_first_sublist sel el :
  map outline (descendants (remove_first sel el))
    `sublist_of` map outline (descendants el).
Proof.
  unfold remove_first. destruct el as [t a c| |]; try done.
  destruct (rewrite_of sel (fun _ => []) c) as [c'|] eqn:Hc; [|done].
  unfold descendants. cbn [childNodes].
  eapply rewrite_of_sublist; [|exact Hc]. intros x. apply sublist_nil_l.
Qed.

Lemma removeAttribute_first_sublist sel el :
  map outline (descendants (removeAttribute_first sel "style" el))
    `sublist_of` map outline (descendants el).
Proof.
  unfold removeAttribute_first. destruct el as [t a c| |]; try done.
  destruct (rewrite_of sel _ c) as [c'|] eqn:Hc; [|done].
  unfold descendants. cbn [childNodes].
  eapply rewrite_of_sublist; [|exact Hc]. intros x.
  cbn [flat_map]. rewrite app_nil_r, !nodes_unfold. cbn [map].
  by rewrite outline_removeAttribute, descendants_removeAttribute.
Qed.

Lemma prune_sublist p n :
  map outline (descendants (prune p n)) `sublist_of` map outline (descendants n).
Proof.
  induction n as [t a c IH| |] using node_induction; try done.
  rewrite prune_unfold. unfold descendants. cbn [childNodes].
  induction IH as [|x r Hx _ IHr]; [done|].
  rewrite prune_of_cons. cbn [flat_map]. rewrite map_app, nodes_unfold. cbn [map].
  destruct (p x).
  - apply sublist_cons. by apply sublist_inserts_l.
  - cbn [flat_map]. rewrite map_app, nodes_unfold. cbn [map].
    rewrite outline_prune. apply sublist_skip. by apply sublist_app.
Qed.

(** X7. The clean-up only removes.  The nodes below the cleaned
    container, each taken without what is below it and without its
    [style], are among those below the container it was given, in the
    same order: nothing is added, nothing is moved, and no attribute but
    [style] is touched. *)
Theorem clean_only_removes quirks_mode pageContent :
  map outline (descendants (clean quirks_mode pageContent))
    `sublist_of` map outline (descendants pageContent).
Proof.
  unfold clean, remove_all.
  etrans; [apply prune_sublist|].
  etrans; [apply remove_first_sublist|].
  etrans; [apply remove_first_sublist|].
  etrans; [apply remove_first_sublist|].
  apply removeAttribute_first_sublist.
Qed.

(** ** The loop over the images: the container it leaves, the requests it
    sends *)

Lemma has_tag_setAttribute t name value n :
  has_tag t (setAttribute name value n) = has_tag t n.
Proof. by destruct n. Qed.

Lemma descendants_setAttribute name value n :
  descendants (setAttribute name value n) = descendants n.
Proof. by destruct n. Qed.

Lemma flat_map_nodes_alter (P : node -> Prop) (g : node -> node) c : forall i,
  (forall x, Forall P (nodes x) -> Forall P (nodes (g x))) ->
  Forall P (flat_map nodes c) -> Forall P (flat_map nodes (alter g i c)).
Proof.
  induction c as [|x r IH]; intros i Hg H; [by destruct i|].
  cbn [flat_map] in H. apply Forall_app in H as [H1 H2].
  destruct i as [|i]; cbn [alter list_alter flat_map]; apply Forall_app; split.
  - by apply Hg.
  - exact H2.
  - exact H1.
  - by apply IH.
Qed.

(** Setting an attribute somewhere in a tree changes no tag. *)
Lemma alter_at_has_tag t name value pos : forall n,
  Forall (fun x => has_tag t x = false) (nodes n) ->
  Forall (fun x => has_tag t x = false)
         (nodes (alter_at (setAttribute name value) pos n)).
Proof.
  induction pos as [|i q IH]; intros n H; rewrite nodes_unfold in *.
  - cbn [alter_at]. apply Forall_cons in H as [H1 H2].
    rewrite descendants_setAttribute.
    constructor; [by rewrite has_tag_setAttribute|done].
  - destruct n as [tg a c| |]; try done. cbn [alter_at].
    apply Forall_cons in H as [H1 H2]. constructor; [done|].
    unfold descendants in *. cbn [childNodes] in *.
    by apply flat_map_nodes_alter.
Qed.

Lemma alter_at_descendants_has_tag t name value pos n :
  Forall (fun x => has_tag t x = false) (descendants n) ->
  Forall (fun x => has_tag t x = false)
         (descendants (alter_at (setAttribute name value) pos n)).
Proof.
  destruct pos as [|i q]; intros H.
  - cbn [alter_at]. by rewrite descendants_setAttribute.
  - destruct n as [tg a c| |]; try done. cbn [alter_at].
    unfold descendants in *. cbn [childNodes] in *.
    apply flat_map_nodes_alter; [|done]. intros x. apply alter_at_has_tag.
Qed.

Section ImageLoop.

Variable env : Env.

(** One round of the loop: it does not fail; the container is as before or
    has one [src] set; a request is sent when the source is not empty. *)
Lemma download_image_step pc (zip : JSZip) img w :
  exists pc1 zip1 w1,
    download_image env (pc, zip) img w = (Ok (pc1, zip1), w1) /\
    (pc1 = pc \/ exists value, pc1 = alter_at (setAttribute "src" value) img pc) /\
    network w1 = if is_empty (image_source env pc img) then network w
                 else GET (image_source env pc img) :: network w.
Proof.
  unfold download_image. fold (image_source env pc img).
  destruct (is_empty (image_source env pc img)) eqn:Hempty.
  { eexists _, _, _. split; [reflexivity|]. split; [by left|reflexivity]. }
  unfold try_catch, fetch_Blob, mbind, M_bind, sent.
  destruct (fetch_blob env (image_source env pc img)) as [b|reason]; simpl.
  - eexists _, _, _. split; [reflexivity|]. split; [right; by eexists|reflexivity].
  - eexists _, _, _. split; [reflexivity|]. split; [by left|reflexivity].
Qed.

Lemma download_images_no_script l : forall pc (zip : JSZip) w,
  Forall (fun n => has_tag "script" n = false) (descendants pc) ->
  match (for_of (download_image env) l (pc, zip) w).1 with
  | Ok (pc', _) => Forall (fun n => has_tag "script" n = false) (descendants pc')
  | Throw _ => False
  end.
Proof.
  induction l as [|img l IH]; intros pc zip w H; [exact H|].
  rewrite for_of_cons.
  destruct (download_image_step pc zip img w) as (pc1 & zip1 & w1 & -> & Hpc & _).
  apply IH. destruct Hpc as [->|[value ->]]; [exact H|].
  by apply alter_at_descendants_has_tag.
Qed.

(** X8. The content container that is serialised into the page holds no
    script: the loop over the images does not fail, and below the
    container it returns for the cleaned one there is no [script]
    element. *)
Theorem packed_content_has_no_script quirks_mode pageContent (zip : JSZip) w :
  match (download_images env (clean quirks_mode pageContent) zip w).1 with
  | Ok (pageContent', _) =>
      Forall (fun n => has_tag "script" n = false) (descendants pageContent')
  | Throw _ => False
  end.
Proof.
  unfold download_images. apply download_images_no_script.
  unfold clean, remove_all. apply prune_has_tag.
Qed.

Lemma image_sources_alter pc img value l :
  img ∉ l ->
  map (image_source env (alter_at (setAttribute "src" value) img pc)) l
  = map (image_source env pc) l.
Proof.
  intros Hnot. apply map_ext_in. intros q Hq. apply image_source_alter.
  intros ->. by apply Hnot, list_elem_of_In.
Qed.

Lemma download_images_network l : forall pc (zip : JSZip) w,
  NoDup l ->
  network (for_of (download_image env) l (pc, zip) w).2
  = (rev (map GET (List.filter (fun src => negb (is_empty src))
                     (map (image_source env pc) l)))
     ++ network w)%list.
Proof.
  induction l as [|img l IH]; intros pc zip w Hnd; [reflexivity|].
  apply NoDup_cons in Hnd as [Hnot Hnd]. rewrite for_of_cons.
  destruct (download_image_step pc zip img w) as (pc1 & zip1 & w1 & -> & Hpc & Hn).
  rewrite (IH pc1 zip1 w1 Hnd), Hn.
  assert (map (image_source env pc1) l = map (image_source env pc) l) as ->.
  { destruct Hpc as [->|[value ->]]; [done|]. by apply image_sources_alter. }
  cbn [map List.filter].
  destruct (is_empty (image_source env pc img)); cbn [negb]; [done|].
  cbn [map rev]. by rewrite <- app_assoc.
Qed.

(** X9. The loop over the images sends one request for each [img] element
    of the container that has a [src] and whose source is not empty, in
    the order of the document, and no other: an element with an empty
    source is passed over, and a picture that several elements show is
    requested once for each of them. *)
Theorem download_images_requests pageContent (zip : JSZip) w :
  let imgs := positions is_img_src pageContent in
  let sources :=
    List.filter (fun src => negb (is_empty src))
                (map (image_source env pageContent) imgs) in
  network (download_images env pageContent zip w).2
  = (rev (map GET sources) ++ network w)%list.
Proof.
  simpl. unfold download_images. apply download_images_network.
  apply positions_NoDup.
Qed.

End ImageLoop.

(** ** The names of the stored images *)

Section ImageNames.

Variable env : Env.

(** X10. The loop over the images stores the images it can fetch, in the
    order of the document, each under [assets/] with a name made of the
    clock reading and the random number taken for it, a dot, and the
    extension [mime] gives for the type of what was fetched; when [mime]
    knows none, the name ends with [.null]. *)
Theorem download_images_names pageContent (zip : JSZip) w :
  exists pageContent' w' (stored : list (list nat * string * Blob)),
    download_images env pageContent zip w
    = (Ok (pageContent', writes (map image_entry stored) zip), w') /\
    map (fun s => s.1.1) stored
    = List.filter (fetchable_image env pageContent)
                  (positions is_img_src pageContent) /\
    forall i img name b,
      stored !! i = Some (img, name, b) ->
      fetch_blob env (image_source env pageContent img) = Fetched b /\
      name = "assets/" +:+ uuid env (readings w + i) +:+ "."
             +:+ default "null" (mime_getExtension env (blob_type b)).
Proof.
  destruct (download_images_loop env (positions is_img_src pageContent)
              pageContent w (positions_NoDup _ _))
    as (pc' & w' & stored & H1 & _ & H3 & _ & _ & H6).
  exists pc', w', stored. split_and!; [apply H6|exact H1|].
  intros i img name b Hi. by apply H3.
Qed.

End ImageNames.

(** ** The loop over the style sheets *)

Lemma append_empty_r (s : string) : s +:+ EmptyString = s.
Proof. induction s as [|a s IH]; [done|]. by rewrite append_cons, IH. Qed.

Lemma local_link_css uuid :
  local_link ("assets/" +:+ uuid +:+ ".css")
  = js "<link rel='stylesheet' href='./assets/" +:+ uuid +:+ js ".css'>".
Proof.
  unfold local_link.
  change (js "<link rel='stylesheet' href='./assets/")
    with (js "<link rel='stylesheet' href='./" +:+ "assets/").
  change (js ".css'>") with (".css" +:+ js "'>").
  by rewrite !append_assoc_string.
Qed.

Section StyleSheets.

Variable env : Env.

(** One round of the loop, for a sheet that arrives and for one that does
    not. *)
Lemma download_stylesheet_stored localLinks (zip : JSZip) link w stylesheet :
  fetch_text env (stylesheet_href env link) = Fetched stylesheet ->
  let name := asset_name env (readings w) "css" in
  download_stylesheet env (localLinks, zip) link w
  = (Ok (localLinks +:+ local_link name,
         <[name := File (TextData stylesheet)]> zip),
     mkWorld (console w) (GET (stylesheet_href env link) :: network w)
             (S (readings w))).
Proof.
  intros Hf name.
  unfold download_stylesheet, try_catch, fetch_string, mbind, M_bind, sent.
  fold (stylesheet_href env link). rewrite Hf. simpl.
  subst name. unfold asset_name. change ("." +:+ "css") with ".css".
  by rewrite local_link_css.
Qed.

Lemma download_stylesheet_skipped localLinks (zip : JSZip) link w reason :
  fetch_text env (stylesheet_href env link) = Rejected reason ->
  download_stylesheet env (localLinks, zip) link w
  = (Ok (localLinks, zip),
     mkWorld (console_error (FetchError reason)
                :: console_info ["样式表下载失败: "; stylesheet_href env link]
                :: console w)
             (GET (stylesheet_href env link) :: network w) (readings w)).
Proof.
  intros Hf.
  unfold download_stylesheet, try_catch, fetch_string, mbind, M_bind, sent.
  fold (stylesheet_href env link). by rewrite Hf.
Qed.

Lemma download_stylesheets_rounds l : forall localLinks w,
  exists (stored : list (string * string)) w',
    network w' = (rev (map GET (map (stylesheet_href env) l)) ++ network w)%list /\
    readings w' = (readings w + length stored)%nat /\
    Forall2 (fun href s => fetch_text env href = Fetched s.2)
            (List.filter (fun href => is_fetched (fetch_text env href))
                         (map (stylesheet_href env) l))
            stored /\
    (forall i s, stored !! i = Some s ->
       s.1 = asset_name env (readings w + i) "css") /\
    forall zip : JSZip,
      for_of (download_stylesheet env) l (localLinks, zip) w
      = (Ok (localLinks +:+ joined (map (fun s => local_link s.1) stored),
             writes (map stylesheet_entry stored) zip), w').
Proof.
  induction l as [|link l IH]; intros localLinks w.
  { exists [], w. split_and!.
    - reflexivity.
    - simpl. lia.
    - constructor.
    - intros i s Hs. discriminate Hs.
    - intros zip. simpl. by rewrite append_empty_r. }
  cbn [map List.filter].
  destruct (fetch_text env (stylesheet_href env link)) as [text|reason] eqn:Hf;
    cbn [is_fetched].
  - set (name := asset_name env (readings w) "css").
    destruct (IH (localLinks +:+ local_link name)
                (mkWorld (console w) (GET (stylesheet_href env link) :: network w)
                         (S (readings w))))
      as (stored & w' & H1 & H2 & H3 & H4 & H5).
    cbn [network readings] in *.
    exists ((name, text) :: stored), w'. split_and!.
    + rewrite H1. cbn [map rev]. by rewrite <- app_assoc.
    + rewrite H2. simpl. lia.
    + by constructor.
    + intros [|i] s Hs; simpl in Hs.
      * injection Hs as <-. simpl. by rewrite Nat.add_0_r.
      * rewrite (H4 _ _ Hs). f_equal. lia.
    + intros zip. rewrite for_of_cons, (download_stylesheet_stored _ _ _ _ _ Hf), H5.
      simpl. by rewrite append_assoc_string.
  - destruct (IH localLinks
                (mkWorld (console_error (FetchError reason)
                            :: console_info ["样式表下载失败: "; stylesheet_href env link]
                            :: console w)
                         (GET (stylesheet_href env link) :: network w) (readings w)))
      as (stored & w' & H1 & H2 & H3 & H4 & H5).
    cbn [network readings] in *.
    exists stored, w'. split_and!; try done.
    + rewrite H1. cbn [map rev]. by rewrite <- app_assoc.
    + intros zip. by rewrite for_of_cons, (download_stylesheet_skipped _ _ _ _ _ Hf), H5.
Qed.

(** X11. The loop over the style sheets does not fail.  It sends one
    request for each [link] element with [rel=stylesheet] under [head], in
    the order of the document, for the address the element stands for,
    whatever it is.  For each sheet that arrives, in that order, it writes
    a file with the sheet's text under the name made at that moment, with
    the extension [css], and adds to the links of the page one that refers
    to this file; a sheet that does not arrive leaves no link. *)
Theorem download_stylesheets_links d (zip : JSZip) w :
  let hrefs := map (stylesheet_href env) (head_links false (documentElement d)) in
  exists (stored : list (string * string)) w',
    download_stylesheets env d zip w
    = (Ok (joined (map (fun s => local_link s.1) stored),
           writes (map stylesheet_entry stored) zip), w') /\
    network w' = (rev (map GET hrefs) ++ network w)%list /\
    readings w' = (readings w + length stored)%nat /\
    Forall2 (fun href s => fetch_text env href = Fetched s.2)
            (List.filter (fun href => is_fetched (fetch_text env href)) hrefs)
            stored /\
    (forall i s, stored !! i = Some s ->
       s.1 = asset_name env (readings w + i) "css").
Proof.
  simpl.
  destruct (download_stylesheets_rounds (head_links false (documentElement d))
              EmptyString w) as (stored & w' & H1 & H2 & H3 & H4 & H5).
  exists stored, w'. split_and!; try done.
  unfold download_stylesheets. by rewrite H5.
Qed.

End StyleSheets.

(** ** The entries of the archive [packHTMLAssets] returns *)

Lemma writes_is_Some_inv ops (zip : JSZip) name :
  is_Some (writes ops zip !! name) ->
  name ∈ map fst ops \/ is_Some (zip !! name).
Proof.
  intros H. destruct (decide (name ∈ map fst ops)) as [Hin|Hnot]; [by left|].
  right. by rewrite writes_lookup_other in H.
Qed.

Lemma writes_keeps ops (zip : JSZip) name :
  is_Some (zip !! name) -> is_Some (writes ops zip !! name).
Proof.
  intros H. destruct (decide (name ∈ map fst ops)) as [Hin|Hnot].
  - by apply writes_is_Some.
  - by rewrite writes_lookup_other.
Qed.

Lemma zip_folder_is_Some (zip : JSZip) folder name :
  is_Some (zip_folder folder zip !! name)
  <-> is_Some (zip !! name) \/ name = folder +:+ "/".
Proof.
  unfold zip_folder. destruct (zip !! (folder +:+ "/")) as [e|] eqn:E.
  - split; [by left|]. intros [H| ->]; [done|]. by rewrite E.
  - destruct (decide (name = folder +:+ "/")) as [->|Hne].
    + rewrite lookup_insert_eq. split; [by right|by eexists].
    + rewrite lookup_insert_ne by done. split; [by left|]. by intros [H|H].
Qed.

Section Entries.

Variable env : Env.

(** X12. The archive a call returns holds every entry of the archive the
    call was given, the folder [assets/] and the page [index.html]; any
    other entry has a name generated during the call, which lies under
    [assets/].  So the call removes nothing, and adds nothing outside
    [assets/] but the page. *)
Theorem packHTMLAssets_entries html zip w zip' w' :
  packHTMLAssets env html zip w = (Ok zip', w') ->
  is_Some (zip' !! "assets/") /\
  is_Some (zip' !! "index.html") /\
  (forall name, is_Some (default ∅ zip !! name) -> is_Some (zip' !! name)) /\
  (forall name, is_Some (zip' !! name) ->
     is_Some (default ∅ zip !! name) \/ name = "assets/" \/ name = "index.html" \/
     generated env (readings w) (readings w') name).
Proof.
  intros Hrun.
  destruct (page_content (parseFromString env html)) as [pageContent|] eqn:Hpc.
  2: { unfold packHTMLAssets in Hrun. rewrite Hpc in Hrun. discriminate Hrun. }
  destruct (packHTMLAssets_run env html w pageContent Hpc)
    as (doc & w1 & ops & Hr & Hg & Hall).
  rewrite Hall in Hrun. injection Hrun as <- <-.
  assert (forall name, is_Some (default ∅ zip !! name) \/ name = "assets/" ->
            is_Some ((<["index.html" := File (TextData doc)]>
                        (writes ops (zip_folder "assets" (default ∅ zip)))) !! name))
    as Hkept.
  { intros name H. destruct (decide (name = "index.html")) as [->|Hne].
    - rewrite lookup_insert_eq. by eexists.
    - rewrite lookup_insert_ne by done. apply writes_keeps, zip_folder_is_Some.
      exact H. }
  split_and!.
  - apply Hkept. by right.
  - rewrite lookup_insert_eq. by eexists.
  - intros name H. apply Hkept. by left.
  - intros name H. destruct (decide (name = "index.html")) as [->|Hne]; [tauto|].
    rewrite lookup_insert_ne in H by done.
    apply writes_is_Some_inv in H as [H|H].
    + right; right; right. rewrite Forall_forall in Hg. by apply Hg.
    + apply zip_folder_is_Some in H as [H|H]; [by left|]. right; left. exact H.
Qed.

End Entries.

(** ** What the expression for background URLs matches *)

Lemma run_Seq {R : Type} r1 r2 s caps (k : string -> list string -> option R) :
  run (Seq r1 r2) s caps k = run r1 s caps (fun s' caps' => run r2 s' caps' k).
Proof. reflexivity. Qed.

Lemma run_Group {R : Type} r s caps (k : string -> list string -> option R) :
  run (Group r) s caps k
  = run r s caps (fun s' caps' => k s' (caps' ++ [consumed s s'])%list).
Proof. reflexivity. Qed.

Lemma run_PlusLazy {R : Type} r s caps (k : string -> list string -> option R) :
  run (PlusLazy r) s caps k = lazy_plus (run r) k (S (String.length s)) s caps.
Proof. reflexivity. Qed.

Lemma run_Opt {R : Type} r s caps (k : string -> list string -> option R) res :
  run (Opt r) s caps k = Some res ->
  run r s caps k = Some res \/ k s caps = Some res.
Proof. cbn [run]. destruct (run r s caps k); [by left|by right]. Qed.

Lemma has_char_app c (s t : string) :
  has_char c (s +:+ t) = (has_char c s || has_char c t)%bool.
Proof.
  induction s as [|a s IH]; [done|]. rewrite append_cons. simpl.
  by rewrite IH, orb_assoc.
Qed.

(** [[^c]+?] consumes one character or more, none of them [c]. *)
Lemma lazy_plus_NoneOf {R : Type} c (k : string -> list string -> option R) fuel :
  forall s caps res,
    lazy_plus (run (NoneOf c)) k fuel s caps = Some res ->
    exists a pre s',
      s = String a pre +:+ s' /\ has_char c (String a pre) = false /\
      k s' caps = Some res.
Proof.
  induction fuel as [|fuel IH]; intros s caps res H; [discriminate H|].
  cbn [lazy_plus run] in H. destruct s as [|a s']; [discriminate H|].
  destruct (Ascii.eqb a c) eqn:E; [discriminate H|].
  destruct (String.length s' <? String.length (String a s'))%nat; [|discriminate H].
  destruct (k s' caps) as [x|] eqn:Ek.
  - injection H as <-. exists a, EmptyString, s'. split_and!; [done| |done].
    simpl. by rewrite E.
  - apply IH in H as (b & pre & s'' & -> & Hc & Hk).
    exists a, (String b pre), s''. split_and!; [done| |done].
    cbn [has_char] in *. by rewrite E, Hc.
Qed.

(** The second group: [http], [https] or two slashes, then one character
    or more, none of them a closing parenthesis. *)
Lemma remote_url_continues {R : Type} s caps
    (k : string -> list string -> option R) res :
  run remote_url s caps k = Some res ->
  exists scheme a body s',
    s = scheme +:+ String a body +:+ s' /\
    scheme ∈ ["http"; "https"; "//"] /\
    has_char ")" (String a body) = false /\
    k s' caps = Some res.
Proof.
  unfold remote_url. rewrite run_Seq. intros H.
  apply run_Alt in H as [H|H].
  - rewrite run_Seq in H. apply run_Lit in H as (s0 & -> & H).
    apply run_Opt in H as [H|H].
    + apply run_Lit in H as (s1 & -> & H). rewrite run_PlusLazy in H.
      apply lazy_plus_NoneOf in H as (a & body & s' & -> & Hc & Hk).
      exists "https", a, body, s'. split_and!; [done| |done|done].
      repeat constructor.
    + rewrite run_PlusLazy in H.
      apply lazy_plus_NoneOf in H as (a & body & s' & -> & Hc & Hk).
      exists "http", a, body, s'. split_and!; [done| |done|done].
      repeat constructor.
  - apply run_Lit in H as (s0 & -> & H). rewrite run_PlusLazy in H.
    apply lazy_plus_NoneOf in H as (a & body & s' & -> & Hc & Hk).
    exists "//", a, body, s'. split_and!; [done| |done|done].
    repeat constructor.
Qed.

(** The first group: the property, a colon, a space, [url(] and perhaps an
    escaped quote. *)
Lemma declaration_start_shape {R : Type} s caps
    (k : string -> list string -> option R) res :
  run declaration_start s caps k = Some res ->
  exists property quote s',
    s = (property +:+ ": url(" +:+ quote) +:+ s' /\
    property ∈ ["background"; "background-image"] /\
    quote ∈ [EmptyString; "&quot;"] /\
    k s' caps = Some res.
Proof.
  unfold declaration_start. rewrite run_Seq. intros H.
  assert (exists property s0,
            s = property +:+ s0 /\ property ∈ ["background"; "background-image"] /\
            run (Seq (Lit ": url(") (Opt (Lit "&quot;"))) s0 caps k = Some res)
    as (property & s0 & -> & Hp & H0).
  { apply run_Alt in H as [H|H]; apply run_Lit in H as (s0 & -> & H);
      eexists _, s0; (split_and!; [reflexivity| |exact H]); repeat constructor. }
  rewrite run_Seq in H0. apply run_Lit in H0 as (s1 & -> & H0).
  apply run_Opt in H0 as [H0|H0].
  - apply run_Lit in H0 as (s2 & -> & H0).
    exists property, "&quot;", s2. split_and!; [|done| |done]; [|repeat constructor].
    by rewrite !append_assoc_string.
  - exists property, EmptyString, s1. split_and!; [|done| |done]; [|repeat constructor].
    by rewrite !append_assoc_string.
Qed.

(** The third group: perhaps an escaped quote, and the closing
    parenthesis. *)
Lemma declaration_end_shape {R : Type} s caps
    (k : string -> list string -> option R) res :
  run declaration_end s caps k = Some res ->
  exists quote s',
    s = (quote +:+ ")") +:+ s' /\ quote ∈ [EmptyString; "&quot;"] /\
    k s' caps = Some res.
Proof.
  unfold declaration_end. rewrite run_Seq. intros H.
  apply run_Opt in H as [H|H].
  - apply run_Lit in H as (s1 & -> & H). apply run_Lit in H as (s2 & -> & H).
    exists "&quot;", s2. split_and!; [done| |done]. repeat constructor.
  - apply run_Lit in H as (s2 & -> & H).
    exists EmptyString, s2. split_and!; [done| |done]. repeat constructor.
Qed.

Lemma http_or_slashes_scheme scheme rest :
  scheme ∈ ["http"; "https"; "//"] -> http_or_slashes (scheme +:+ rest) = true.
Proof.
  intros H. repeat (apply elem_of_cons in H as [->|H]); try reflexivity.
  by apply elem_of_nil in H.
Qed.

Lemma has_char_scheme scheme :
  scheme ∈ ["http"; "https"; "//"] -> has_char ")" scheme = false.
Proof.
  intros H. repeat (apply elem_of_cons in H as [->|H]); try reflexivity.
  by apply elem_of_nil in H.
Qed.

(** A match, group by group. *)
Lemma background_url_shape s caps rest :
  exec_here background_url s = Some (caps, rest) ->
  exists property quote url quote',
    caps = [property +:+ ": url(" +:+ quote; url; quote' +:+ ")"] /\
    property ∈ ["background"; "background-image"] /\
    quote ∈ [EmptyString; "&quot;"] /\
    quote' ∈ [EmptyString; "&quot;"] /\
    http_or_slashes url = true /\ has_char ")" url = false.
Proof.
  unfold exec_here, background_url. rewrite run_Seq, run_Group. intros H.
  apply declaration_start_shape in H as (property & quote & s1 & -> & Hp & Hq & H).
  rewrite run_Seq, run_Group in H.
  apply remote_url_continues in H as (scheme & a & body & s2 & -> & Hs & Hc & H).
  rewrite run_Group in H.
  apply declaration_end_shape in H as (quote' & s3 & -> & Hq' & H).
  injection H as <- <-.
  exists property, quote, (scheme +:+ String a body), quote'.
  split_and!; try done.
  - rewrite !consumed_app.
    by rewrite <- (append_assoc_string scheme (String a body)), consumed_app.
  - by apply http_or_slashes_scheme.
  - by rewrite has_char_app, has_char_scheme, Hc.
Qed.

Lemma background_urls_start html : forall skip,
  Forall (fun url => http_or_slashes url = true /\ has_char ")" url = false)
         (urls_in (pieces background_url html skip)).
Proof.
  induction html as [|c s IH]; intros skip; [constructor|].
  destruct skip as [|n]; cbn [pieces]; [|apply IH].
  destruct (exec_here background_url (String c s)) as [[caps rest]|] eqn:E.
  - cbn [urls_in]. constructor; [|apply IH].
    apply background_url_shape in E
      as (property & quote & url & quote' & -> & _ & _ & _ & H1 & H2). done.
  - cbn [urls_in]. apply IH.
Qed.

Section BackgroundRequests.

Variable env : Env.

(** X13. Every request of the pass over the backgrounds is for an address
    that starts with [http] or with two slashes and holds no closing
    parenthesis; an address that starts otherwise, as a [data:] URL does,
    is not requested by the pass. *)
Theorem download_backgrounds_requests_start pageContentHTML (zip : JSZip) w :
  exists urls,
    network (download_backgrounds env pageContentHTML zip w).2
    = (rev (map GET urls) ++ network w)%list /\
    Forall (fun url => http_or_slashes url = true /\ has_char ")" url = false)
           urls /\
    forall url, http_or_slashes url = false -> url ∉ urls.
Proof.
  destruct (download_backgrounds_run env pageContentHTML w)
    as (m & w' & ops & H1 & _ & _ & _ & _ & H6).
  destruct (background_urls pageContentHTML) as [_ Hfound].
  assert (forall url,
            url ∈ (replaceAll background_url collect_url pageContentHTML []).2 ->
            http_or_slashes url = true /\ has_char ")" url = false) as Hall.
  { intros url Hin. apply Hfound in Hin.
    pose proof (background_urls_start pageContentHTML 0) as H.
    rewrite Forall_forall in H. by apply H. }
  eexists. rewrite H6. split_and!; [exact H1| |].
  - apply Forall_forall. exact Hall.
  - intros url Hno Hin. destruct (Hall url Hin) as [Hyes _]. congruence.
Qed.

End BackgroundRequests.

(** ** What the expression for background URLs captures *)

Lemma append_empty_l (s : string) : EmptyString +:+ s = s.
Proof. reflexivity. Qed.

Lemma strip_prefix_app t s : strip_prefix t (t +:+ s) = Some s.
Proof.
  induction t as [|a t IH]; [done|]. rewrite append_cons. simpl.
  by rewrite Ascii.eqb_refl.
Qed.

Lemma run_Lit_here {R : Type} t s caps (k : string -> list string -> option R) :
  run (Lit t) (t +:+ s) caps k = k s caps.
Proof. cbn [run]. by rewrite strip_prefix_app. Qed.

Lemma run_Lit_fails {R : Type} t s caps (k : string -> list string -> option R) :
  strip_prefix t s = None -> run (Lit t) s caps k = None.
Proof. cbn [run]. by intros ->. Qed.

(** Where a character first occurs in a text. *)
Lemma first_occurrence c : forall (x y u v : string),
  has_char c x = false -> has_char c y = false ->
  x +:+ String c u = y +:+ String c v -> x = y.
Proof.
  induction x as [|a x IH]; intros [|b y] u v Hx Hy H.
  - reflexivity.
  - rewrite append_cons in H. injection H as <- _. cbn [has_char] in Hy.
    by rewrite Ascii.eqb_refl in Hy.
  - rewrite append_cons in H. injection H as -> _. cbn [has_char] in Hx.
    by rewrite Ascii.eqb_refl in Hx.
  - rewrite !append_cons in H. injection H as -> H. cbn [has_char] in Hx, Hy.
    apply orb_false_elim in Hx as [_ Hx]. apply orb_false_elim in Hy as [_ Hy].
    by rewrite (IH y u v Hx Hy H).
Qed.

(** [[^c]+?] stops where its continuation first succeeds. *)
Lemma lazy_plus_NoneOf_first {R : Type} c
    (k : string -> list string -> option R) s' caps res : forall pre fuel,
  pre <> EmptyString ->
  has_char c pre = false ->
  (String.length pre <= fuel)%nat ->
  (forall x y, pre = x +:+ y -> x <> EmptyString -> y <> EmptyString ->
     k (y +:+ s') caps = None) ->
  k s' caps = Some res ->
  lazy_plus (run (NoneOf c)) k fuel (pre +:+ s') caps = Some res.
Proof.
  induction pre as [|a p IH]; intros fuel Hne Hc Hfuel Hnone Hk; [done|].
  destruct fuel as [|fuel]; [simpl in Hfuel; lia|].
  cbn [has_char] in Hc. apply orb_false_elim in Hc as [Ha Hc].
  rewrite append_cons. cbn [lazy_plus run]. rewrite Ha.
  replace (String.length (p +:+ s') <? String.length (String a (p +:+ s')))%nat
    with true by (symmetry; apply Nat.ltb_lt; simpl; lia).
  destruct p as [|b p].
  - rewrite append_empty_l. by rewrite Hk.
  - rewrite (Hnone (String a EmptyString) (String b p)); try done.
    apply IH; try done.
    + simpl in *. lia.
    + intros x y Hxy Hx Hy. apply (Hnone (String a x) y); try done.
      by rewrite append_cons, Hxy.
Qed.

Lemma run_Opt_unfold {R : Type} r s caps (k : string -> list string -> option R) :
  run (Opt r) s caps k
  = match run r s caps k with Some x => Some x | None => k s caps end.
Proof. reflexivity. Qed.

Lemma run_Alt_unfold {R : Type} r1 r2 s caps (k : string -> list string -> option R) :
  run (Alt r1 r2) s caps k
  = match run r1 s caps k with Some x => Some x | None => run r2 s caps k end.
Proof. reflexivity. Qed.

(** The third group where it stands, and where it does not. *)
Lemma declaration_end_here {R : Type} quote s caps
    (k : string -> list string -> option R) :
  quote ∈ [EmptyString; "&quot;"] ->
  run declaration_end (quote +:+ ")" +:+ s) caps k = k s caps.
Proof.
  intros Hq. unfold declaration_end. rewrite run_Seq, run_Opt_unfold.
  apply elem_of_cons in Hq as [->|Hq].
  - rewrite append_empty_l. rewrite (run_Lit_fails "&quot;") by done.
    apply run_Lit_here.
  - apply list_elem_of_singleton in Hq as ->.
    rewrite (run_Lit_here "&quot;"), (run_Lit_here ")").
    destruct (k s caps); [done|]. by apply run_Lit_fails.
Qed.

Lemma strip_prefix_split a b s :
  strip_prefix (a +:+ b) s = strip_prefix a s ≫= strip_prefix b.
Proof.
  revert s. induction a as [|x a IH]; intros s; [done|].
  rewrite append_cons. simpl. destruct s as [|y s]; [done|].
  destruct (Ascii.eqb x y); [apply IH|done].
Qed.

Lemma declaration_end_fails {R : Type} s caps
    (k : string -> list string -> option R) :
  strip_prefix ")" s = None ->
  strip_prefix "&quot;)" s = None ->
  run declaration_end s caps k = None.
Proof.
  intros H1 H2. unfold declaration_end. rewrite run_Seq, run_Opt_unfold.
  rewrite (run_Lit_fails ")" s) by done.
  change "&quot;)" with ("&quot;" +:+ ")") in H2. rewrite strip_prefix_split in H2.
  destruct (strip_prefix "&quot;" s) as [s'|] eqn:E.
  - apply strip_prefix_Some in E as ->. rewrite run_Lit_here.
    by rewrite run_Lit_fails.
  - by rewrite run_Lit_fails.
Qed.

(** A text that goes on after a part of the address does not start as the
    third group does. *)
Lemma inside_address y quote rest body :
  y <> EmptyString ->
  has_char ")" y = false ->
  quote ∈ [EmptyString; "&quot;"] ->
  (exists pre, body = pre +:+ y) ->
  (quote = EmptyString -> forall pre, body <> pre +:+ "&quot;") ->
  strip_prefix ")" (y +:+ quote +:+ ")" +:+ rest) = None /\
  strip_prefix "&quot;)" (y +:+ quote +:+ ")" +:+ rest) = None.
Proof.
  intros Hy Hc Hq [pre Hbody] Hend. split.
  - destruct y as [|a y]; [done|]. rewrite append_cons. cbn [has_char] in Hc.
    apply orb_false_elim in Hc as [Ha _]. cbn [strip_prefix].
    rewrite Ascii.eqb_sym in Ha. by rewrite Ha.
  - destruct (strip_prefix "&quot;)" (y +:+ quote +:+ ")" +:+ rest)) as [r|] eqn:E;
      [exfalso|done].
    apply strip_prefix_Some in E.
    change ("&quot;)" +:+ r) with ("&quot;" +:+ String ")" r) in E.
    change (")" +:+ rest) with (String ")" rest) in E.
    rewrite <- append_assoc_string in E.
    apply first_occurrence in E; [|by rewrite has_char_app, Hc;
      repeat (apply elem_of_cons in Hq as [->|Hq]); try done;
      by apply elem_of_nil in Hq|done].
    apply elem_of_cons in Hq as [->|Hq].
    + rewrite append_empty_r in E. subst y. by apply (Hend eq_refl pre).
    + apply list_elem_of_singleton in Hq as ->.
      apply (f_equal String.length) in E. rewrite length_append_string in E.
      destruct y; [done|]. simpl in E. lia.
Qed.

(** The second group on an address, up to where the third group starts. *)
Lemma remote_url_here {R : Type} scheme body quote rest caps
    (k : string -> list string -> option R) res :
  scheme ∈ ["http:"; "https:"; "//"] ->
  body <> EmptyString ->
  has_char ")" body = false ->
  quote ∈ [EmptyString; "&quot;"] ->
  (quote = EmptyString -> forall pre, body <> pre +:+ "&quot;") ->
  (forall s, strip_prefix ")" s = None -> strip_prefix "&quot;)" s = None ->
     k s caps = None) ->
  k (quote +:+ ")" +:+ rest) caps = Some res ->
  run remote_url ((scheme +:+ body) +:+ quote +:+ ")" +:+ rest) caps k = Some res.
Proof.
  intros Hs Hne Hc Hq Hend Hfails Hk.
  assert (forall colon,
            colon ∈ [EmptyString; ":"] ->
            run (PlusLazy (NoneOf ")")) ((colon +:+ body) +:+ quote +:+ ")" +:+ rest)
                caps k = Some res) as Hlazy.
  { intros colon Hcolon. rewrite run_PlusLazy.
    apply lazy_plus_NoneOf_first; try done.
    - intros H. apply (f_equal String.length) in H.
      rewrite length_append_string in H. destruct body; [done|].
      simpl in H. lia.
    - rewrite has_char_app, Hc.
      repeat (apply elem_of_cons in Hcolon as [->|Hcolon]); try done.
      by apply elem_of_nil in Hcolon.
    - rewrite !length_append_string. lia.
    - intros x y Hxy Hx Hy.
      assert (exists pre, body = pre +:+ y) as Hsuffix.
      { apply elem_of_cons in Hcolon as [->|Hcolon].
        - rewrite append_empty_l in Hxy. by exists x.
        - apply list_elem_of_singleton in Hcolon as ->.
          destruct x as [|a x]; [done|]. rewrite !append_cons in Hxy.
          injection Hxy as <- Hxy. by exists x. }
      assert (has_char ")" y = false) as Hcy.
      { destruct Hsuffix as [pre ->]. rewrite has_char_app in Hc.
        by apply orb_false_elim in Hc as [_ Hc]. }
      destruct (inside_address y quote rest body Hy Hcy Hq Hsuffix Hend) as [H1 H2].
      by apply Hfails. }
  unfold remote_url. rewrite run_Seq, run_Alt_unfold, run_Seq.
  repeat (apply elem_of_cons in Hs as [->|Hs]); [| | |by apply elem_of_nil in Hs].
  - change "http:" with ("http" +:+ ":"). rewrite !append_assoc_string.
    rewrite run_Lit_here, run_Opt_unfold, (run_Lit_fails "s") by done.
    rewrite <- (append_assoc_string ":" body).
    rewrite (Hlazy ":"); [done|repeat constructor].
  - change "https:" with ("http" +:+ "s" +:+ ":"). rewrite !append_assoc_string.
    rewrite run_Lit_here, run_Opt_unfold, run_Lit_here.
    rewrite <- (append_assoc_string ":" body).
    rewrite (Hlazy ":"); [done|repeat constructor].
  - rewrite !append_assoc_string.
    rewrite (run_Lit_fails "http") by done. rewrite run_Lit_here.
    apply (Hlazy EmptyString). repeat constructor.
Qed.

(** The first group where a declaration starts. *)
Lemma declaration_start_here {R : Type} property quote s caps
    (k : string -> list string -> option R) res :
  property ∈ ["background"; "background-image"] ->
  quote ∈ [EmptyString; "&quot;"] ->
  (quote = EmptyString -> strip_prefix "&quot;" s = None) ->
  k s caps = Some res ->
  run declaration_start (property +:+ ": url(" +:+ quote +:+ s) caps k = Some res.
Proof.
  intros Hp Hq Hbare Hk.
  assert (run (Seq (Lit ": url(") (Opt (Lit "&quot;")))
              (": url(" +:+ quote +:+ s) caps k = Some res) as Hrest.
  { rewrite run_Seq, run_Lit_here, run_Opt_unfold.
    apply elem_of_cons in Hq as [->|Hq].
    - rewrite append_empty_l. by rewrite run_Lit_fails by by apply Hbare.
    - apply list_elem_of_singleton in Hq as ->. by rewrite run_Lit_here, Hk. }
  unfold declaration_start. rewrite run_Seq, run_Alt_unfold.
  apply elem_of_cons in Hp as [->|Hp].
  - by rewrite run_Lit_here, Hrest.
  - apply list_elem_of_singleton in Hp as ->.
    change "background-image" with ("background" +:+ "-image") at 1.
    rewrite append_assoc_string, run_Lit_here.
    rewrite run_Seq, (run_Lit_fails ": url(") by done.
    by rewrite run_Lit_here, Hrest.
Qed.

(** X14. A declaration [background: url(U)] or [background-image: url(U)],
    the address [U] bare or between two escaped quotes, is matched where it
    starts, and the three groups are the text up to the address, the
    address, and the text from there to the closing parenthesis, when [U]
    starts with [http:], [https:] or two slashes, goes on with one
    character at least, holds no closing parenthesis and, if bare, does
    not end with an escaped quote. *)
Theorem background_url_captures property quote scheme body rest :
  property ∈ ["background"; "background-image"] ->
  quote ∈ [EmptyString; "&quot;"] ->
  scheme ∈ ["http:"; "https:"; "//"] ->
  body <> EmptyString ->
  has_char ")" body = false ->
  (quote = EmptyString -> forall pre, body <> pre +:+ "&quot;") ->
  let url := scheme +:+ body in
  exec_here background_url
    (property +:+ ": url(" +:+ quote +:+ url +:+ quote +:+ ")" +:+ rest)
  = Some ([property +:+ ": url(" +:+ quote; url; quote +:+ ")"], rest).
Proof.
  intros Hp Hq Hs Hne Hc Hend url.
  unfold exec_here, background_url. rewrite run_Seq, run_Group.
  set (text := property +:+ ": url(" +:+ quote +:+ url +:+ quote +:+ ")" +:+ rest).
  apply declaration_start_here; try done.
  { intros _. subst url.
    repeat (apply elem_of_cons in Hs as [->|Hs]); try done.
    by apply elem_of_nil in Hs. }
  cbn beta. rewrite run_Seq, run_Group.
  assert (consumed text (url +:+ quote +:+ ")" +:+ rest)
          = property +:+ ": url(" +:+ quote) as ->.
  { subst text.
    rewrite <- (append_assoc_string ": url(" quote).
    rewrite <- (append_assoc_string property (": url(" +:+ quote)).
    apply consumed_app. }
  subst url. apply remote_url_here; try done.
  - intros s H1 H2. rewrite run_Group. by apply declaration_end_fails.
  - rewrite run_Group, declaration_end_here by done.
    rewrite consumed_app.
    rewrite <- (append_assoc_string quote ")" rest), consumed_app. done.
Qed.

(** ** A text without background URLs *)

Lemma replace_pieces_plain {St : Type}
    (cb : string -> list string -> St -> string * St) l st :
  urls_in l = [] -> replace_pieces cb l st = (text_of l, st).
Proof.
  induction l as [|[c|text caps] l IH]; intros H; [done| |discriminate H].
  rewrite replace_pieces_Plain, IH by exact H. reflexivity.
Qed.

Section NoBackground.

Variable env : Env.

(** X15. On a text in which the expression for background URLs finds no
    match, the pass over the backgrounds does nothing: it returns the text
    and the archive as they are, sends no request, logs nothing and does
    not read the clock. *)
Theorem download_backgrounds_nothing_to_do pageContentHTML (zip : JSZip) w :
  urls_in (pieces background_url pageContentHTML 0) = [] ->
  download_backgrounds env pageContentHTML zip w = (Ok (pageContentHTML, zip), w).
Proof.
  intros H. unfold download_backgrounds, replaceAll.
  rewrite (replace_pieces_plain collect_url _ _ H). cbn [snd for_of].
  unfold mbind at 1. unfold M_bind. cbn [mret M_ret].
  unfold rewrite_backgrounds, replaceAll, mbind, M_bind.
  rewrite (replace_pieces_plain (rewrite_url ∅) _ _ H).
  by rewrite background_pieces_cover.
Qed.

End NoBackground.

(** ** The requests of a whole call of [packHTMLAssets] *)

Section PackRequests.

Variable env : Env.

(** X16. A call on a page without the content container sends nothing.
    On a page that has it, the call sends the requests of the loop over
    the images of the cleaned container, then one request for each
    different background URL found in what the container serialises to
    once the images are set, then the requests for the style sheets of
    the document, in this order, and no other. *)
Theorem packHTMLAssets_requests html zip w :
  let d := parseFromString env html in
  let run := packHTMLAssets env html zip w in
  match page_content d with
  | None => network run.2 = network w
  | Some pageContent =>
      let cleaned := clean (quirks d) pageContent in
      let sources :=
        List.filter (fun src => negb (is_empty src))
          (map (image_source env cleaned) (positions is_img_src cleaned)) in
      exists pageContent' zip1,
        (download_images env cleaned (zip_folder "assets" (default ∅ zip)) w).1
          = Ok (pageContent', zip1) /\
        let backgrounds :=
          (replaceAll background_url collect_url (outerHTML env pageContent') []).2 in
        let hrefs :=
          map (stylesheet_href env)
            (head_links false
               (documentElement
                  (document_with (has_id (quirks d) "page-content")
                                 pageContent' d))) in
        network run.2
        = (rev (map GET (sources ++ backgrounds ++ hrefs)) ++ network w)%list
  end.
Proof.
  intros d run. subst run.
  destruct (page_content d) as [pageContent|] eqn:Hpc.
  2: { unfold packHTMLAssets. fold d. by rewrite Hpc. }
  intros cleaned sources.
  set (zip0 := zip_folder "assets" (default ∅ zip)).
  destruct (download_images_writes env cleaned w)
    as (pc1 & w1 & ops1 & _ & _ & Hrun1).
  pose proof (download_images_network env (positions is_img_src cleaned)
                cleaned zip0 w (positions_NoDup _ _)) as Hn1.
  fold (download_images env cleaned zip0 w) in Hn1. fold sources in Hn1.
  rewrite Hrun1 in Hn1. cbn [snd] in Hn1.
  destruct (download_backgrounds_run env (outerHTML env pc1) w1)
    as (m & w2 & ops2 & Hn2 & _ & _ & _ & _ & Hrun2).
  destruct (download_stylesheets_rounds env
              (head_links false
                 (documentElement
                    (document_with (has_id (quirks d) "page-content") pc1 d)))
              EmptyString w2)
    as (stored & w3 & Hn3 & _ & _ & _ & Hrun3).
  exists pc1, (writes ops1 zip0). split; [by rewrite Hrun1|].
  intros backgrounds hrefs.
  unfold packHTMLAssets. fold d. rewrite Hpc. fold cleaned. fold zip0.
  unfold mbind at 1. unfold M_bind. rewrite Hrun1.
  unfold mbind at 1. unfold M_bind. rewrite Hrun2.
  unfold mbind at 1. unfold M_bind. unfold download_stylesheets.
  rewrite Hrun3. cbn [snd mret M_ret].
  rewrite Hn3, Hn2, Hn1. subst backgrounds hrefs.
  rewrite !map_app, !rev_app_distr, <- !app_assoc. reflexivity.
Qed.

End PackRequests.

(** ** What [getArticleList] sends and what it flattens *)

Section ArticleListEffects.

Variable env : Env.
Variables (fakeid token : string) (page : option Z) (keyword : option string).

(** X18. Whatever the answer, the call sends one request, to the listing
    address, asking for the account and the token it was given, for page 1
    unless another is given, for 20 entries, and for the keyword or the
    empty text; it logs nothing and does not read the clock. *)
Theorem getArticleList_effects w :
  let run := getArticleList env fakeid token page keyword w in
  network run.2
  = GET_query "/api/appmsgpublish"
      (mkQuery fakeid token (default 1 page) 20 (default EmptyString keyword))
    :: network w /\
  console run.2 = console w /\
  readings run.2 = readings w.
Proof.
  simpl.
  destruct (fetch_appmsgpublish env "/api/appmsgpublish"
              (listing_query fakeid token page keyword)) as [resp|reason] eqn:Hf.
  - by rewrite (getArticleList_fetched _ _ _ _ _ _ _ Hf).
  - by rewrite (getArticleList_rejected _ _ _ _ _ _ _ Hf).
Qed.

Lemma Array_flatMap_values items values :
  Forall2 (inner_value env) items values ->
  Array_flatMap (appmsgex_of env) items = Ok (flat_map flatten1 values).
Proof.
  induction 1 as [|item v items values (props & text & fields & -> & Ht & Hp & ->) _ IH];
    [reflexivity|].
  cbn [Array_flatMap flat_map]. rewrite IH.
  unfold appmsgex_of, parse. simpl. rewrite Ht. simpl. by rewrite Hp.
Qed.

(** X19. With code 0 the values are flattened by one level and no more.
    An entry that is kept, whose [publish_info] text stands for an object,
    gives the elements of its [appmsgex] when that is a list (a list among
    them stays a list), the value itself when it is no list, and one
    [undefined] when the object has no [appmsgex]. *)
Theorem getArticleList_flattens_one_level w resp fields items values :
  fetch_appmsgpublish env "/api/appmsgpublish"
    (listing_query fakeid token page keyword) = Fetched resp ->
  ret (base_resp resp) = 0 ->
  JSON_parse env (JStr (publish_page resp)) = Some (JObj fields) ->
  assoc "publish_list" fields = Some (JArr items) ->
  Forall declared_entry items ->
  Forall2 (inner_value env) (with_publish_info items) values ->
  (getArticleList env fakeid token page keyword w).1
  = Ok (flat_map flatten1 values).
Proof.
  intros Hf Hret Hpg Hlist Hdecl Hinner.
  rewrite (getArticleList_fetched _ _ _ _ _ _ _ Hf), Hret. simpl.
  unfold decode_publish_page, parse. rewrite Hpg. simpl. rewrite Hlist. simpl.
  rewrite (Array_filter_declared _ Hdecl). simpl.
  destruct (with_publish_info items) eqn:Hkept.
  - inversion Hinner. reflexivity.
  - rewrite <- Hkept in *. 
    replace (Z.of_nat (length (with_publish_info items)) =? 0) with false
      by (rewrite Hkept; reflexivity).
    by apply Array_flatMap_values.
Qed.

End ArticleListEffects.

(** * The account of a call *)

(** ** The files of a sequence of outcomes *)

Lemma named_files_app env l1 : forall k l2,
  named_files env k (l1 ++ l2)
  = (named_files env k l1
     ++ named_files env (k + length (named_files env k l1)) l2)%list.
Proof.
  induction l1 as [|[[ext data]|] l1 IH]; intros k l2.
  - simpl. by rewrite Nat.add_0_r.
  - cbn [app named_files length]. rewrite IH. by rewrite Nat.add_succ_r.
  - cbn [app named_files]. apply IH.
Qed.

(** Every one of them is a file under [assets/]. *)
Lemma named_files_elem env l : forall k name e,
  (name, e) ∈ named_files env k l ->
  (exists rest, name = "assets/" +:+ rest) /\ exists data, e = File data.
Proof.
  induction l as [|[[ext data]|] l IH]; intros k name e Hin; cbn [named_files] in Hin.
  - by apply elem_of_nil in Hin.
  - apply elem_of_cons in Hin as [[= -> ->]|Hin]; [|by eapply IH].
    split; by eexists.
  - by eapply IH.
Qed.

Lemma named_files_generated env l : forall k name,
  name ∈ map fst (named_files env k l) ->
  generated env k (k + length (named_files env k l)) name.
Proof.
  induction l as [|[[ext data]|] l IH]; intros k name Hin; cbn [named_files] in *.
  - by apply elem_of_nil in Hin.
  - cbn [map fst length] in *. apply elem_of_cons in Hin as [->|Hin].
    + exists k, ext. split; [lia|done].
    + apply IH in Hin. eapply generated_weaken; [exact Hin|lia|lia].
  - by apply IH.
Qed.

(** What is found in an archive under a name that was written. *)
Lemma writes_lookup_written ops : forall (zip : JSZip) name,
  name ∈ map fst ops ->
  exists e, (name, e) ∈ ops /\ writes ops zip !! name = Some e.
Proof.
  induction ops as [|[n e] ops IH]; intros zip name Hin.
  - by apply elem_of_nil in Hin.
  - cbn [map fst] in Hin. simpl.
    destruct (decide (name ∈ map fst ops)) as [Hlater|Hnot].
    + destruct (IH (<[n := e]> zip) name Hlater) as (e' & He' & Hl).
      exists e'. split; [by right|exact Hl].
    + apply elem_of_cons in Hin as [->|Hin]; [|done].
      exists e. split; [by left|].
      rewrite writes_lookup_other by done. apply lookup_insert_eq.
Qed.

(** ** The loop over the images *)

Section Account.

Variable env : Env.

Lemma fetchable_image_outcome pc img :
  match image_outcome env pc img with
  | Some (ext, data) =>
      fetchable_image env pc img = true /\
      exists b, fetch_blob env (image_source env pc img) = Fetched b /\
                ext = blob_ext env b /\ data = BlobData b
  | None => fetchable_image env pc img = false
  end.
Proof.
  unfold image_outcome, fetchable_image.
  destruct (is_empty (image_source env pc img)); [done|].
  destruct (fetch_blob env (image_source env pc img)) as [b|reason]; [|done].
  split; [done|]. by exists b.
Qed.

(** The images the loop stores are the files of the outcomes of its
    rounds. *)
Lemma stored_named pc l : forall (stored : list (list nat * string * Blob)) k,
  map (fun s => s.1.1) stored = List.filter (fetchable_image env pc) l ->
  (forall i img name b, stored !! i = Some (img, name, b) ->
     fetch_blob env (image_source env pc img) = Fetched b /\
     name = asset_name env (k + i) (blob_ext env b)) ->
  map image_entry stored = named_files env k (map (image_outcome env pc) l).
Proof.
  induction l as [|img l IH]; intros stored k Hwhich Hnames.
  - destruct stored; [done|discriminate Hwhich].
  - cbn [List.filter map] in *.
    pose proof (fetchable_image_outcome pc img) as Hout.
    destruct (image_outcome env pc img) as [[ext data]|].
    + destruct Hout as (Hyes & b & Hb & -> & ->). rewrite Hyes in Hwhich.
      destruct stored as [|[[img' name'] b'] stored]; [discriminate Hwhich|].
      cbn [map fst] in Hwhich. injection Hwhich as -> Hwhich.
      destruct (Hnames 0%nat img name' b' eq_refl) as [Hb' ->].
      rewrite Hb in Hb'. injection Hb' as <-.
      cbn [named_files map]. rewrite Nat.add_0_r. unfold image_entry at 1.
      cbn [fst snd]. f_equal. apply IH; [exact Hwhich|].
      intros i img0 name0 b0 Hi.
      destruct (Hnames (S i) img0 name0 b0 Hi) as [H1 ->].
      split; [done|]. f_equal. lia.
    + rewrite Hout in Hwhich. cbn [named_files]. by apply IH.
Qed.

Lemma download_images_account pc w :
  let files :=
    named_files env (readings w)
      (map (image_outcome env pc) (positions is_img_src pc)) in
  exists w' (stored : list (list nat * string * Blob)),
    map image_entry stored = files /\
    readings w' = (readings w + length files)%nat /\
    map (fun s => s.1.1) stored
    = List.filter (fetchable_image env pc) (positions is_img_src pc) /\
    (forall i img name b, stored !! i = Some (img, name, b) ->
       fetch_blob env (image_source env pc img) = Fetched b /\
       name = asset_name env (readings w + i) (blob_ext env b)) /\
    (forall img name b, (img, name, b) ∈ stored ->
       attr_at "src" img (after_images env pc w) = Some ("./" +:+ name)) /\
    (forall q, q ∉ map (fun s => s.1.1) stored ->
       attr_at "src" q (after_images env pc w) = attr_at "src" q pc) /\
    forall zip : JSZip,
      download_images env pc zip w
      = (Ok (after_images env pc w, writes files zip), w').
Proof.
  intros files.
  destruct (download_images_loop env (positions is_img_src pc) pc w
              (positions_NoDup _ _))
    as (pc' & w' & stored & H1 & H2 & H3 & H4 & H5 & H6).
  assert (map image_entry stored = files) as Hfiles.
  { by apply stored_named. }
  assert (after_images env pc w = pc') as ->.
  { unfold after_images, download_images. by rewrite H6. }
  exists w', stored. split_and!; try done.
  - by rewrite H2, <- Hfiles, length_map.
  - intros zip. unfold download_images. by rewrite H6, Hfiles.
Qed.

(** ** The pass over the backgrounds *)

Lemma download_backgrounds_rounds l : forall (m : gmap string string) w,
  let files := named_files env (readings w) (map (background_outcome env) l) in
  exists m' w',
    readings w' = (readings w + length files)%nat /\
    (forall url, url ∉ l -> m' !! url = m !! url) /\
    (forall url, url ∈ l -> is_fetched (fetch_blob env url) = false ->
       m' !! url = m !! url) /\
    (forall url, url ∈ l -> is_fetched (fetch_blob env url) = true ->
       exists name, m' !! url = Some name /\ name ∈ map fst files) /\
    forall zip : JSZip,
      for_of (download_background env) l (m, zip) w
      = (Ok (m', writes files zip), w').
Proof.
  induction l as [|url l IH]; intros m w files.
  { exists m, w. subst files. split_and!.
    - simpl. lia.
    - done.
    - done.
    - intros ? H. by apply elem_of_nil in H.
    - done. }
  subst files. cbn [map].
  assert (background_outcome env url
          = match fetch_blob env url with
            | Fetched b => Some (blob_ext env b, BlobData b)
            | Rejected _ => None
            end) as -> by reflexivity.
  destruct (fetch_blob env url) as [b|reason] eqn:Hf.
  - destruct (download_background_fetched env m url w b Hf) as (w1 & Hr & _ & Hrun).
    set (name := asset_name env (readings w) (blob_ext env b)) in *.
    destruct (IH (<[url := name]> m) w1) as (m' & w' & H2 & H4 & H5 & H6 & H7).
    rewrite Hr in *. cbn [named_files].
    exists m', w'. split_and!.
    + rewrite H2. cbn [length]. lia.
    + intros u Hu. apply not_elem_of_cons in Hu as [Hne Hu].
      rewrite (H4 _ Hu). by apply lookup_insert_ne.
    + intros u Hu Hnf. apply elem_of_cons in Hu as [->|Hu].
      * rewrite Hf in Hnf. discriminate Hnf.
      * destruct (decide (u = url)) as [->|Hne].
        { rewrite Hf in Hnf. discriminate Hnf. }
        rewrite (H5 _ Hu Hnf). by apply lookup_insert_ne.
    + intros u Hu Hyes. destruct (decide (u ∈ l)) as [Hin|Hnot].
      * destruct (H6 _ Hin Hyes) as (n & Hm & Hn'). exists n. split; [done|].
        cbn [map fst]. by right.
      * apply elem_of_cons in Hu as [->|Hu]; [|done].
        exists name. rewrite (H4 _ Hnot), lookup_insert_eq. split; [done|].
        cbn [map fst]. by left.
    + intros zip. rewrite for_of_cons, Hrun. apply H7.
  - destruct (download_background_rejected env m url w reason Hf) as (w1 & Hr & _ & Hrun).
    destruct (IH m w1) as (m' & w' & H2 & H4 & H5 & H6 & H7).
    rewrite Hr in *. cbn [named_files].
    exists m', w'. split_and!; try done.
    + intros u Hu. apply not_elem_of_cons in Hu as [Hne Hu]. by apply H4.
    + intros u Hu Hnf. destruct (decide (u ∈ l)) as [Hin|Hnot]; [by apply H5|by apply H4].
    + intros u Hu Hyes. apply elem_of_cons in Hu as [->|Hu]; [|by apply H6].
      rewrite Hf in Hyes. discriminate Hyes.
    + intros zip. rewrite for_of_cons, Hrun. apply H7.
Qed.

Lemma download_backgrounds_account html w :
  let cut := pieces background_url html 0 in
  let files :=
    named_files env (readings w) (map (background_outcome env) (collected html)) in
  exists (m : gmap string string) w',
    readings w' = (readings w + length files)%nat /\
    (forall url, is_fetched (fetch_blob env url) = false -> m !! url = None) /\
    (forall url, url ∈ urls_in cut -> is_fetched (fetch_blob env url) = true ->
       exists name, m !! url = Some name /\ name ∈ map fst files) /\
    forall zip : JSZip,
      download_backgrounds env html zip w
      = (Ok (rewritten (fun p1 url p3 =>
                          match m !! url with
                          | Some path => p1 +:+ "./" +:+ path +:+ p3
                          | None => p1 +:+ url +:+ p3
                          end) cut,
             writes files zip), w').
Proof.
  intros cut files.
  destruct (download_backgrounds_rounds (collected html) ∅ w)
    as (m & w1 & H2 & H4 & H5 & H6 & H7).
  fold files in H2, H6, H7.
  destruct (rewrite_urls m cut w1) as (Hout & _ & Hr).
  destruct (background_urls html) as [_ Hfound]. fold cut in Hfound.
  fold (collected html) in Hfound.
  exists m, (replace_pieces (rewrite_url m) cut w1).2.
  rewrite Hr. split_and!; try done.
  - intros url Hf. destruct (decide (url ∈ collected html)) as [Hin|Hnot].
    + by rewrite (H5 _ Hin Hf).
    + by rewrite (H4 _ Hnot).
  - intros url Hin Hf. apply Hfound in Hin. by apply H6.
  - intros zip. unfold download_backgrounds. fold (collected html).
    unfold mbind at 1. unfold M_bind. rewrite H7.
    unfold rewrite_backgrounds, replaceAll, mbind, M_bind. fold cut.
    destruct (replace_pieces (rewrite_url m) cut w1) as [out w2] eqn:E.
    simpl in *. by rewrite Hout.
Qed.

(** ** The loop over the style sheets *)

Lemma download_stylesheets_account l : forall localLinks w,
  let files := named_files env (readings w) (map (stylesheet_outcome env) l) in
  exists w',
    readings w' = (readings w + length files)%nat /\
    forall zip : JSZip,
      for_of (download_stylesheet env) l (localLinks, zip) w
      = (Ok (localLinks +:+ joined (map local_link (map fst files)),
             writes files zip), w').
Proof.
  induction l as [|link l IH]; intros localLinks w files.
  { exists w. subst files. split; [simpl; lia|].
    intros zip. simpl. by rewrite append_empty_r. }
  subst files. cbn [map].
  assert (stylesheet_outcome env link
          = match fetch_text env (stylesheet_href env link) with
            | Fetched stylesheet => Some ("css", TextData stylesheet)
            | Rejected _ => None
            end) as -> by reflexivity.
  destruct (fetch_text env (stylesheet_href env link)) as [text|reason] eqn:Hf.
  - set (name := asset_name env (readings w) "css").
    destruct (IH (localLinks +:+ local_link name)
                (mkWorld (console w) (GET (stylesheet_href env link) :: network w)
                         (S (readings w))))
      as (w' & H2 & H5).
    cbn [readings] in *. cbn [named_files].
    exists w'. split.
    + rewrite H2. cbn [length]. lia.
    + intros zip.
      rewrite for_of_cons, (download_stylesheet_stored _ _ _ _ _ _ Hf), H5.
      cbn [map fst joined fold_right]. by rewrite append_assoc_string.
  - destruct (IH localLinks
                (mkWorld (console_error (FetchError reason)
                            :: console_info ["样式表下载失败: "; stylesheet_href env link]
                            :: console w)
                         (GET (stylesheet_href env link) :: network w) (readings w)))
      as (w' & H2 & H5).
    cbn [readings] in *. cbn [named_files].
    exists w'. split; [done|].
    intros zip. by rewrite for_of_cons, (download_stylesheet_skipped _ _ _ _ _ _ Hf), H5.
Qed.

(** One file for each sheet that arrives. *)
Lemma stylesheet_files_length k l :
  length (named_files env k (map (stylesheet_outcome env) l))
  = length (List.filter (fun href => is_fetched (fetch_text env href))
                        (map (stylesheet_href env) l)).
Proof.
  revert k. induction l as [|link l IH]; intros k; [done|].
  cbn [map List.filter].
  assert (stylesheet_outcome env link
          = match fetch_text env (stylesheet_href env link) with
            | Fetched stylesheet => Some ("css", TextData stylesheet)
            | Rejected _ => None
            end) as -> by reflexivity.
  destruct (fetch_text env (stylesheet_href env link)); cbn [is_fetched named_files].
  - simpl. by rewrite IH.
  - apply IH.
Qed.

End Account.

(** ** The whole call *)

Section CallAccount.

Variable env : Env.

Lemma call_files_elem html w name e :
  (name, e) ∈ call_files env html w ->
  (exists rest, name = "assets/" +:+ rest) /\ exists data, e = File data.
Proof.
  unfold call_files, image_files, later_files. cbn zeta.
  destruct (page_content (parseFromString env html)) as [pageContent|].
  - rewrite elem_of_app. intros [H|H]; by eapply named_files_elem.
  - intros H. by apply elem_of_nil in H.
Qed.

Lemma call_files_not_page html w :
  "index.html" ∉ map fst (call_files env html w).
Proof.
  intros H. apply list_elem_of_fmap in H as ([name e] & Hname & Hin).
  simpl in Hname. subst name.
  apply call_files_elem in Hin as [[rest Hrest] _]. discriminate Hrest.
Qed.

(** With the content container present a call returns; what it returns
    and what it leaves behind is told by the page and the environment. *)
Lemma packHTMLAssets_account html w pageContent :
  page_content (parseFromString env html) = Some pageContent ->
  let d := parseFromString env html in
  let cleaned := clean (quirks d) pageContent in
  let pageContent' := after_images env cleaned w in
  let cut := pieces background_url (outerHTML env pageContent') 0 in
  let links :=
    head_links false
      (documentElement
         (document_with (has_id (quirks d) "page-content") pageContent' d)) in
  exists (stored : list (list nat * string * Blob)) (m : gmap string string)
         (sheets : list (string * entry)) w',
    map image_entry stored = image_files env html w /\
    map (fun s => s.1.1) stored
    = List.filter (fetchable_image env cleaned) (positions is_img_src cleaned) /\
    (forall i img name b, stored !! i = Some (img, name, b) ->
       fetch_blob env (image_source env cleaned img) = Fetched b /\
       name = asset_name env (readings w + i) (blob_ext env b)) /\
    (forall img name b, (img, name, b) ∈ stored ->
       attr_at "src" img pageContent' = Some ("./" +:+ name)) /\
    (forall q, q ∉ map (fun s => s.1.1) stored ->
       attr_at "src" q pageContent' = attr_at "src" q cleaned) /\
    (forall zip : JSZip,
       (download_images env cleaned zip w).1
       = Ok (pageContent', writes (image_files env html w) zip)) /\
    (forall url, is_fetched (fetch_blob env url) = false -> m !! url = None) /\
    (forall url, url ∈ urls_in cut -> is_fetched (fetch_blob env url) = true ->
       exists name, m !! url = Some name /\
                    name ∈ map fst (later_files env html w)) /\
    length sheets
    = length (List.filter (fun href => is_fetched (fetch_text env href))
                          (map (stylesheet_href env) links)) /\
    (forall name, name ∈ map fst sheets ->
       name ∈ map fst (later_files env html w)) /\
    forall zip : option JSZip,
      packHTMLAssets env html zip w
      = (Ok (<["index.html" :=
                 File (TextData
                   (indexHTML (joined (map local_link (map fst sheets)))
                      (rewritten (fun p1 url p3 =>
                                    match m !! url with
                                    | Some path => p1 +:+ "./" +:+ path +:+ p3
                                    | None => p1 +:+ url +:+ p3
                                    end) cut)))]>
               (writes (call_files env html w)
                       (zip_folder "assets" (default ∅ zip)))), w').
Proof.
  intros Hpc d cleaned pageContent' cut links.
  assert (image_files env html w
          = named_files env (readings w)
              (map (image_outcome env cleaned) (positions is_img_src cleaned)))
    as Himages.
  { unfold image_files. cbn zeta. by rewrite Hpc. }
  destruct (download_images_account env cleaned w)
    as (w1 & stored & Hstored & Hr1 & Hwhich & Hnames & Hset & Hkept & Hrun1).
  cbn zeta in Hstored, Hr1, Hrun1. rewrite <- Himages in Hstored, Hr1, Hrun1.
  fold pageContent' in Hset, Hkept, Hrun1.
  destruct (download_backgrounds_account env (outerHTML env pageContent') w1)
    as (m & w2 & Hr2 & Hnone & Hsome & Hrun2).
  cbn zeta in Hr2, Hsome, Hrun2. fold cut in Hsome, Hrun2.
  set (backgrounds :=
         named_files env (readings w1)
           (map (background_outcome env) (collected (outerHTML env pageContent'))))
    in *.
  destruct (download_stylesheets_account env links EmptyString w2)
    as (w3 & Hr3 & Hrun3).
  cbn zeta in Hr3, Hrun3.
  set (sheets := named_files env (readings w2) (map (stylesheet_outcome env) links))
    in *.
  assert (later_files env html w = (backgrounds ++ sheets)%list) as Hlater.
  { unfold later_files. cbn zeta. rewrite Hpc. fold d cleaned pageContent' links.
    rewrite named_files_app. rewrite <- Hr1. fold backgrounds.
    rewrite <- Hr2. reflexivity. }
  exists stored, m, sheets, w3. split_and!; try done.
  - intros zip. by rewrite Hrun1.
  - intros url Hin Hf. destruct (Hsome url Hin Hf) as (name & Hm & Hname).
    exists name. split; [done|]. rewrite Hlater, map_app, elem_of_app. by left.
  - apply stylesheet_files_length.
  - intros name Hname. rewrite Hlater, map_app, elem_of_app. by right.
  - intros zip. unfold packHTMLAssets. cbv zeta. rewrite Hpc. fold d cleaned.
    unfold mbind at 1. unfold M_bind. rewrite Hrun1.
    unfold mbind at 1. unfold M_bind. rewrite Hrun2.
    unfold mbind at 1. unfold M_bind. unfold download_stylesheets.
    fold links. rewrite Hrun3. cbn [mret M_ret].
    unfold call_files. rewrite Hlater, !writes_app, append_empty_l.
    reflexivity.
Qed.

(** C10, as amended. When the call is given an archive and returns, the
    returned archive holds at [index.html] the document composed by this
    call, which is the one the call composes whatever archive it is given.
    Every other entry of the given archive is still there unchanged,
    unless its name is one under which this call writes a file; and under
    each name this call writes, the returned archive holds a file this
    call wrote under it. *)
Theorem packHTMLAssets_keeps_previous_assets html (zip : JSZip) w zip' w' :
  packHTMLAssets env html (Some zip) w = (Ok zip', w') ->
  (exists doc,
     zip' !! "index.html" = Some (File (TextData doc)) /\
     forall other : option JSZip, exists zip'',
       packHTMLAssets env html other w = (Ok zip'', w') /\
       zip'' !! "index.html" = Some (File (TextData doc))) /\
  (forall name e,
     zip !! name = Some e ->
     name <> "index.html" ->
     name ∉ map fst (call_files env html w) ->
     zip' !! name = Some e) /\
  (forall name,
     name ∈ map fst (call_files env html w) ->
     exists e, (name, e) ∈ call_files env html w /\ zip' !! name = Some e).
Proof.
  intros Hrun.
  destruct (page_content (parseFromString env html)) as [pageContent|] eqn:Hpc.
  2: { unfold packHTMLAssets in Hrun. rewrite Hpc in Hrun. discriminate Hrun. }
  destruct (packHTMLAssets_account html w pageContent Hpc)
    as (stored & m & sheets & w1 & _ & _ & _ & _ & _ & _ & _ & _ & _ & _ & Hall).
  rewrite Hall in Hrun. injection Hrun as <- <-. split_and!.
  - eexists. split; [apply lookup_insert_eq|].
    intros other. eexists. split; [apply Hall|apply lookup_insert_eq].
  - intros name e He Hindex Hnew.
    rewrite lookup_insert_ne by done.
    rewrite writes_lookup_other by done. by apply zip_folder_lookup.
  - intros name Hname.
    destruct (writes_lookup_written _ (zip_folder "assets" (default ∅ (Some zip)))
                name Hname) as (e & He & Hl).
    exists e. split; [done|]. rewrite lookup_insert_ne; [done|].
    intros <-. by apply (call_files_not_page html w).
Qed.



End CallAccount.

(** ** The theorems at work on concrete responses *)

Import Example.

Lemma getArticleList_page_witness :
  (getArticleList (listing_env two_entries) "id" "tok" None None start).1
  = Ok [JObj [("aid", JStr "1")]; JObj [("aid", JStr "2")]; JObj [("aid", JStr "3")]].
Proof.
  refine (proj1 (getArticleList_page (listing_env two_entries) "id" "tok" None None
                   start two_entries _ _
                   [[JObj [("aid", JStr "1")]; JObj [("aid", JStr "2")]];
                    [JObj [("aid", JStr "3")]]] _ _ _ _ _ _)).
  - reflexivity.
  - reflexivity.
  - vm_compute. reflexivity.
  - reflexivity.
  - repeat constructor; eexists; (split; [reflexivity|]);
      first [left; reflexivity | right; eexists; reflexivity].
  - repeat constructor; do 3 eexists;
      (split; [reflexivity|]); (split; [reflexivity|]);
      (split; [vm_compute; reflexivity|reflexivity]).
Defined.

(** C2: a response with another code whose message reads [session
    expired] fails exactly as an expired session does. *)
Lemma session_expired_mimicked :
  ret (base_resp expired) = 200003 /\
  ret (base_resp mimic) <> 0 /\
  ret (base_resp mimic) <> 200003 /\
  (getArticleList (listing_env mimic) "id" "tok" None None start).1
  = (getArticleList (listing_env expired) "id" "tok" None None start).1.
Proof. repeat split; discriminate. Qed.

Lemma getArticleList_session_expired_witness :
  (getArticleList (listing_env expired) "id" "tok" None None start).1
  = Throw (Error "session expired") /\
  (getArticleList (listing_env throttled) "id" "tok" None None start).1
  <> (getArticleList (listing_env expired) "id" "tok" None None start).1.
Proof.
  destruct (getArticleList_session_expired (listing_env expired) "id" "tok" None None
              start expired eq_refl eq_refl) as [H1 H2].
  split; [exact H1|].
  apply (H2 (listing_env throttled) "id" "tok" None None start throttled eq_refl);
    discriminate.
Defined.

Lemma getArticleList_server_message_witness :
  (getArticleList (listing_env throttled) "id" "tok" None None start).1
  = Throw (Error "freq control").
Proof.
  apply (getArticleList_server_message (listing_env throttled) "id" "tok" None None
           start throttled "freq control" eq_refl); [discriminate|discriminate|reflexivity].
Defined.

(** C8: with code 0 and a payload that is no JSON text, the failure that
    reaches the caller is the [SyntaxError] of [JSON.parse]. *)
Lemma getArticleList_syntax_error :
  ret (base_resp garbled) = 0 /\
  (getArticleList (listing_env garbled) "id" "tok" None None start).1
  = Throw SyntaxError.
Proof. split; reflexivity. Qed.

Lemma getArticleList_failures_witness :
  (getArticleList (listing_env shapeless) "id" "tok" None None start).1
  = Throw TypeError /\
  ((exists reason,
      Fetched shapeless = Rejected reason /\ TypeError = FetchError reason) \/
   (exists resp,
      Fetched shapeless = Fetched resp /\
      ((ret (base_resp resp) = 0 /\ (TypeError = SyntaxError \/ TypeError = TypeError)) \/
       (ret (base_resp resp) = 200003 /\ TypeError = Error "session expired") \/
       (ret (base_resp resp) <> 0 /\ ret (base_resp resp) <> 200003 /\
        TypeError = Error (err_msg (base_resp resp)))))).
Proof.
  split; [reflexivity|].
  exact (getArticleList_failures (listing_env shapeless) "id" "tok" None None
           start TypeError _ eq_refl).
Defined.

(** ** The theorems at work on concrete pages *)

(** The documents of the examples are what their texts say: serialised
    after the doctype, each gives its text back. *)
Lemma example_documents :
  "<!DOCTYPE html>" +:+ Reference.serialize (documentElement article) = article_html /\
  "<!DOCTYPE html>" +:+ Reference.serialize (documentElement gallery) = gallery_html /\
  "<!DOCTYPE html>" +:+ Reference.serialize (documentElement banner) = banner_html /\
  "<!DOCTYPE html>" +:+ Reference.serialize (documentElement footer) = footer_html /\
  "<!DOCTYPE html>" +:+ Reference.serialize (documentElement error_page) = error_html.
Proof. vm_compute. repeat split. Qed.

Lemma succeeded_archive r : succeeded r = true -> r = (Ok (archive r), r.2).
Proof.
  destruct r as [[zip|e] w]; unfold succeeded, archive; simpl; congruence.
Qed.

Lemma downloadArticleHTML_checks_container_witness :
  (downloadArticleHTML (web ticking half) "https://mp.example/s/404" None start).1
  = Throw (Error "下载失败，请重试").
Proof.
  apply (downloadArticleHTML_checks_container (web ticking half)
           "https://mp.example/s/404" None start error_html eq_refl).
  vm_compute. repeat constructor.
Defined.

Lemma packHTMLAssets_without_container_witness :
  packHTMLAssets (web ticking half) error_html None start = (Throw TypeError, start).
Proof.
  apply packHTMLAssets_without_container. vm_compute. repeat constructor.
Defined.


Lemma gallery_container :
  page_content (parseFromString (web ticking half) gallery_html)
  = Some gallery_content.
Proof. vm_compute. reflexivity. Qed.

Lemma gallery_image_files :
  map fst (image_files (web ticking half) gallery_html start)
  = ["assets/17000000000000.5.png"; "assets/17000000000010.5.png"].
Proof. vm_compute. reflexivity. Qed.


(** The loops request on their own: the picture of the banner is the
    source of an image and occurs twice as a background in the serialised
    content; the call requests it twice, once in the loop over the images
    and once in the pass over the backgrounds. *)
Lemma banner_picture_requested_twice :
  page_content (parseFromString (web ticking half) banner_html) = Some banner_content /\
  clean false banner_content = banner_content /\
  (match download_images (web ticking half) banner_content
           (zip_folder "assets" ∅) start
   with
   | (Ok (pageContent, _), _) =>
       urls_in (pieces background_url
                  (outerHTML (web ticking half) pageContent) 0)
   | _ => []
   end) = ["https://img.example/bg.png"; "https://img.example/bg.png"] /\
  times (GET "https://img.example/bg.png")
        (network (packHTMLAssets (web ticking half) banner_html None start).2)
    = 2%nat.
Proof. vm_compute. repeat split. Qed.


Lemma second_call_succeeded : succeeded second_call = true.
Proof. vm_compute. reflexivity. Qed.

Lemma first_call_entry :
  archive first_call !! "assets/17000000000000.5.png"
  = Some (File (BlobData (png "one"))).
Proof. vm_compute. reflexivity. Qed.

Lemma second_call_readings :
  readings first_call.2 = 3%nat /\ readings second_call.2 = 5%nat.
Proof. vm_compute. split; reflexivity. Qed.

(** The second call writes two files. *)
Lemma second_call_files :
  map fst (call_files (web ticking half) gallery_html first_call.2)
  = ["assets/17000000000030.5.png"; "assets/17000000000040.5.png"].
Proof. vm_compute. reflexivity. Qed.

Lemma packHTMLAssets_keeps_previous_assets_witness :
  archive second_call !! "assets/17000000000000.5.png"
  = Some (File (BlobData (png "one"))).
Proof.
  refine (proj1 (proj2 (packHTMLAssets_keeps_previous_assets _ _ _ _ _ _
                          (succeeded_archive second_call second_call_succeeded)))
                _ _ first_call_entry _ _).
  - intros H. discriminate H.
  - rewrite second_call_files. intros H.
    repeat (apply elem_of_cons in H as [H|H]; [discriminate H|]).
    by apply elem_of_nil in H.
Defined.

(** C10: with the clock frozen and the random generator repeating itself,
    the image file the first call stored is overwritten by the second
    call. *)
Lemma frozen_clock_overwrites_previous_asset :
  succeeded first_frozen = true /\
  succeeded second_frozen = true /\
  archive first_frozen !! "assets/17000000000000.5.png"
    = Some (File (BlobData (png "three"))) /\
  archive second_frozen !! "assets/17000000000000.5.png"
    = Some (File (BlobData (png "background"))).
Proof. vm_compute. repeat split. Qed.

(** ** The further properties at work on the examples *)

(** Two pictures of the examples are proxied under two addresses. *)
Lemma proxyImage_distinct_witness :
  "https://img.example/1.png" <> "https://img.example/2.png" /\
  proxyImage "https://img.example/1.png" <> proxyImage "https://img.example/2.png".
Proof.
  split; [discriminate|].
  apply (proxyImage_distinct "https://img.example/1.png" "https://img.example/2.png").
  discriminate.
Defined.

(** The article of the examples, once downloaded, can be packed. *)
Lemma downloaded_page_can_be_packed_witness :
  (downloadArticleHTML (web ticking half) "https://mp.example/s/1" None start).1
    = Ok article_html /\
  exists zip' w',
    packHTMLAssets (web ticking half) article_html None start = (Ok zip', w').
Proof.
  assert ((downloadArticleHTML (web ticking half) "https://mp.example/s/1" None start).1
          = Ok article_html) as H by (vm_compute; reflexivity).
  split; [exact H|].
  exact (downloaded_page_can_be_packed (web ticking half) "https://mp.example/s/1"
           None start article_html None start H).
Defined.

(** The gallery holds nothing to clean. *)
Lemma clean_nothing_to_clean_witness :
  clean false gallery_content = gallery_content.
Proof.
  apply (clean_nothing_to_clean false gallery_content).
  intros n Hn. unfold descendants, gallery_content in Hn. simpl in Hn.
  repeat (apply elem_of_cons in Hn as [->|Hn]);
    [| | |by apply elem_of_nil in Hn];
    (split_and!; [reflexivity|reflexivity|reflexivity|reflexivity|]);
    intros H; discriminate H.
Defined.

Lemma first_call_succeeded : succeeded first_call = true.
Proof. vm_compute. reflexivity. Qed.

(** The archive of the packed article has its folder and its page. *)
Lemma packHTMLAssets_entries_witness :
  is_Some (archive first_call !! "assets/") /\
  is_Some (archive first_call !! "index.html").
Proof.
  pose proof (packHTMLAssets_entries _ _ _ _ _ _
                (succeeded_archive first_call first_call_succeeded))
    as (H1 & H2 & _).
  exact (conj H1 H2).
Defined.

(** The background of the article, as it is serialised. *)
Lemma background_url_captures_witness :
  exec_here background_url
    ("background-image" +:+ ": url(" +:+ "&quot;" +:+ ("https:" +:+ "//img.example/bg.png")
       +:+ "&quot;" +:+ ")" +:+ ";")
  = Some (["background-image" +:+ ": url(" +:+ "&quot;";
           "https:" +:+ "//img.example/bg.png"; "&quot;" +:+ ")"], ";").
Proof.
  apply (background_url_captures "background-image" "&quot;" "https:"
           "//img.example/bg.png" ";").
  - repeat constructor.
  - repeat constructor.
  - repeat constructor.
  - discriminate.
  - reflexivity.
  - discriminate.
Defined.

(** A list within a list stays, a missing list gives [undefined], a text
    that is no list is taken as it is. *)
Lemma getArticleList_flattens_one_level_witness :
  (getArticleList (listing_env uneven) "id" "tok" None None start).1
  = Ok [JArr [JStr "a"]; JStr "b"; JUndefined; JStr "c"].
Proof.
  refine (getArticleList_flattens_one_level (listing_env uneven) "id" "tok" None None
            start uneven _ _
            [JArr [JArr [JStr "a"]; JStr "b"]; JUndefined; JStr "c"] _ _ _ _ _ _).
  - reflexivity.
  - reflexivity.
  - vm_compute. reflexivity.
  - reflexivity.
  - repeat constructor; eexists; (split; [reflexivity|]);
      right; eexists; reflexivity.
  - repeat constructor; do 3 eexists;
      (split; [reflexivity|]); (split; [reflexivity|]);
      (split; [vm_compute; reflexivity|reflexivity]).
Defined.

(** The gallery, as it is serialised, has no background. *)
Lemma download_backgrounds_nothing_to_do_witness :
  download_backgrounds (web ticking half)
    (outerHTML (web ticking half) gallery_content) ∅ start
  = (Ok (outerHTML (web ticking half) gallery_content, ∅), start).
Proof.
  apply (download_backgrounds_nothing_to_do (web ticking half)
           (outerHTML (web ticking half) gallery_content) ∅ start).
  vm_compute. reflexivity.
Defined.

